(** * SUSHI: importer and instance exporter, embedded and verified

    A shallow embedding of the FSH importer ([FSHImporter]) and of the
    instance exporter ([InstanceExporter]) of SUSHI, together with the
    statements that relate them to the specification of the compiler.

    Conventions.
    - A JavaScript string is a [string]: a sequence of code units, of which
      the model covers those below 256.
    - [undefined] and [null] are [None].
    - The logger is a list of records, oldest first; [logger.error(m, s)]
      appends one record.
    - Objects that the code mutates and shares (the instances of a Package,
      the Instance entities of a Tank) live in a store and are named by
      their position in it. *)

From Stdlib Require Import ZArith Lia Ascii String List Bool.
From Stdlib Require DecimalString DecimalNat.
From stdpp Require Import base option list strings gmap.

Open Scope string_scope.
Open Scope list_scope.
Open Scope nat_scope.

(** ** JavaScript string primitives *)

Module Js.

(** The newline character, U+000A. *)
Definition LF : ascii := "010"%char.

(** [\s] of a JavaScript regular expression, on the code units below 256:
    TAB, LF, VT, FF, CR, SPACE and NO-BREAK SPACE. *)
Definition isWhitespace (c : ascii) : bool :=
  let n := nat_of_ascii c in
  ((9 <=? n) && (n <=? 13)) || (n =? 32) || (n =? 160).

(** [\S] *)
Definition isNonWhitespace (c : ascii) : bool := negb (isWhitespace c).

(** [s.length] *)
Definition length (s : string) : nat := String.length s.

(** [s[i]]: [undefined] past the end. *)
Definition charAt (i : nat) (s : string) : option ascii := String.get i s.

(** A relative index of [slice], against a string of [len] code units:
    negative indices count from the end, and all are clamped to
    [0 .. len]. *)
Definition clampIndex (len : nat) (i : Z) : nat :=
  if (i <? 0)%Z then Z.to_nat (Z.max (Z.of_nat len + i) 0)
  else Nat.min (Z.to_nat i) len.

(** [s.slice(from, to)] *)
Definition slice (from to : Z) (s : string) : string :=
  let len := length s in
  let a := clampIndex len from in
  let b := clampIndex len to in
  String.substring a (b - a) s.

(** [s.slice(from)] *)
Definition sliceFrom (from : nat) (s : string) : string :=
  String.substring from (length s - from) s.

(** [s.split('\n')]: the pieces between the separators; never empty. *)
Fixpoint splitOn (sep : ascii) (s : string) : list string :=
  match s with
  | EmptyString => [EmptyString]
  | String c rest =>
      if Ascii.eqb c sep then EmptyString :: splitOn sep rest
      else match splitOn sep rest with
           | [] => [String c EmptyString]
           | l :: ls => String c l :: ls
           end
  end.

(** [lines.join('\n')] *)
Fixpoint join (sep : ascii) (lines : list string) : string :=
  match lines with
  | [] => EmptyString
  | [l] => l
  | l :: ls => l +:+ String sep (join sep ls)
  end.

(** [s.search(/\S/)]: the index of the first code unit that is not
    whitespace; [None] is JavaScript's [-1]. *)
Fixpoint searchNonWhitespace (s : string) : option nat :=
  match s with
  | EmptyString => None
  | String c rest =>
      if isNonWhitespace c then Some 0
      else S <$> searchNonWhitespace rest
  end.

(** [s.search(/\S|$/)]: as above, but the end of the string matches too, so
    the search always succeeds. *)
Definition searchNonWhitespaceOrEnd (s : string) : nat :=
  default (length s) (searchNonWhitespace s).

(** [array.findIndex(p)]: the position of the first element that satisfies
    [p]. *)
Fixpoint findIndex {A} (p : A -> bool) (l : list A) : option nat :=
  match l with
  | [] => None
  | x :: rest => if p x then Some 0 else S <$> findIndex p rest
  end.

(** [array.some((x, i) => p(i, x))] *)
Definition someWithIndex {A} (p : nat -> A -> bool) (l : list A) : bool :=
  existsb (fun ix => p ix.1 ix.2) (imap pair l).

(** A JavaScript [Map] with string keys: the entries in insertion order.
    [map.set(k, v)] replaces the value of an entry that exists, where it
    stands, and adds a new entry at the end. *)
Fixpoint mapSet {V} (k : string) (v : V) (m : list (string * V))
  : list (string * V) :=
  match m with
  | [] => [(k, v)]
  | (k', v') :: m' =>
      if String.eqb k' k then (k, v) :: m' else (k', v') :: mapSet k v m'
  end.

(** [map.get(k)] *)
Fixpoint mapGet {V} (k : string) (m : list (string * V)) : option V :=
  match m with
  | [] => None
  | (k', v) :: m' => if String.eqb k' k then Some v else mapGet k m'
  end.

(** [lines.pop()], for its effect on the array. *)
Definition pop {A} (l : list A) : list A := removelast l.

(** [lines[lines.length - 1]] *)
Definition lastElement {A} (l : list A) : option A := last l.

End Js.

(** ** The FSH entities and the exported artifacts *)

Module Model.

(** [TextLocation] and the [sourceInfo] of an entity, a rule or an error. *)
Record TextLocation := mkTextLocation
  { startLine : nat; startColumn : nat; endLine : nat; endColumn : nat }.

Record SourceInfo := mkSourceInfo
  { file : option string; location : option TextLocation }.

(** ['Example' | 'Definition' | 'Inline'] *)
Inductive InstanceUsage := Example | Definition' | Inline.

(** The kinds a [Fishable] is asked for ([Type] of [utils/Fishable]). *)
Inductive FishType :=
  | TProfile | TExtension | TValueSet | TCodeSystem | TInstance
  | TResource | TType.

(** The values an assignment rule carries.  [VInstance i] is the
    [InstanceDefinition] object at position [i] of the Package: the object
    itself, not a copy.  Numbers, quantities, ratios and canonicals play no
    part below and are carried as their text. *)
Inductive Value :=
  | VString (s : string)
  | VBoolean (b : bool)
  | VCode (system : option string) (code : string)
  | VReference (reference : string)
  | VInstance (i : nat)
  | VOther (text : string).

(** One segment of a validated path: [base[bracket]...[bracket]]. *)
Record PathPart := mkPathPart { base : string; brackets : list string }.

Record AssignmentRule := mkAssignmentRule
  { path : string;
    value : Value;
    exactly : bool;
    isInstance : bool;
    ruleSourceInfo : SourceInfo }.

(** The rules of an Instance: assignment rules and insert rules. *)
Inductive Rule :=
  | Assign (r : AssignmentRule)
  | Insert (ruleSet : string) (s : SourceInfo).

Record Instance := mkInstance
  { name : string;
    id : string;
    title : option string;
    description : option string;
    instanceOf : string;
    usage : option InstanceUsage;
    mixins : list string;
    rules : list Rule;
    sourceInfo : SourceInfo }.

(** [_instanceMeta] of an [InstanceDefinition]. *)
Record InstanceMeta := mkInstanceMeta
  { metaName : string;
    metaTitle : option string;
    metaDescription : option string;
    metaUsage : option InstanceUsage;
    metaSdType : option string }.

(** A concrete path in an instance, as the key of its properties: the
    segments with their brackets.  The first element of an array stands at
    the path without an index, as in the normalized rule paths. *)
Abbreviation Key := (list (string * list string)).

(** An [InstanceDefinition]: [_instanceMeta], and the properties of the
    object, keyed by the concrete path they stand at. *)
Record InstanceDefinition := mkInstanceDefinition
  { instanceMeta : InstanceMeta;
    properties : gmap Key Value }.

Definition resourceTypeKey : Key := [("resourceType", [])].
Definition idKey : Key := [("id", [])].
Definition metaProfileKey : Key := [("meta", []); ("profile", [])].

(** [d.resourceType], [d.id] and [d.meta?.profile[0]] *)
Definition resourceType (d : InstanceDefinition) : option Value :=
  properties d !! resourceTypeKey.
Definition instanceId (d : InstanceDefinition) : option Value :=
  properties d !! idKey.
Definition firstProfile (d : InstanceDefinition) : option Value :=
  properties d !! metaProfileKey.

(** [d[path] = v] *)
Definition setProperty (k : Key) (v : Value) (d : InstanceDefinition)
  : InstanceDefinition :=
  mkInstanceDefinition (instanceMeta d) (<[k := v]> (properties d)).

(** The levels and the messages of the log.  A message is kept as its
    template and its arguments. *)
Inductive Level := LInfo | LWarn | LError.

Inductive Message :=
  | InstanceOfNotDefined (instanceName instanceOfName : string)
  | NotAnInstanceOfAResource (instanceName : string)
  | CannotFindInstance (v : Value)
  | DuplicateInstanceId (type id : option Value)
  | RequiredElementMissing (elementId : string) (min occurs : nat)
  | InvalidFHIRId (id : string)
  | SanitizedFHIRId (id sanitized : string)
  | ConvertedInstances (count : nat)
  | CannotReadProperty
  | ImporterCannotBeReused
  | UnsupportedRule (text : string)
  | ParentNotDefined (entityName parentName : string)
  | IgIniGenerated
  | IgIniCopied
  | IgIniMerged
  | IgIniOverridden
  | IgIniMissingProperty (key : string)
  | IgIniDeprecatedProperties (keys : list string)
  | Other (text : string).

Record LogRecord := mkLogRecord
  { level : Level; message : Message; logSourceInfo : option SourceInfo }.

Global Instance TextLocation_eq_dec : EqDecision TextLocation.
Proof. solve_decision. Defined.
Global Instance SourceInfo_eq_dec : EqDecision SourceInfo.
Proof. solve_decision. Defined.
Global Instance InstanceUsage_eq_dec : EqDecision InstanceUsage.
Proof. solve_decision. Defined.
Global Instance FishType_eq_dec : EqDecision FishType.
Proof. solve_decision. Defined.
Global Instance Value_eq_dec : EqDecision Value.
Proof. solve_decision. Defined.
Global Instance Level_eq_dec : EqDecision Level.
Proof. solve_decision. Defined.
Global Instance Message_eq_dec : EqDecision Message.
Proof. solve_decision. Defined.
Global Instance LogRecord_eq_dec : EqDecision LogRecord.
Proof. solve_decision. Defined.

(** The key of a validated path. *)
Definition pathKey (parts : list PathPart) : Key :=
  map (fun p => (base p, brackets p)) parts.

End Model.

(** ** The importer *)

Module Importer.
Import Model.

(** The fold of [extractMultilineString] that finds [minSpaces]: the body of
    the [forEach] callback, then the loop. *)
Definition minSpacesStep (minSpaces : nat) (line : string) : nat :=
  let firstNonSpace := Js.searchNonWhitespaceOrEnd line in
  if (0 <? firstNonSpace) && ((minSpaces =? 0) || (firstNonSpace <? minSpaces))
  then firstNonSpace else minSpaces.

Definition findMinSpaces (lines : list string) : nat :=
  fold_left minSpacesStep lines 0.

(** [FSHImporter.extractMultilineString], on the text of the
    MULTILINE_STRING token (the three quotes on either side included). *)
Definition extractMultilineString (text : string) : string :=
  (* first remove the leading and trailing quotes and the leading newline
     (if applicable) *)
  let mlstr :=
    Js.slice (if bool_decide (Js.charAt 3 text = Some Js.LF) then 4 else 3)
             (-3) text in
  (* split into lines *)
  let lines := Js.splitOn Js.LF mlstr in
  (* if the last line is only whitespace, remove it *)
  let lines :=
    match Js.lastElement lines with
    | Some l =>
        if bool_decide (Js.searchNonWhitespace l = None) then Js.pop lines
        else lines
    | None => lines
    end in
  (* find the minimum number of spaces before the first char *)
  let minSpaces := findMinSpaces lines in
  (* remove the common leading spaces and join the lines back together *)
  Js.join Js.LF
    (map (fun l => if minSpaces <=? Js.length l
                   then Js.sliceFrom minSpaces l else l) lines).

(** [FSHImporter.extractString]: the text of a STRING token without its
    quotes. *)
Definition extractString (text : string) : string :=
  Js.slice 1 (Z.of_nat (Js.length text) - 1) text.

(** A token of the parse tree, as far as [extractStartStop] reads it. *)
Record Token := mkToken
  { tokLine : nat; tokColumn : nat; tokStart : nat; tokStop : nat }.

(** [FSHImporter.extractStartStop], for a context that starts at the token
    [start] and stops at the token [stop]. *)
Definition extractStartStop (start stop : Token) : TextLocation :=
  mkTextLocation (tokLine start) (tokColumn start + 1) (tokLine stop)
    (tokStop stop - tokStart stop + tokColumn stop + 1).

(** The contexts of the parse tree.  A context holds the children that the
    grammar gives it; a child that is absent is [None]. *)
Inductive StringContext :=
  | STRING (text : string)
  | MULTILINE_STRING (text : string).

Inductive SdMetadataContext :=
  | IdContext (sequence : string)
  | ParentContext (sequence : string)
  | TitleContext (text : string)
  | DescriptionContext (s : StringContext)
  | OtherMetadataContext (text : string).

Record StructureContext (R : Type) := mkStructureContext
  { ctxSequence : string;
    ctxSdMetadata : list SdMetadataContext;
    ctxSdRule : list R;
    ctxStart : Token;
    ctxStop : Token }.
Arguments mkStructureContext {R}.
Arguments ctxSequence {R}.
Arguments ctxSdMetadata {R}.
Arguments ctxSdRule {R}.
Arguments ctxStart {R}.
Arguments ctxStop {R}.

Record AliasContext := mkAliasContext
  { aliasName : string; aliasValue : string }.

Record EntityContext (R : Type) := mkEntityContext
  { ctxAlias : option AliasContext;
    ctxProfile : option (StructureContext R);
    ctxExtension : option (StructureContext R) }.
Arguments mkEntityContext {R}.
Arguments ctxAlias {R}.
Arguments ctxProfile {R}.
Arguments ctxExtension {R}.

(** A Profile or an Extension, over the rules [U] that the importer gives
    it. *)
Record FshStructure (U : Type) := mkFshStructure
  { sdName : string;
    sdId : option string;
    sdParent : option string;
    sdTitle : option string;
    sdDescription : option string;
    sdRules : list U;
    sdSourceInfo : SourceInfo }.
Arguments mkFshStructure {U}.
Arguments sdName {U}.
Arguments sdId {U}.
Arguments sdParent {U}.
Arguments sdTitle {U}.
Arguments sdDescription {U}.
Arguments sdRules {U}.
Arguments sdSourceInfo {U}.

(** [FSHDocument]: its maps keep the order of insertion. *)
Record FSHDocument (U : Type) := mkFSHDocument
  { docFile : string;
    aliases : list (string * string);
    profiles : list (string * FshStructure U);
    extensions : list (string * FshStructure U) }.
Arguments mkFSHDocument {U}.
Arguments docFile {U}.
Arguments aliases {U}.
Arguments profiles {U}.
Arguments extensions {U}.

(** The importer: its fields [used], [file] and [doc], and the log. *)
Record FSHImporter (U : Type) := mkFSHImporter
  { used : bool;
    importerFile : string;
    doc : FSHDocument U;
    importerLog : list LogRecord }.
Arguments mkFSHImporter {U}.
Arguments used {U}.
Arguments importerFile {U}.
Arguments doc {U}.
Arguments importerLog {U}.

Section Visiting.

(** The contexts of rules and the rules made of them.  The visitor of rules
    and the constructors of [Profile] and [Extension] are taken as they
    come: [visitSdRule] reads the aliases and the file, and gives the rules
    and the warnings it logs. *)
Context {R U : Type}.
Variable visitSdRule :
  list (string * string) -> string -> R -> list U * list LogRecord.
Variable newProfile : string -> FshStructure U.
Variable newExtension : string -> FshStructure U.

(** [new FSHImporter(file)] *)
Definition newImporter (file : string) : FSHImporter U :=
  mkFSHImporter false file (mkFSHDocument file [] [] []) [].

Definition setDoc (d : FSHDocument U) (i : FSHImporter U) : FSHImporter U :=
  mkFSHImporter (used i) (importerFile i) d (importerLog i).

Definition addLog (rs : list LogRecord) (i : FSHImporter U) : FSHImporter U :=
  mkFSHImporter (used i) (importerFile i) (doc i) (importerLog i ++ rs).

(** [FSHImporter.aliasAwareValue] *)
Definition aliasAwareValue (i : FSHImporter U) (v : string) : string :=
  default v (Js.mapGet v (aliases (doc i))).

(** [FSHImporter.visitAlias] *)
Definition visitAlias (ctx : AliasContext) (i : FSHImporter U)
  : FSHImporter U :=
  let d := doc i in
  setDoc (mkFSHDocument (docFile d)
            (Js.mapSet (aliasName ctx) (aliasValue ctx) (aliases d))
            (profiles d) (extensions d)) i.

(** [FSHImporter.visitSdMetadata] with the assignment that
    [parseProfileOrExtension] makes of its result. *)
Definition applySdMetadata (i : FSHImporter U) (def : FshStructure U)
    (ctx : SdMetadataContext) : FshStructure U :=
  match ctx with
  | IdContext sequence =>
      mkFshStructure (sdName def) (Some sequence) (sdParent def)
        (sdTitle def) (sdDescription def) (sdRules def) (sdSourceInfo def)
  | ParentContext sequence =>
      mkFshStructure (sdName def) (sdId def)
        (Some (aliasAwareValue i sequence))
        (sdTitle def) (sdDescription def) (sdRules def) (sdSourceInfo def)
  | TitleContext text =>
      mkFshStructure (sdName def) (sdId def) (sdParent def)
        (Some (extractString text)) (sdDescription def) (sdRules def)
        (sdSourceInfo def)
  | DescriptionContext (STRING text) =>
      mkFshStructure (sdName def) (sdId def) (sdParent def) (sdTitle def)
        (Some (extractString text)) (sdRules def) (sdSourceInfo def)
  | DescriptionContext (MULTILINE_STRING text) =>
      mkFshStructure (sdName def) (sdId def) (sdParent def) (sdTitle def)
        (Some (extractMultilineString text)) (sdRules def) (sdSourceInfo def)
  | OtherMetadataContext _ => def
  end.

(** The loop of [parseProfileOrExtension] over the rules. *)
Fixpoint visitSdRules (rules : list R) (def : FshStructure U)
    (i : FSHImporter U) : FshStructure U * FSHImporter U :=
  match rules with
  | [] => (def, i)
  | r :: rest =>
      let visited := visitSdRule (aliases (doc i)) (importerFile i) r in
      visitSdRules rest
        (mkFshStructure (sdName def) (sdId def) (sdParent def) (sdTitle def)
           (sdDescription def) (sdRules def ++ visited.1) (sdSourceInfo def))
        (addLog visited.2 i)
  end.

(** [FSHImporter.parseProfileOrExtension] *)
Definition parseProfileOrExtension (def : FshStructure U)
    (ctx : StructureContext R) (i : FSHImporter U)
  : FshStructure U * FSHImporter U :=
  visitSdRules (ctxSdRule ctx)
    (fold_left (applySdMetadata i) (ctxSdMetadata ctx) def) i.

(** [.withLocation(this.extractStartStop(ctx)).withFile(this.file)] *)
Definition located (ctx : StructureContext R) (i : FSHImporter U)
    (def : FshStructure U) : FshStructure U :=
  mkFshStructure (sdName def) (sdId def) (sdParent def) (sdTitle def)
    (sdDescription def) (sdRules def)
    (mkSourceInfo (Some (importerFile i))
       (Some (extractStartStop (ctxStart ctx) (ctxStop ctx)))).

(** [FSHImporter.visitProfile] and [FSHImporter.visitExtension] *)
Definition visitProfile (ctx : StructureContext R) (i : FSHImporter U)
  : FSHImporter U :=
  let parsed :=
    parseProfileOrExtension (located ctx i (newProfile (ctxSequence ctx)))
      ctx i in
  let d := doc parsed.2 in
  setDoc (mkFSHDocument (docFile d) (aliases d)
            (Js.mapSet (sdName parsed.1) parsed.1 (profiles d))
            (extensions d)) parsed.2.

Definition visitExtension (ctx : StructureContext R) (i : FSHImporter U)
  : FSHImporter U :=
  let parsed :=
    parseProfileOrExtension (located ctx i (newExtension (ctxSequence ctx)))
      ctx i in
  let d := doc parsed.2 in
  setDoc (mkFSHDocument (docFile d) (aliases d) (profiles d)
            (Js.mapSet (sdName parsed.1) parsed.1 (extensions d))) parsed.2.

Definition whenPresent {C} (c : option C)
    (visit : C -> FSHImporter U -> FSHImporter U) (i : FSHImporter U)
  : FSHImporter U :=
  match c with
  | Some ctx => visit ctx i
  | None => i
  end.

(** [FSHImporter.visitEntity] *)
Definition visitEntity (ctx : EntityContext R) (i : FSHImporter U)
  : FSHImporter U :=
  whenPresent (ctxExtension ctx) visitExtension
    (whenPresent (ctxProfile ctx) visitProfile
       (whenPresent (ctxAlias ctx) visitAlias i)).

(** [FSHImporter.visitDoc], on the entities of the document context: the
    importer after the call, and the document returned ([None] is
    [undefined]). *)
Definition visitDoc (ctx : list (EntityContext R)) (i : FSHImporter U)
  : FSHImporter U * option (FSHDocument U) :=
  if used i then
    (addLog [mkLogRecord LError ImporterCannotBeReused None] i, None)
  else
    let i := mkFSHImporter true (importerFile i) (doc i) (importerLog i) in
    (* First collect the aliases *)
    let i := fold_left (fun i e => whenPresent (ctxAlias e) visitAlias i)
               ctx i in
    (* Now process the rest of the document *)
    let i := fold_left (fun i e => visitEntity e i) ctx i in
    (i, Some (doc i)).

End Visiting.

End Importer.

(** ** The instance exporter *)

Module InstanceExporter.
Import Model.

(** What [StructureDefinition.fromJSON] keeps of a definition, over the
    element tree [E]. *)
Record StructureDefinition (E : Type) := mkStructureDefinition
  { kind : string;
    type : string;
    derivation : option string;
    url : string;
    elements : E }.
Arguments mkStructureDefinition {E}.
Arguments kind {E}.
Arguments type {E}.
Arguments derivation {E}.
Arguments url {E}.
Arguments elements {E}.

(** [Metadata] of [utils/Fishable]. *)
Record Metadata := mkMetadata
  { mdId : option string;
    mdName : option string;
    mdUrl : option string;
    sdType : option string;
    mdParent : option string }.

(** The collaborators of the exporter whose code lies outside the exporter
    and which the specification leaves open: the [Fishable] port, the
    element tree with its validation, the expansion of rule sets and the
    clean-up of a resource.  Each is a function of what the code hands to
    it; those that inspect instances also receive the Package.
    - [validateValueAtPath] gives back the definition it may have changed
      and either the message of the error it throws or the validated path
      with the value to assign;
    - [impliedProperties sd p] lists the [pattern[x]] and [fixed[x]] values
      that [sd] gives to the children of the element at path [p];
    - [requiredElementErrors] lists, in the order they are found, the
      elements that [validateRequiredChildElements] finds short of their
      minimum cardinality: the id, the minimum and the occurrences;
    - [cleanResource] cleans the data of a resource and leaves
      [_instanceMeta] alone. *)
Class Collaborators := mkCollaborators
  { Elements : Type;
    fisherFishForFHIR :
      string -> list FishType -> option (StructureDefinition Elements);
    fisherFishForMetadata : string -> list FishType -> option Metadata;
    applyMixinRules : list Instance -> Instance -> list Rule * list LogRecord;
    applyInsertRules :
      list Instance -> Instance -> list AssignmentRule * list LogRecord;
    splitOnPathPeriods : string -> list string;
    validateValueAtPath :
      list InstanceDefinition -> StructureDefinition Elements ->
      string -> Value -> list (option Value) ->
      StructureDefinition Elements * (Message + list PathPart * Value);
    impliedProperties :
      StructureDefinition Elements -> string -> list (list PathPart * Value);
    requiredElementErrors :
      list InstanceDefinition -> InstanceDefinition ->
      StructureDefinition Elements -> list (string * nat * nat);
    cleanResource : gmap Key Value -> gmap Key Value }.

Abbreviation SD := (StructureDefinition Elements).

(** *** State, exceptions and the monad of the exporter *)

(** The objects the exporter shares and mutates: the Instance entities of
    the Tank, the instances of the Package and the log. *)
Record State := mkState
  { tank : list Instance;
    pkgInstances : list InstanceDefinition;
    log : list LogRecord }.

(** What the exporter throws: [InstanceOfNotDefinedError], and the
    [TypeError] of reading a property of [undefined]. *)
Inductive Exception :=
  | InstanceOfNotDefinedError (instanceName instanceOfName : string)
      (s : SourceInfo)
  | TypeError.

(** [e.message] and [e.sourceInfo] *)
Definition exceptionMessage (e : Exception) : Message :=
  match e with
  | InstanceOfNotDefinedError n i _ => InstanceOfNotDefined n i
  | TypeError => CannotReadProperty
  end.

Definition exceptionSourceInfo (e : Exception) : option SourceInfo :=
  match e with
  | InstanceOfNotDefinedError _ _ s => Some s
  | TypeError => None
  end.

(** How a call ends: it returns, it throws, or the model ran out of the
    fuel that bounds the depth of nested exports. *)
Inductive Outcome (A : Type) :=
  | Returned (a : A)
  | Thrown (e : Exception)
  | OutOfFuel.
Arguments Returned {A}.
Arguments Thrown {A}.
Arguments OutOfFuel {A}.

Definition M (A : Type) : Type := State -> Outcome A * State.

Definition ret {A} (a : A) : M A := fun st => (Returned a, st).

Definition bind {A B} (m : M A) (k : A -> M B) : M B :=
  fun st =>
    match m st with
    | (Returned a, st') => k a st'
    | (Thrown e, st') => (Thrown e, st')
    | (OutOfFuel, st') => (OutOfFuel, st')
    end.

Notation "'do' x <- m ; k" := (bind m (fun x => k))
  (at level 10, x name, m at level 100, k at level 200).
Notation "'run' m ; k" := (bind m (fun _ => k))
  (at level 10, m at level 100, k at level 200).

Definition throw {A} (e : Exception) : M A := fun st => (Thrown e, st).
Definition outOfFuel {A} : M A := fun st => (OutOfFuel, st).
Definition getState : M State := fun st => (Returned st, st).

(** [try { m } catch (e) { handler(e) }] *)
Definition tryCatch {A} (m : M A) (handler : Exception -> M A) : M A :=
  fun st =>
    match m st with
    | (Thrown e, st') => handler e st'
    | r => r
    end.

(** [logger.error], [logger.warn], [logger.info] *)
Definition logRecords (rs : list LogRecord) : M unit :=
  fun st => (Returned tt,
             mkState (tank st) (pkgInstances st) (log st ++ rs)).

Definition loggerError (m : Message) (s : option SourceInfo) : M unit :=
  logRecords [mkLogRecord LError m s].
Definition loggerWarn (m : Message) (s : option SourceInfo) : M unit :=
  logRecords [mkLogRecord LWarn m s].
Definition loggerInfo (m : Message) (s : option SourceInfo) : M unit :=
  logRecords [mkLogRecord LInfo m s].

(** Reading and mutating the object at an address.  The address of no
    object is [undefined], and reading a property of it throws. *)
Definition readInstance (addr : nat) : M Instance :=
  fun st => match tank st !! addr with
            | Some i => (Returned i, st)
            | None => (Thrown TypeError, st)
            end.

Definition modifyInstance (addr : nat) (f : Instance -> Instance) : M unit :=
  fun st => (Returned tt,
             mkState (alter f addr (tank st)) (pkgInstances st) (log st)).

Definition readDefinition (idx : nat) : M InstanceDefinition :=
  fun st => match pkgInstances st !! idx with
            | Some i => (Returned i, st)
            | None => (Thrown TypeError, st)
            end.

Definition modifyDefinition (idx : nat)
    (f : InstanceDefinition -> InstanceDefinition) : M unit :=
  fun st => (Returned tt,
             mkState (tank st) (alter f idx (pkgInstances st)) (log st)).

(** [this.pkg.instances.push(instanceDef)]; gives the position of the new
    object. *)
Definition pushDefinition (d : InstanceDefinition) : M nat :=
  fun st => (Returned (length (pkgInstances st)),
             mkState (tank st) (pkgInstances st ++ [d]) (log st)).

(** *** Strings, arrays and maps of the exporter *)

(** [path.replace(/\[0+\]/g, '')].  [dropZeros] consumes the zeros of an
    index; [zeroIndexLength s] is the length of the match of [\[0+\]] at the
    start of [s], if there is one. *)
Fixpoint dropZeros (s : string) : nat * string :=
  match s with
  | String "0" rest => let '(n, r) := dropZeros rest in (S n, r)
  | _ => (0, s)
  end.

Definition zeroIndexLength (s : string) : option nat :=
  match s with
  | String "[" (String "0" rest) =>
      match dropZeros rest with
      | (n, String "]" _) => Some (n + 3)
      | _ => None
      end
  | _ => None
  end.

Fixpoint removeZeroIndicesFrom (skip : nat) (s : string) : string :=
  match s with
  | EmptyString => EmptyString
  | String c rest =>
      match skip with
      | S k => removeZeroIndicesFrom k rest
      | 0 =>
          match zeroIndexLength s with
          | Some n => removeZeroIndicesFrom (n - 1) rest
          | None => String c (removeZeroIndicesFrom 0 rest)
          end
      end
  end.

Definition removeZeroIndices (s : string) : string :=
  removeZeroIndicesFrom 0 s.

(** [s.startsWith(p)] and [s.endsWith(p)] *)
Definition startsWith (p s : string) : bool := String.prefix p s.

Definition endsWith (p s : string) : bool :=
  (Js.length p <=? Js.length s)
  && String.eqb (Js.sliceFrom (Js.length s - Js.length p) s) p.

(** [parts.join('.')] *)
Definition joinPath (parts : list string) : string := Js.join "."%char parts.

(** [array[i] = v] on an array that may be shorter: the holes read as
    [undefined]. *)
Definition arraySet {A} (i : nat) (v : option A) (a : list (option A))
  : list (option A) :=
  if i <? length a then <[i := v]> a
  else a ++ replicate (i - length a) None ++ [v].

(** The prefixes of an array, from the empty one to the array itself. *)
Fixpoint prefixes {A} (l : list A) : list (list A) :=
  [] :: match l with
        | [] => []
        | x :: rest => map (cons x) (prefixes rest)
        end.

(** *** Lookups, references, assignment and validation of the id *)

(** Modelled from the spec: [Package.fish(item, Type.Instance)], whose source
    is not part of the exporter.  The lookup matches by name or id and
    prefers the first match; it gives the position of the object found. *)
Definition packageFishInstance (item : string)
    (instances : list InstanceDefinition) : option nat :=
  Js.findIndex
    (fun d => String.eqb (metaName (instanceMeta d)) item
              || bool_decide (instanceId d = Some (VString item)))
    instances.

(** Modelled from the spec: [FSHTank.fish(item, Type.Instance)], whose source
    is not part of the exporter.  The lookup matches by name or id and
    prefers the first match; it gives the address of the entity found. *)
Definition tankFishInstance (item : string) (instances : list Instance)
  : option nat :=
  Js.findIndex
    (fun i => String.eqb (name i) item || String.eqb (id i) item) instances.

(** Modelled from the spec: the id of the [Type/id] that a reference to an
    Instance becomes, which is the id the Instance is exported with: the
    value of its rule on [id] when it has one, its own id otherwise. *)
Definition exportedId (i : Instance) : string :=
  match
    find (fun r => match r with
                   | Assign a => String.eqb (path a) "id"
                   | Insert _ _ => false
                   end) (rules i)
  with
  | Some (Assign a) =>
      match value a with
      | VString s => s
      | _ => id i
      end
  | _ => id i
  end.

Definition setValue (v : Value) (r : AssignmentRule) : AssignmentRule :=
  mkAssignmentRule (path r) v (exactly r) (isInstance r) (ruleSourceInfo r).

Definition setPath (p : string) (r : AssignmentRule) : AssignmentRule :=
  mkAssignmentRule p (value r) (exactly r) (isInstance r) (ruleSourceInfo r).

Section Collaborating.
Context `{Collaborators}.

(** Modelled from the spec: [replaceReferences(rule, tank, fisher)], whose
    source is not part of the exporter.  A [Reference(Name)] whose name
    resolves to an Instance of the Tank becomes [Type/id], the type being
    that of the definition the Instance is an instance of; any other rule is
    left as it is. *)
Definition replaceReferences (instances : list Instance) (r : AssignmentRule)
  : AssignmentRule :=
  match value r with
  | VReference target =>
      match tankFishInstance target instances with
      | Some addr =>
          match instances !! addr with
          | Some i =>
              match fisherFishForMetadata (instanceOf i)
                      [TResource; TType; TProfile; TExtension] with
              | Some md =>
                  match sdType md with
                  | Some t =>
                      setValue (VReference (t +:+ "/" +:+ exportedId i)) r
                  | None => r
                  end
              | None => r
              end
          | None => r
          end
      | None => r
      end
  | _ => r
  end.

(** Modelled from the spec: the resources that an instance already
    contains, which are the objects assigned below [contained]. *)
Definition containedResources (instances : list InstanceDefinition)
    (d : InstanceDefinition) : list InstanceDefinition :=
  omap (fun kv => match kv with
                  | ((b, _) :: _, VInstance j) =>
                      if String.eqb b "contained" then instances !! j
                      else None
                  | _ => None
                  end) (map_to_list (properties d)).

(** [Type/id] of a resource, when it has both. *)
Definition absoluteReference (d : InstanceDefinition) : option string :=
  match resourceType d, instanceId d with
  | Some (VString t), Some (VString i) => Some (t +:+ "/" +:+ i)
  | _, _ => None
  end.

(** [#id] of a resource. *)
Definition fragmentReference (d : InstanceDefinition) : string :=
  match instanceId d with
  | Some (VString i) => "#" +:+ i
  | _ => "#"
  end.

(** Modelled from the spec: the reference to write for [reference], which
    is [#id] when a resource that the instance already contains answers to
    it, and [reference] itself otherwise. *)
Definition relativeReference (instances : list InstanceDefinition)
    (d : InstanceDefinition) (reference : string) : string :=
  match
    find (fun c => bool_decide (absoluteReference c = Some reference))
      (containedResources instances d)
  with
  | Some c => fragmentReference c
  | None => reference
  end.

(** Modelled from the spec: the value that is stored for [v] in the
    instance [d]; a reference to a resource that [d] already contains is
    written as [#id].  The source passes neither the instance nor its rules
    to [replaceReferences], so the reference is made relative where the
    instance is at hand: when the value is assigned. *)
Definition storedValue (instances : list InstanceDefinition)
    (d : InstanceDefinition) (v : Value) : Value :=
  match v with
  | VReference r => VReference (relativeReference instances d r)
  | _ => v
  end.

(** Modelled from the spec: [setPropertyOnInstance(instance, pathParts,
    value)], whose source is not part of the exporter.  The value is stored
    at the concrete path, over whatever was there. *)
Definition setPropertyOnInstance (instances : list InstanceDefinition)
    (d : InstanceDefinition) (parts : list PathPart) (v : Value)
  : InstanceDefinition :=
  setProperty (pathKey parts) (storedValue instances d v) d.

(** Modelled from the spec: the paths that a rule path reaches, which are
    the path and its ancestors, the root [''] among them. *)
Definition reachedBy (p : string) : list string :=
  map joinPath (prefixes (splitOnPathPeriods p)).

(** Modelled from the spec: the implied values of [sd] along [paths]: for
    every path reached by one of [paths], the values that [sd] implies for
    the children of the element there. *)
Definition impliedAssignments (sd : SD) (paths : list string)
  : list (list PathPart * Value) :=
  flat_map (impliedProperties sd) (flat_map reachedBy paths).

(** [setPropertyOnInstance] for each of [assignments], in order. *)
Definition setProperties (instances : list InstanceDefinition)
    (assignments : list (list PathPart * Value)) (d : InstanceDefinition)
  : InstanceDefinition :=
  fold_left (fun d pv => setPropertyOnInstance instances d pv.1 pv.2)
    assignments d.

(** Modelled from the spec: [setImpliedPropertiesOnInstance(instance, sd,
    paths, fisher)], whose source is not part of the exporter.  For every
    path reached by one of [paths], the values that [sd] implies for the
    children of the element there are set on the instance. *)
Definition setImpliedPropertiesOnInstance
    (instances : list InstanceDefinition) (d : InstanceDefinition)
    (sd : SD) (paths : list string) : InstanceDefinition :=
  setProperties instances (impliedAssignments sd paths) d.

End Collaborating.

(** [A-Za-z0-9\-\.], the characters of a FHIR id, and those of a name. *)
Definition isUpper (c : ascii) : bool :=
  let n := nat_of_ascii c in (65 <=? n) && (n <=? 90).
Definition isLower (c : ascii) : bool :=
  let n := nat_of_ascii c in (97 <=? n) && (n <=? 122).
Definition isDigit (c : ascii) : bool :=
  let n := nat_of_ascii c in (48 <=? n) && (n <=? 57).
Definition isIdChar (c : ascii) : bool :=
  isUpper c || isLower c || isDigit c
  || Ascii.eqb c "-" || Ascii.eqb c ".".
Definition isNameChar (c : ascii) : bool :=
  isUpper c || isLower c || isDigit c || Ascii.eqb c "_".

Definition allChars (p : ascii -> bool) (s : string) : bool :=
  forallb p (list_ascii_of_string s).

(** [^[A-Za-z0-9\-\.]{1,64}$] *)
Definition isValidId (s : string) : bool :=
  (1 <=? Js.length s) && (Js.length s <=? 64) && allChars isIdChar s.

(** Modelled from the spec: a name that is valid, as the tests of the
    exporter have it: [^[A-Z]([A-Za-z0-9_]){0,254}$]. *)
Definition isValidName (s : string) : bool :=
  match s with
  | EmptyString => false
  | String c rest =>
      isUpper c && (Js.length rest <=? 254) && allChars isNameChar rest
  end.

(** Modelled from the spec: the id that a name is sanitized to,
    [s.replace(/_/g, '-').slice(0, 64)]. *)
Definition replaceUnderscores (s : string) : string :=
  string_of_list_ascii
    (map (fun c => if Ascii.eqb c "_" then "-"%char else c)
         (list_ascii_of_string s)).

Definition sanitizeId (s : string) : string :=
  Js.slice 0 64 (replaceUnderscores s).

(** Modelled from the spec: [InstanceDefinition.validateId(sourceInfo)],
    whose source is not part of the exporter.  An id that matches
    [[A-Za-z0-9\-\.]{1,64}] passes; one that is a valid name is sanitized,
    with a warning; any other is reported as an error and kept.  An instance
    without an id has nothing to validate. *)
Definition validateId (s : SourceInfo) (d : InstanceDefinition)
  : InstanceDefinition * list LogRecord :=
  match instanceId d with
  | Some (VString i) =>
      if isValidId i then (d, [])
      else if isValidName i then
        (setProperty idKey (VString (sanitizeId i)) d,
         [mkLogRecord LWarn (SanitizedFHIRId i (sanitizeId i)) (Some s)])
      else (d, [mkLogRecord LError (InvalidFHIRId i) (Some s)])
  | _ => (d, [])
  end.

(** *** The exporter proper *)

Definition setUsage (u : option InstanceUsage) (i : Instance) : Instance :=
  mkInstance (name i) (id i) (title i) (description i) (instanceOf i) u
    (mixins i) (rules i) (sourceInfo i).

Definition setRules (rs : list Rule) (i : Instance) : Instance :=
  mkInstance (name i) (id i) (title i) (description i) (instanceOf i)
    (usage i) (mixins i) rs (sourceInfo i).

(** A string in a condition: [undefined] and [''] are false. *)
Definition truthy (s : option string) : option string :=
  match s with
  | Some EmptyString => None
  | _ => s
  end.

(** [d._instanceMeta.usage === 'Inline'] *)
Definition isInline (d : InstanceDefinition) : bool :=
  bool_decide (metaUsage (instanceMeta d) = Some Inline).

(** An entry of [inlineResourcePaths]. *)
Record InlineResourcePath := mkInlineResourcePath
  { inlinePath : string; inlineInstanceOf : option Value }.

(** [r.value.meta?.profile[0] ?? r.value.resourceType] *)
Definition firstProfileOrType (d : InstanceDefinition) : option Value :=
  match firstProfile d with
  | Some u => Some u
  | None => resourceType d
  end.

(** A validated rule: the path of the rule, the validated path and the
    value to assign. *)
Abbreviation ValidatedRule := (string * (list PathPart * Value))%type.

Section Exporting.
Context `{Collaborators}.

(** [InstanceExporter.fishForFHIR], given [exportInstance]. *)
Definition fishForFHIRWith (exportInstance : nat -> M (option nat))
    (item : string) : M (option nat) :=
  do st <- getState;
  match packageFishInstance item (pkgInstances st) with
  | Some i => ret (Some i)
  | None =>
      (* If we find a FSH definition, then we can export and fish for it
         again *)
      match tankFishInstance item (tank st) with
      | Some addr =>
          run exportInstance addr;
          do st' <- getState;
          ret (packageFishInstance item (pkgInstances st'))
      | None => ret None
      end
  end.

(** The [filter] of [setAssignedValues] that converts the names in
    assignment rules to instances. *)
Fixpoint convertInstanceRules (fish : string -> M (option nat))
    (rs : list AssignmentRule) : M (list AssignmentRule) :=
  match rs with
  | [] => ret []
  | r :: rest =>
      if isInstance r then
        do found <- match value r with
                    | VString item => fish item
                    | _ => ret None
                    end;
        match found with
        | Some i =>
            do rest' <- convertInstanceRules fish rest;
            ret (setValue (VInstance i) r :: rest')
        | None =>
            run loggerError (CannotFindInstance (value r))
                  (Some (ruleSourceInfo r));
            convertInstanceRules fish rest
        end
      else
        do rest' <- convertInstanceRules fish rest;
        ret (r :: rest')
  end.

(** Lines 31 to 55 of [setAssignedValues]: the rules of the Instance at
    [addr], with insert rules expanded, paths normalized, references
    replaced and the names of instances converted. *)
Definition prepareRules (fish : string -> M (option nat)) (addr : nat)
  : M (list AssignmentRule) :=
  do fshInstanceDef <- readInstance addr;
  do st <- getState;
  let expanded := applyInsertRules (tank st) fshInstanceDef in
  run modifyInstance addr (setRules (map Assign expanded.1));
  run logRecords expanded.2;
  (* Normalize all rules to not use the optional [0] index *)
  let rules :=
    map (fun r => setPath (removeZeroIndices (path r)) r) expanded.1 in
  do st <- getState;
  let rules := map (replaceReferences (tank st)) rules in
  (* Convert strings in AssignmentRules to instances *)
  convertInstanceRules fish rules.

(** The entries that one rule adds to [inlineResourcePaths]. *)
Definition inlineResourcePathsOf (instances : list InstanceDefinition)
    (r : AssignmentRule) : list InlineResourcePath :=
  (match value r with
   | VInstance j =>
       if isInstance r then
         [mkInlineResourcePath (path r)
            (instances !! j ≫= firstProfileOrType)]
       else []
   | _ => []
   end)
  ++
  (match value r with
   | VString s =>
       if endsWith ".resourceType" (path r) then
         [mkInlineResourcePath
            (joinPath (Js.pop (splitOnPathPeriods (path r))))
            (Some (VString s))]
       else []
   | _ => []
   end).

(** [inlineResourceTypes] for a rule path. *)
Definition inlineResourceTypesFor
    (inlineResourcePaths : list InlineResourcePath) (rulePath : string)
  : list (option Value) :=
  let matching :=
    List.filter
      (fun i => startsWith (inlinePath i +:+ ".") rulePath
                && negb (String.eqb rulePath
                           (inlinePath i +:+ ".resourceType")))
      inlineResourcePaths in
  fold_left
    (fun types m =>
       match length (splitOnPathPeriods (inlinePath m)) with
       | S k => arraySet k (inlineInstanceOf m) types
       | 0 => types
       end)
    matching [].

(** The loop of [setAssignedValues] that validates the rules and records
    each valid one in [ruleMap]. *)
Fixpoint validateRules (inlineResourcePaths : list InlineResourcePath)
    (rs : list AssignmentRule) (sd : SD) (ruleMap : list ValidatedRule)
  : M (SD * list ValidatedRule) :=
  match rs with
  | [] => ret (sd, ruleMap)
  | rule :: rest =>
      do st <- getState;
      match
        validateValueAtPath (pkgInstances st) sd (path rule) (value rule)
          (inlineResourceTypesFor inlineResourcePaths (path rule))
      with
      | (sd', inr validatedRule) =>
          validateRules inlineResourcePaths rest sd'
            (Js.mapSet (path rule) validatedRule ruleMap)
      | (sd', inl message) =>
          run loggerError message (Some (ruleSourceInfo rule));
          validateRules inlineResourcePaths rest sd' ruleMap
      end
  end.

(** A mutation of the object at [idx] that looks at the Package. *)
Definition updateDefinition (idx : nat)
    (f : list InstanceDefinition -> InstanceDefinition -> InstanceDefinition)
  : M unit :=
  do st <- getState;
  modifyDefinition idx (f (pkgInstances st)).

(** Lines 56 to 119 of [setAssignedValues]: the prepared rules are
    validated, the values implied by the definition are set, and then the
    values of the rules, in the order of [ruleMap]. *)
Definition assignValidated (idx : nat) (rules : list AssignmentRule)
    (sd : SD) : M SD :=
  do st <- getState;
  let inlineResourcePaths :=
    flat_map (inlineResourcePathsOf (pkgInstances st)) rules in
  do validated <- validateRules inlineResourcePaths rules sd [];
  let paths := "" :: map path rules in
  run updateDefinition idx (fun instances d =>
        setImpliedPropertiesOnInstance instances d validated.1 paths);
  run updateDefinition idx (fun instances d =>
        setProperties instances (map snd validated.2) d);
  ret validated.1.

(** [InstanceExporter.setAssignedValues], for the Instance at [addr] and the
    instance under construction at [idx]; gives back the definition, which
    validation may have changed. *)
Definition setAssignedValues (fish : string -> M (option nat))
    (addr idx : nat) (sd : SD) : M SD :=
  do rules <- prepareRules fish addr;
  assignValidated idx rules sd.

(** Lines 220 to 247 of [exportInstance]: the definition that the Instance
    is an instance of, and whether it is a resource. *)
Definition resolveInstanceOf (addr : nat) : M (SD * bool) :=
  do fshDefinition <- readInstance addr;
  match
    fisherFishForFHIR (instanceOf fshDefinition)
      [TResource; TProfile; TExtension; TType]
  with
  | None =>
      throw (InstanceOfNotDefinedError (name fshDefinition)
               (instanceOf fshDefinition) (sourceInfo fshDefinition))
  | Some json =>
      if negb (String.eqb (kind json) "resource") then
        (* not a resource: it should be inline *)
        if negb (bool_decide (usage fshDefinition = Some Inline)) then
          run loggerWarn (NotAnInstanceOfAResource (name fshDefinition))
                (Some (sourceInfo fshDefinition));
          run modifyInstance addr (setUsage (Some Inline));
          ret (json, false)
        else ret (json, false)
      else ret (json, true)
  end.

(** Lines 251 to 273 of [exportInstance]: the new [InstanceDefinition]. *)
Definition newInstanceDefinition (fshDefinition : Instance) (sd : SD)
    (isResource : bool) : InstanceDefinition :=
  let meta :=
    mkInstanceMeta (id fshDefinition)
      (truthy (title fshDefinition))
      (truthy (description fshDefinition))
      (usage fshDefinition)
      (if isResource then None else Some (type sd)) in
  let instanceDef := mkInstanceDefinition meta ∅ in
  let instanceDef :=
    if isResource then
      setProperty idKey (VString (id fshDefinition))
        (setProperty resourceTypeKey (VString (type sd)) instanceDef)
    else instanceDef in
  if isResource && bool_decide (derivation sd = Some "constraint")
  then setProperty metaProfileKey (VString (url sd)) instanceDef
  else instanceDef.

(** Lines 288 to 306 of [exportInstance]: the check for another instance
    of the same type with the same id. *)
Definition hasDuplicate (instances : list InstanceDefinition) (idx : nat)
    (instanceDef : InstanceDefinition) : bool :=
  negb (isInline instanceDef)
  && Js.someWithIndex
       (fun j instance =>
          negb (isInline instance)
          && bool_decide (resourceType instanceDef = resourceType instance)
          && bool_decide (instanceId instanceDef = instanceId instance)
          && negb (j =? idx))
       instances.

Definition checkDuplicateId (fshDefinition : Instance) (idx : nat) : M unit :=
  do instanceDef <- readDefinition idx;
  do st <- getState;
  if hasDuplicate (pkgInstances st) idx instanceDef then
    loggerError
      (DuplicateInstanceId (resourceType instanceDef) (instanceId instanceDef))
      (Some (sourceInfo fshDefinition))
  else ret tt.

(** The records that the check adds to the log. *)
Definition duplicateRecords (instances : list InstanceDefinition) (idx : nat)
    (d : InstanceDefinition) (fshDefinition : Instance) : list LogRecord :=
  if hasDuplicate instances idx d then
    [mkLogRecord LError (DuplicateInstanceId (resourceType d) (instanceId d))
       (Some (sourceInfo fshDefinition))]
  else [].

(** [validateRequiredElements], as far as the log goes. *)
Definition validateRequiredElements (idx : nat) (sd : SD)
    (fshDefinition : Instance) : M unit :=
  do instanceDef <- readDefinition idx;
  do st <- getState;
  logRecords
    (map (fun e => mkLogRecord LError
                     (RequiredElementMissing e.1.1 e.1.2 e.2)
                     (Some (sourceInfo fshDefinition)))
       (requiredElementErrors (pkgInstances st) instanceDef sd)).

(** Lines 280 to 308 of [exportInstance]: the id is validated, the required
    elements are checked, the resource is cleaned and the id is checked for
    duplicates. *)
Definition validateAndCheck (fshDefinition : Instance) (idx : nat) (sd : SD)
  : M (option nat) :=
  do instanceDef <- readDefinition idx;
  run modifyDefinition idx (fun d =>
        (validateId (sourceInfo fshDefinition) d).1);
  run logRecords (validateId (sourceInfo fshDefinition) instanceDef).2;
  run validateRequiredElements idx sd fshDefinition;
  run modifyDefinition idx (fun d =>
        mkInstanceDefinition (instanceMeta d) (cleanResource (properties d)));
  run checkDuplicateId fshDefinition idx;
  ret (Some idx).

(** Lines 277 to 308 of [exportInstance], given [exportInstance] for the
    nested exports: what follows the push of the new definition, which
    stands at [idx]. *)
Definition exportPushed (exportInstance : nat -> M (option nat))
    (addr : nat) (fshDefinition : Instance) (idx : nat) (sd : SD)
  : M (option nat) :=
  do st <- getState;
  let mixed := applyMixinRules (tank st) fshDefinition in
  run modifyInstance addr (setRules mixed.1);
  run logRecords mixed.2;
  (* Set Assigned values based on the FSH rules and the Structure
     Definition *)
  do sd' <- setAssignedValues (fishForFHIRWith exportInstance) addr idx sd;
  validateAndCheck fshDefinition idx sd'.

(** Lines 249 to 308 of [exportInstance], given [exportInstance] for the
    nested exports. *)
Definition exportResolved (exportInstance : nat -> M (option nat))
    (addr : nat) (sd : SD) (isResource : bool) : M (option nat) :=
  do fshDefinition <- readInstance addr;
  do idx <- pushDefinition (newInstanceDefinition fshDefinition sd isResource);
  exportPushed exportInstance addr fshDefinition idx sd.

(** [this.pkg.instances.some(i => i._instanceMeta.name === id)] *)
Definition alreadyExported (ident : string)
    (instances : list InstanceDefinition) : bool :=
  existsb (fun i => String.eqb (metaName (instanceMeta i)) ident) instances.

(** [InstanceExporter.exportInstance], given itself for the nested exports:
    the Instance at [addr] is exported and its position in the Package
    returned; [None] is the [undefined] of the early return. *)
Definition exportInstanceBody (exportInstance : nat -> M (option nat))
    (addr : nat) : M (option nat) :=
  do fshDefinition <- readInstance addr;
  do st <- getState;
  if alreadyExported (id fshDefinition) (pkgInstances st) then ret None
  else
    do resolved <- resolveInstanceOf addr;
    exportResolved exportInstance addr resolved.1 resolved.2.

(** [exportInstance] with the depth of nested exports bounded by [fuel]. *)
Fixpoint exportInstance (fuel : nat) (addr : nat) : M (option nat) :=
  match fuel with
  | 0 => outOfFuel
  | S fuel' => exportInstanceBody (exportInstance fuel') addr
  end.

Definition fishForFHIR (fuel : nat) (item : string) : M (option nat) :=
  fishForFHIRWith (exportInstance fuel) item.

(** The loop of [InstanceExporter.export] over the addresses of the
    Instances. *)
Fixpoint exportEach (fuel : nat) (addrs : list nat) : M unit :=
  match addrs with
  | [] => ret tt
  | addr :: rest =>
      run tryCatch
            (run exportInstance fuel addr; ret tt)
            (fun e => loggerError (exceptionMessage e) (exceptionSourceInfo e));
      exportEach fuel rest
  end.

(** [InstanceExporter.export]: every Instance of the Tank is exported; the
    Package is the [pkgInstances] of the state that results. *)
Definition export (fuel : nat) : M unit :=
  do st <- getState;
  let instances := seq 0 (length (tank st)) in
  run exportEach fuel instances;
  if 0 <? length instances then
    loggerInfo (ConvertedInstances (length instances)) None
  else ret tt.

End Exporting.

End InstanceExporter.

(** ** What the exporter preserves *)

Module InstanceExporterInvariants.
Import Model InstanceExporter.

(** What no step of the exporter changes in an Instance. *)
Definition frozen (i : Instance) : string * string * string * SourceInfo :=
  (name i, id i, instanceOf i, sourceInfo i).

(** The names under which the instances of a Package are known. *)
Definition names (instances : list InstanceDefinition) : list string :=
  map metaName (map instanceMeta instances).

(** [st'] comes after [st] in a run of the exporter: the Instances keep
    their identity, an Instance that is inline stays inline, the Package
    keeps its instances, with their [_instanceMeta], and may have more, the
    log may have more records, and names that were distinct still are. *)
Record Extends (st st' : State) : Prop := mkExtends
  { extendsTank : map frozen (tank st') = map frozen (tank st);
    extendsInline :
      forall addr i, tank st !! addr = Some i -> usage i = Some Inline ->
        exists i', tank st' !! addr = Some i' /\ usage i' = Some Inline;
    extendsMetas :
      exists more,
        map instanceMeta (pkgInstances st')
        = map instanceMeta (pkgInstances st) ++ more;
    extendsLog : exists more, log st' = log st ++ more;
    extendsNoDup :
      NoDup (names (pkgInstances st)) -> NoDup (names (pkgInstances st')) }.

(** An action whose every run leads to a state that comes after. *)
Definition Framed {A} (m : M A) : Prop := forall st, Extends st (m st).2.

(** The Instances of the Tank that are still to be exported: those whose id
    names no instance of the Package. *)
Definition remaining (st : State) : nat :=
  length (List.filter
            (fun i => negb (alreadyExported i (pkgInstances st)))
            (map id (tank st))).

(** An action that does not run out of fuel from a state with at most [n]
    Instances still to be exported. *)
Definition Fueled (n : nat) {A} (m : M A) : Prop :=
  forall st, remaining st <= n -> (m st).1 <> OutOfFuel.

(** The rules that [validateValueAtPath] accepts, in source order, each
    with its validated path and value, and the definition as validation
    leaves it. *)
Fixpoint validRules `{Collaborators} (instances : list InstanceDefinition)
    (inlineResourcePaths : list InlineResourcePath)
    (rs : list AssignmentRule) (sd : SD) : SD * list ValidatedRule :=
  match rs with
  | [] => (sd, [])
  | rule :: rest =>
      match
        validateValueAtPath instances sd (path rule) (value rule)
          (inlineResourceTypesFor inlineResourcePaths (path rule))
      with
      | (sd', inr validatedRule) =>
          let validated := validRules instances inlineResourcePaths rest sd' in
          (validated.1, (path rule, validatedRule) :: validated.2)
      | (sd', inl _) => validRules instances inlineResourcePaths rest sd'
      end
  end.

(** The errors that the validation of the rules logs. *)
Fixpoint validationErrors `{Collaborators}
    (instances : list InstanceDefinition)
    (inlineResourcePaths : list InlineResourcePath)
    (rs : list AssignmentRule) (sd : SD) : list LogRecord :=
  match rs with
  | [] => []
  | rule :: rest =>
      match
        validateValueAtPath instances sd (path rule) (value rule)
          (inlineResourceTypesFor inlineResourcePaths (path rule))
      with
      | (sd', inr _) => validationErrors instances inlineResourcePaths rest sd'
      | (sd', inl message) =>
          mkLogRecord LError message (Some (ruleSourceInfo rule))
          :: validationErrors instances inlineResourcePaths rest sd'
      end
  end.

(** [ruleMap] after the rules [vs] have been recorded in it. *)
Definition recordRules (vs : list ValidatedRule) (ruleMap : list ValidatedRule)
  : list ValidatedRule :=
  fold_left (fun m e => Js.mapSet e.1 e.2 m) vs ruleMap.

End InstanceExporterInvariants.

(** ** The exporter of extensions *)

Module ExtensionExporter.
Import Model.

(** An Extension of the Tank, as far as the loop of the exporter reads
    it. *)
Record Extension := mkExtension
  { extName : string;
    extParent : string;
    extSourceInfo : SourceInfo }.

(** The fatal error of an export: its message and the source span that it
    carries. *)
Record ExportError := mkExportError
  { errorMessage : Message; errorSourceInfo : option SourceInfo }.

Section Exporting.

(** The artifacts [S], and the export of one entity (resolution of the
    parent, against the Tank and then the Definitions Cache, and application
    of the rules), which the specification describes and whose source is not
    at hand: from the artifacts exported so far it gives those exported
    after it, or fails. *)
Context {S : Type}.
Variable exportStructDef : Extension -> list S -> ExportError + list S.

(** Modelled from the spec: [ExtensionExporter.export], whose source is not
    at hand.  A fatal error within one entity does not abort the
    compilation: it is logged, that entity is skipped, and the subsequent
    entities are still attempted. *)
Fixpoint exportAll (entities : list Extension) (exported : list S)
    (log : list LogRecord) : list S * list LogRecord :=
  match entities with
  | [] => (exported, log)
  | e :: rest =>
      match exportStructDef e exported with
      | inl err =>
          exportAll rest exported
            (log ++ [mkLogRecord LError (errorMessage err)
                       (errorSourceInfo err)])
      | inr exported' => exportAll rest exported' log
      end
  end.

End Exporting.

End ExtensionExporter.

(** ** The emitter of ig.ini *)

Module IGExporter.
Import Model.

(** What the emitter reads of the configuration. *)
Record Configuration := mkConfiguration
  { canonicalId : string; template : option string }.

(** The banner of an ig.ini that is written: generated from the
    configuration, copied from the file at a path, or merged from it. *)
Inductive Banner :=
  | GeneratedBanner
  | CopiedBanner (source : string)
  | MergedBanner (source : string).

(** An ig.ini: the banner and the properties of its [IG] section, in
    order. *)
Record IniFile := mkIniFile
  { banner : Banner; entries : list (string * string) }.

(** The keys that are deprecated. *)
Definition deprecatedKeys : list string :=
  ["copyrightyear"; "license"; "version"; "ballotstatus"; "fhirspec";
   "excludexml"; "excludejson"; "excludettl"; "excludeMaps"].

Definition hasKey (k : string) (es : list (string * string)) : bool :=
  existsb (fun e => String.eqb e.1 k) es.

Definition defaultIg (config : Configuration) : string :=
  "input/ImplementationGuide-" +:+ canonicalId config +:+ ".json".

Definition defaultTemplate : string := "fhir.base.template".

(** Modelled from the spec: [IGExporter.addIgIni], whose source is not at
    hand.  [input] is the ig.ini of the ig-data folder, when there is one,
    with its path; [output] is the ig.ini of the output folder.
    - With a template in the configuration, the file is generated, and a
      file on disk is overridden with a warning.
    - Without a template, a file on disk is copied with its deprecated keys,
      which are warned about, and the defaults of the missing [ig] and
      [template] are merged in, with a warning for each.
    - None of the cases of the specification writes or logs anything when
      there is neither a template nor a file. *)
Definition addIgIni (config : Configuration)
    (input : option (string * list (string * string)))
    (output : option IniFile) (log : list LogRecord)
  : option IniFile * list LogRecord :=
  match template config, input with
  | Some t, _ =>
      (Some (mkIniFile GeneratedBanner
               [("ig", defaultIg config); ("template", t)]),
       log
       ++ (match input with
           | Some _ => [mkLogRecord LWarn IgIniOverridden None]
           | None => []
           end)
       ++ [mkLogRecord LInfo IgIniGenerated None])
  | None, Some (source, es) =>
      let deprecated :=
        List.filter (fun k => hasKey k es) deprecatedKeys in
      let missingIg := negb (hasKey "ig" es) in
      let missingTemplate := negb (hasKey "template" es) in
      let merged :=
        es
        ++ (if missingIg then [("ig", defaultIg config)] else [])
        ++ (if missingTemplate then [("template", defaultTemplate)] else [])
      in
      (Some (mkIniFile
               (if missingIg || missingTemplate then MergedBanner source
                else CopiedBanner source)
               merged),
       log
       ++ (match deprecated with
           | [] => []
           | _ => [mkLogRecord LWarn (IgIniDeprecatedProperties deprecated)
                     None]
           end)
       ++ (if missingIg
           then [mkLogRecord LWarn (IgIniMissingProperty "ig") None]
           else [])
       ++ (if missingTemplate
           then [mkLogRecord LWarn (IgIniMissingProperty "template") None]
           else [])
       ++ [mkLogRecord LInfo
             (if missingIg || missingTemplate then IgIniMerged
              else IgIniCopied) None])
  | None, None => (output, log)
  end.

End IGExporter.

(** ** Inputs of the examples *)

Module Examples.
Import Model.

Definition newline : string := String Js.LF EmptyString.

(** Three double quotes. *)
Definition tripleQuote : string :=
  let q := "034"%char in String q (String q (String q EmptyString)).

(** The text of a MULTILINE_STRING token whose body starts on the line
    after the quotes. *)
Definition multilineToken (body : string) : string :=
  tripleQuote +:+ newline +:+ body +:+ tripleQuote.

(** A block whose first line is not indented and whose second line is
    indented by two spaces. *)
Definition unindentedThenIndented : string :=
  multilineToken ("abc" +:+ newline +:+ "  def" +:+ newline).

(** A document with one alias, and another with none. *)
Definition aliasDocument : list (Importer.EntityContext unit) :=
  [ Importer.mkEntityContext
      (Some (Importer.mkAliasContext "LOINC" "http://loinc.org")) None None ].

Definition emptySd (n : string) : Importer.FshStructure unit :=
  Importer.mkFshStructure n None None None None [] (mkSourceInfo None None).

Definition noRules (_ : list (string * string)) (_ : string) (_ : unit)
  : list unit * list LogRecord := ([], []).

(** A configuration without a template. *)
Definition templatelessConfig : IGExporter.Configuration :=
  IGExporter.mkConfiguration "fhir.us.minimal" None.

(** Collaborators for the examples: definitions for Patient, Organization
    and Quantity only, no rule sets, no implied values and no required
    elements; every path is valid and is split on its periods. *)
Import InstanceExporter.

Definition baseDefinition (t k : string) : StructureDefinition unit :=
  mkStructureDefinition k t (Some "specialization")
    ("http://hl7.org/fhir/StructureDefinition/" +:+ t) tt.

Definition exampleFish (n : string) (_ : list FishType)
  : option (StructureDefinition unit) :=
  if String.eqb n "Patient" then Some (baseDefinition "Patient" "resource")
  else if String.eqb n "Organization"
  then Some (baseDefinition "Organization" "resource")
  else if String.eqb n "Quantity"
  then Some (baseDefinition "Quantity" "complex-type")
  else None.

Definition assignmentsOf (i : Instance) : list AssignmentRule :=
  omap (fun r => match r with
                 | Assign a => Some a
                 | Insert _ _ => None
                 end) (rules i).

Definition examplePath (p : string) : list PathPart :=
  map (fun s => mkPathPart s []) (Js.splitOn "." p).

Definition exampleCollaborators : Collaborators :=
  {| Elements := unit;
     fisherFishForFHIR := exampleFish;
     fisherFishForMetadata := fun n k =>
       (fun sd => mkMetadata None None None (Some (type sd)) None)
         <$> exampleFish n k;
     applyMixinRules := fun _ i => (rules i, []);
     applyInsertRules := fun _ i => (assignmentsOf i, []);
     splitOnPathPeriods := Js.splitOn ".";
     validateValueAtPath := fun _ sd p v _ => (sd, inr (examplePath p, v));
     impliedProperties := fun _ _ => [];
     requiredElementErrors := fun _ _ _ => [];
     cleanResource := fun f => f |}.

Definition noSource : SourceInfo := mkSourceInfo None None.

Definition sourceAt (f : string) (from to : nat) : SourceInfo :=
  mkSourceInfo (Some f) (Some (mkTextLocation from 1 to 1)).

Definition assign (p : string) (v : Value) : Rule :=
  Assign (mkAssignmentRule p v false false noSource).

Definition assignInstance (p : string) (n : string) : Rule :=
  Assign (mkAssignmentRule p (VString n) false true noSource).

Definition exampleInstance (n instanceOfName : string) (rs : list Rule)
    (s : SourceInfo) : Instance :=
  mkInstance n n None None instanceOfName (Some Example) [] rs s.

(** Two Patient instances with the id [repeated-id]. *)
Definition repeatedIdTank : list Instance :=
  [ exampleInstance "FirstExample" "Patient"
      [assign "id" (VString "repeated-id")] (sourceAt "Repeat.fsh" 3 11);
    exampleInstance "SecondExample" "Patient"
      [assign "id" (VString "repeated-id")] (sourceAt "Repeat.fsh" 13 20) ].

(** The definitions that the two are exported to. *)
Definition patientDefinition (n ident : string) : InstanceDefinition :=
  setProperty idKey (VString ident)
    (setProperty resourceTypeKey (VString "Patient")
       (mkInstanceDefinition
          (mkInstanceMeta n None None (Some Example) None) ∅)).

(** A Patient whose id is a valid name with an underscore. *)
Definition underscorePackage : list InstanceDefinition :=
  [ patientDefinition "Foo" "Some_Patient" ].

(** A Patient that refers to its managing organization, and the
    Organization. *)
Definition organizationTank : list Instance :=
  [ exampleInstance "Pat" "Patient"
      [assignInstance "contained[0]" "TestOrganization";
       assign "managingOrganization" (VReference "TestOrganization")]
      noSource;
    exampleInstance "TestOrganization" "Organization"
      [assign "id" (VString "org-id")] noSource ].

Definition organizationDefinition : InstanceDefinition :=
  setProperty idKey (VString "org-id")
    (setProperty resourceTypeKey (VString "Organization")
       (mkInstanceDefinition
          (mkInstanceMeta "TestOrganization" None None (Some Example) None)
          ∅)).

(** The Patient once the Organization has been assigned to [contained],
    and the Package with the two. *)
Definition containingPatient : InstanceDefinition :=
  setProperty [("contained", [])] (VInstance 1)
    (patientDefinition "Pat" "Pat").

Definition organizationPackage : list InstanceDefinition :=
  [ containingPatient; organizationDefinition ].

Definition managingOrganizationRule : AssignmentRule :=
  mkAssignmentRule "managingOrganization" (VReference "TestOrganization")
    false false noSource.

(** An instance of Quantity, which is not a resource, and an instance of a
    definition that does not exist. *)
Definition quantityInstance : Instance :=
  exampleInstance "SomeQuantity" "Quantity" [] (sourceAt "Quantity.fsh" 1 3).

Definition bogusInstance : Instance :=
  exampleInstance "Bogus" "BogusParent" [] (sourceAt "Bogus.fsh" 2 4).

(** An instance whose [contained] is an instance of a definition that does
    not exist. *)
Definition outerSource : SourceInfo := sourceAt "Outer.fsh" 1 5.
Definition missingSource : SourceInfo := sourceAt "Missing.fsh" 7 9.

Definition failingContainedTank : list Instance :=
  [ exampleInstance "Outer" "Patient" [assignInstance "contained" "Missing"]
      outerSource;
    exampleInstance "Missing" "Bogus" [] missingSource ].

Definition failingContainedState : State :=
  mkState failingContainedTank [] [].

(** Collaborators whose Patient implies [communication.preferred = true]
    for the children of [communication]. *)
Definition impliedCollaborators : Collaborators :=
  {| Elements := unit;
     fisherFishForFHIR := exampleFish;
     fisherFishForMetadata := fun _ _ => None;
     applyMixinRules := fun _ i => (rules i, []);
     applyInsertRules := fun _ i => (assignmentsOf i, []);
     splitOnPathPeriods := Js.splitOn ".";
     validateValueAtPath := fun _ sd p v _ => (sd, inr (examplePath p, v));
     impliedProperties := fun _ p =>
       if String.eqb p "communication"
       then [(examplePath "communication.preferred", VBoolean true)]
       else [];
     requiredElementErrors := fun _ _ _ => [];
     cleanResource := fun f => f |}.

(** Prepared rules that assign [gender] twice, and a child of
    [communication] in between. *)
Definition genderTwiceRules : list AssignmentRule :=
  [ mkAssignmentRule "gender" (VCode None "male") false false noSource;
    mkAssignmentRule "communication.language" (VCode None "en") false false
      noSource;
    mkAssignmentRule "gender" (VCode None "female") false false noSource ].

Definition genderTwiceState : State :=
  mkState [] [patientDefinition "Bar" "Bar"] [].

(** The Patient and the Organization, without the assignment to
    [contained]. *)
Definition referringTank : list Instance :=
  [ exampleInstance "Pat" "Patient"
      [assign "managingOrganization" (VReference "TestOrganization")]
      noSource;
    exampleInstance "TestOrganization" "Organization"
      [assign "id" (VString "org-id")] noSource ].

(** A block whose lines are all indented, by two and by four spaces. *)
Definition indentedBlock : string :=
  multilineToken ("  abc" +:+ newline +:+ "    def" +:+ newline +:+ "  ").

Definition repeatedIdPackage : list InstanceDefinition :=
  [ patientDefinition "FirstExample" "repeated-id";
    patientDefinition "SecondExample" "repeated-id" ].

End Examples.

(** ** The rules of the importer *)

Module ImporterRules.
Import Model Importer.

(** *** Text *)

(** [s.split(sep)] for a separator that is a string with at least one
    code unit: the pieces between the occurrences of [sep], found from the
    left.  [skip] code units of a separator that matched are still to be
    passed over. *)
Fixpoint splitOnStringFrom (sep : string) (skip : nat) (s : string)
  : list string :=
  match s with
  | EmptyString => [EmptyString]
  | String c rest =>
      match skip with
      | S k => splitOnStringFrom sep k rest
      | 0 =>
          if String.prefix sep s
          then EmptyString :: splitOnStringFrom sep (Js.length sep - 1) rest
          else match splitOnStringFrom sep 0 rest with
               | [] => [String c EmptyString]
               | l :: ls => String c l :: ls
               end
      end
  end.

(** [s.split(sep, limit)] *)
Definition splitLimit (sep : string) (limit : nat) (s : string)
  : list string :=
  take limit (splitOnStringFrom sep 0 s).

(** Whether [s] starts with a code unit of [\s]. *)
Definition startsWithWhitespace (s : string) : bool :=
  match s with
  | String c _ => Js.isWhitespace c
  | EmptyString => false
  end.

(** [s.split(/,\s+/)]: a separator is a comma with all the whitespace that
    follows it, of which there is some.  [inSeparator] tells that the
    whitespace of a separator is being passed over. *)
Fixpoint splitOnCommaSpace (inSeparator : bool) (s : string) : list string :=
  match s with
  | EmptyString => [EmptyString]
  | String c rest =>
      if inSeparator && Js.isWhitespace c then splitOnCommaSpace true rest
      else if Ascii.eqb c "," && startsWithWhitespace rest
      then EmptyString :: splitOnCommaSpace true rest
      else match splitOnCommaSpace false rest with
           | [] => [String c EmptyString]
           | l :: ls => String c l :: ls
           end
  end.

(** Whether [\s*\|] matches at the start of [s]. *)
Fixpoint startsWithBar (s : string) : bool :=
  match s with
  | String c rest =>
      Ascii.eqb c "|" || (Js.isWhitespace c && startsWithBar rest)
  | EmptyString => false
  end.

(** Where the scan of [s.split(/\s*\|\s*/)] stands: outside a separator,
    in the whitespace before its bar, or in the whitespace after it. *)
Inductive BarScan := Outside | BeforeBar | AfterBar.

(** [s.split(/\s*\|\s*/)]: a separator is a bar with all the whitespace
    around it. *)
Fixpoint splitOnBar (scan : BarScan) (s : string) : list string :=
  match s with
  | EmptyString => [EmptyString]
  | String c rest =>
      match scan with
      | BeforeBar =>
          if Ascii.eqb c "|" then splitOnBar AfterBar rest
          else splitOnBar BeforeBar rest
      | _ =>
          if match scan with AfterBar => Js.isWhitespace c | _ => false end
          then splitOnBar AfterBar rest
          else if Ascii.eqb c "|" then EmptyString :: splitOnBar AfterBar rest
          else if startsWithBar s then EmptyString :: splitOnBar BeforeBar rest
          else match splitOnBar Outside rest with
               | [] => [String c EmptyString]
               | l :: ls => String c l :: ls
               end
      end
  end.

(** [s.indexOf(c)]: [None] is JavaScript's [-1]. *)
Fixpoint indexOf (c : ascii) (s : string) : option nat :=
  match s with
  | EmptyString => None
  | String c' rest =>
      if Ascii.eqb c' c then Some 0 else S <$> indexOf c rest
  end.

(** The whitespace that [parseInt] passes over at the start. *)
Fixpoint trimStart (s : string) : string :=
  match s with
  | String c rest => if Js.isWhitespace c then trimStart rest else s
  | EmptyString => s
  end.

(** The value of a digit in a radix, if it is one. *)
Definition digitValue (radix : nat) (c : ascii) : option nat :=
  let n := nat_of_ascii c in
  let v :=
    if InstanceExporter.isDigit c then Some (n - 48)
    else if (97 <=? n) && (n <=? 122) then Some (n - 87)
    else if (65 <=? n) && (n <=? 90) then Some (n - 55)
    else None in
  v ≫= fun d => if d <? radix then Some d else None.

(** The number that the longest run of digits at the start of [s] writes,
    after the digits that gave [acc]; [None] when there is no digit. *)
Fixpoint readDigits (radix : nat) (acc : option Z) (s : string) : option Z :=
  match s with
  | String c rest =>
      match digitValue radix c with
      | Some d =>
          readDigits radix
            (Some (Z.of_nat radix * default 0%Z acc + Z.of_nat d)%Z) rest
      | None => acc
      end
  | EmptyString => acc
  end.

(** The sign that [parseInt] reads, and what follows it. *)
Definition stripSign (s : string) : Z * string :=
  match s with
  | String c rest =>
      if Ascii.eqb c "-" then ((-1)%Z, rest)
      else if Ascii.eqb c "+" then (1%Z, rest)
      else (1%Z, s)
  | EmptyString => (1%Z, s)
  end.

(** The radix that [parseInt] reads when it is given none, and what follows
    the prefix of radix 16. *)
Definition stripRadix (s : string) : nat * string :=
  match s with
  | String c (String x rest) =>
      if Ascii.eqb c "0" && (Ascii.eqb x "x" || Ascii.eqb x "X")
      then (16, rest)
      else (10, s)
  | _ => (10, s)
  end.

(** [parseInt(s)]: whitespace, a sign, [0x] for radix 16, and the longest
    run of digits; [None] is [NaN].  Numbers are integers here, which is
    what a JavaScript number holds of them up to 2^53. *)
Definition parseInt (s : string) : option Z :=
  let signed := stripSign (trimStart s) in
  let based := stripRadix signed.2 in
  Z.mul signed.1 <$> readDigits based.1 None based.2.

(** The decimal numeral of a number. *)
Definition decimal (n : nat) : string :=
  DecimalString.NilEmpty.string_of_uint (Nat.to_uint n).

(** *** The rules and the values they fix *)

(** [FshCode], [FshQuantity] and [FshRatio].  A number is kept as the text
    that [parseFloat] reads. *)
Record FshCode := mkFshCode
  { code : option string;
    system : option string;
    display : option string;
    codeSourceInfo : SourceInfo }.

Record FshQuantity := mkFshQuantity
  { quantityValue : string;
    quantityUnit : option FshCode;
    quantitySourceInfo : SourceInfo }.

Record FshRatio := mkFshRatio
  { numerator : FshQuantity;
    denominator : FshQuantity;
    ratioSourceInfo : SourceInfo }.

(** [FixedValueType] *)
Inductive FixedValue :=
  | FixedString (s : string)
  | FixedNumber (text : string)
  | FixedCode (c : FshCode)
  | FixedQuantity (q : FshQuantity)
  | FixedRatio (r : FshRatio)
  | FixedBoolean (b : bool).

(** An entry of [OnlyRule.types]; [isReference] is set or absent. *)
Record OnlyRuleType := mkOnlyRuleType
  { typeName : string; isReference : bool }.

(** The rules of a Profile or an Extension.  The flags of a [FlagRule] are
    set or absent. *)
Inductive SdRule :=
  | CardRule (path : string) (min : option Z) (max : option string)
      (s : SourceInfo)
  | FlagRule (path : string) (mustSupport summary modifier : bool)
      (s : SourceInfo)
  | ValueSetRule (path : string) (valueSet : string) (strength : string)
      (s : SourceInfo)
  | FixedValueRule (path : string) (fixedValue : option FixedValue)
      (s : SourceInfo)
  | OnlyRule (path : string) (types : list OnlyRuleType) (s : SourceInfo)
  | ContainsRule (path : string) (items : list string) (s : SourceInfo).

Definition rulePath (r : SdRule) : string :=
  match r with
  | CardRule p _ _ _ | FlagRule p _ _ _ _ | ValueSetRule p _ _ _
  | FixedValueRule p _ _ | OnlyRule p _ _ | ContainsRule p _ _ => p
  end.

Definition ruleSource (r : SdRule) : SourceInfo :=
  match r with
  | CardRule _ _ _ s | FlagRule _ _ _ _ s | ValueSetRule _ _ _ s
  | FixedValueRule _ _ s | OnlyRule _ _ s | ContainsRule _ _ s => s
  end.

(** [enum Flag] *)
Inductive Flag := MustSupport | Summary | Modifier | UnknownFlag.

Global Instance Flag_eq_dec : EqDecision Flag.
Proof. solve_decision. Defined.

(** *** The contexts of the parse tree *)

(** The tokens that a context starts and stops at. *)
Record Span := mkSpan { spanStart : Token; spanStop : Token }.

(** A terminal node: its text and its token. *)
Record Terminal := mkTerminal { terminalText : string; symbol : Token }.

(** The keywords that a flag context or a strength context holds. *)
Record FlagContext := mkFlagContext
  { KW_MS : bool; KW_SU : bool; KW_MOD : bool }.

Record StrengthContext := mkStrengthContext
  { KW_EXAMPLE : bool; KW_PREFERRED : bool; KW_EXTENSIBLE : bool }.

Record CardRuleContext := mkCardRuleContext
  { cardPath : string;
    cardCARD : string;
    cardFlags : list FlagContext;
    cardSpan : Span }.

(** A flag rule has a path or paths, one of them by the grammar. *)
Inductive FlagTarget :=
  | OnePath (sequence : string)
  | Paths (commaDelimitedSequences : string).

Record FlagRuleContext := mkFlagRuleContext
  { flagTarget : FlagTarget;
    flagFlags : list FlagContext;
    flagSpan : Span }.

Record ValueSetRuleContext := mkValueSetRuleContext
  { valueSetPath : string;
    valueSetSEQUENCE : string;
    valueSetStrength : option StrengthContext;
    valueSetSpan : Span }.

Record CodeContext := mkCodeContext
  { codeCODE : string; codeSTRING : option string; codeSpan : Span }.

Record QuantityContext := mkQuantityContext
  { quantityNUMBER : string; quantityUNIT : Terminal; quantitySpan : Span }.

(** A part of a ratio is a number or a quantity, one of them by the
    grammar. *)
Inductive RatioPartContext :=
  | RatioNumber (number : Terminal)
  | RatioQuantity (quantity : QuantityContext).

Record RatioContext := mkRatioContext
  { ratioPart0 : RatioPartContext;
    ratioPart1 : RatioPartContext;
    ratioSpan : Span }.

Record BoolContext := mkBoolContext { KW_TRUE : bool }.

Record ValueContext := mkValueContext
  { valueSTRING : option string;
    valueMULTILINE_STRING : option string;
    valueNUMBER : option string;
    valueDATETIME : option string;
    valueTIME : option string;
    valueCode : option CodeContext;
    valueQuantity : option QuantityContext;
    valueRatio : option RatioContext;
    valueBool : option BoolContext }.

Record FixedValueRuleContext := mkFixedValueRuleContext
  { fixedPath : string; fixedValueContext : ValueContext; fixedSpan : Span }.

(** A target type is a reference or a sequence, one of them by the
    grammar. *)
Inductive TargetTypeContext :=
  | TargetReference (text : string)
  | TargetSequence (text : string).

Record OnlyRuleContext := mkOnlyRuleContext
  { onlyPath : string;
    onlyTargetTypes : list TargetTypeContext;
    onlySpan : Span }.

Record ItemContext := mkItemContext
  { itemSEQUENCE : string;
    itemCARD : string;
    itemFlags : list FlagContext;
    itemSpan : Span }.

Record ContainsRuleContext := mkContainsRuleContext
  { containsPath : string;
    containsItems : list ItemContext;
    containsSpan : Span }.

Record SdRuleContext := mkSdRuleContext
  { ruleText : string;
    ruleSpan : Span;
    ctxCardRule : option CardRuleContext;
    ctxFlagRule : option FlagRuleContext;
    ctxValueSetRule : option ValueSetRuleContext;
    ctxFixedValueRule : option FixedValueRuleContext;
    ctxOnlyRule : option OnlyRuleContext;
    ctxContainsRule : option ContainsRuleContext }.

(** *** The visitors *)

Section Visiting.

(** [this.doc.aliases] and [this.file] *)
Variable aliases : list (string * string).
Variable file : string.

(** [FSHImporter.aliasAwareValue], on the aliases. *)
Definition aliasAware (v : string) : string :=
  default v (Js.mapGet v aliases).

(** [.withLocation(this.extractStartStop(ctx)).withFile(this.file)] *)
Definition locatedAt (s : Span) : SourceInfo :=
  mkSourceInfo (Some file)
    (Some (extractStartStop (spanStart s) (spanStop s))).

(** The same for a terminal node. *)
Definition locatedAtTerminal (t : Terminal) : SourceInfo :=
  mkSourceInfo (Some file) (Some (extractStartStop (symbol t) (symbol t))).

(** [FSHImporter.visitPaths] *)
Definition visitPaths (commaDelimitedSequences : string) : list string :=
  splitOnCommaSpace false commaDelimitedSequences.

(** [FSHImporter.parseCard] *)
Definition parseCard (card : string) : option Z * option string :=
  let parts := splitLimit ".." 2 card in
  (parts !! 0 ≫= parseInt, parts !! 1).

(** [FSHImporter.visitFlag] *)
Definition visitFlag (ctx : FlagContext) : Flag :=
  if KW_MS ctx then MustSupport
  else if KW_SU ctx then Summary
  else if KW_MOD ctx then Modifier
  else UnknownFlag.

(** [flags.includes(flag)] *)
Definition includes (flag : Flag) (flags : list Flag) : bool :=
  existsb (fun f => bool_decide (f = flag)) flags.

(** [FSHImporter.parseFlags], on the flags a rule has so far. *)
Definition parseFlags (flagRule : bool * bool * bool)
    (flagContext : list FlagContext) : bool * bool * bool :=
  let flags := map visitFlag flagContext in
  let '(mustSupport, summary, modifier) := flagRule in
  let mustSupport :=
    if includes MustSupport flags then true else mustSupport in
  let summary := if includes Summary flags then true else summary in
  let modifier := if includes Modifier flags then true else modifier in
  (mustSupport, summary, modifier).

(** [new FlagRule(path)], located, after [parseFlags]. *)
Definition flagRuleAt (path : string) (s : Span)
    (flagContext : list FlagContext) : SdRule :=
  let '(mustSupport, summary, modifier) :=
    parseFlags (false, false, false) flagContext in
  FlagRule path mustSupport summary modifier (locatedAt s).

(** [new CardRule(path)], located, with the cardinality of [card]. *)
Definition cardRuleAt (path : string) (s : Span) (card : string) : SdRule :=
  let parsed := parseCard card in
  CardRule path parsed.1 parsed.2 (locatedAt s).

(** [FSHImporter.visitCardRule] *)
Definition visitCardRule (ctx : CardRuleContext) : list SdRule :=
  let cardRule := cardRuleAt (cardPath ctx) (cardSpan ctx) (cardCARD ctx) in
  let rules := [cardRule] in
  if 0 <? length (cardFlags ctx) then
    rules ++ [flagRuleAt (rulePath cardRule) (cardSpan ctx) (cardFlags ctx)]
  else rules.

(** [FSHImporter.visitFlagRule] *)
Definition visitFlagRule (ctx : FlagRuleContext) : list SdRule :=
  let paths :=
    match flagTarget ctx with
    | OnePath sequence => [sequence]
    | Paths sequences => visitPaths sequences
    end in
  map (fun path => flagRuleAt path (flagSpan ctx) (flagFlags ctx)) paths.

(** [FSHImporter.visitStrength] *)
Definition visitStrength (ctx : StrengthContext) : string :=
  if KW_EXAMPLE ctx then "example"
  else if KW_PREFERRED ctx then "preferred"
  else if KW_EXTENSIBLE ctx then "extensible"
  else "required".

(** [FSHImporter.visitValueSetRule] *)
Definition visitValueSetRule (ctx : ValueSetRuleContext) : SdRule :=
  ValueSetRule (valueSetPath ctx) (aliasAware (valueSetSEQUENCE ctx))
    (match valueSetStrength ctx with
     | Some strength => visitStrength strength
     | None => "required"
     end)
    (locatedAt (valueSetSpan ctx)).

(** [FSHImporter.visitCode] *)
Definition visitCode (ctx : CodeContext) : FshCode :=
  let parts := splitLimit "#" 2 (codeCODE ctx) in
  let system := parts !! 0 in
  let code := parts !! 1 in
  mkFshCode code
    (match system with
     | Some s => if 0 <? Js.length s then Some (aliasAware s) else None
     | None => None
     end)
    (extractString <$> codeSTRING ctx)
    (locatedAt (codeSpan ctx)).

(** [FSHImporter.visitQuantity] *)
Definition visitQuantity (ctx : QuantityContext) : FshQuantity :=
  let delimitedUnit := terminalText (quantityUNIT ctx) in
  let unit :=
    mkFshCode (Some (Js.slice 1 (-1) delimitedUnit))
      (Some "http://unitsofmeasure.org") None
      (locatedAtTerminal (quantityUNIT ctx)) in
  mkFshQuantity (quantityNUMBER ctx) (Some unit)
    (locatedAt (quantitySpan ctx)).

(** [FSHImporter.visitRatioPart] *)
Definition visitRatioPart (ctx : RatioPartContext) : FshQuantity :=
  match ctx with
  | RatioNumber number =>
      mkFshQuantity (terminalText number) None (locatedAtTerminal number)
  | RatioQuantity quantity => visitQuantity quantity
  end.

(** [FSHImporter.visitRatio] *)
Definition visitRatio (ctx : RatioContext) : FshRatio :=
  mkFshRatio (visitRatioPart (ratioPart0 ctx))
    (visitRatioPart (ratioPart1 ctx)) (locatedAt (ratioSpan ctx)).

(** [FSHImporter.visitBool] *)
Definition visitBool (ctx : BoolContext) : bool := KW_TRUE ctx.

(** [FSHImporter.visitValue]; [None] is the [undefined] of a context that
    holds none of the values. *)
Definition visitValue (ctx : ValueContext) : option FixedValue :=
  match valueSTRING ctx with
  | Some text => Some (FixedString (extractString text))
  | None =>
  match valueMULTILINE_STRING ctx with
  | Some text => Some (FixedString (extractMultilineString text))
  | None =>
  match valueNUMBER ctx with
  | Some text => Some (FixedNumber text)
  | None =>
  match valueDATETIME ctx with
  | Some text => Some (FixedString text)
  | None =>
  match valueTIME ctx with
  | Some text => Some (FixedString text)
  | None =>
  match valueCode ctx with
  | Some c => Some (FixedCode (visitCode c))
  | None =>
  match valueQuantity ctx with
  | Some q => Some (FixedQuantity (visitQuantity q))
  | None =>
  match valueRatio ctx with
  | Some r => Some (FixedRatio (visitRatio r))
  | None =>
  match valueBool ctx with
  | Some b => Some (FixedBoolean (visitBool b))
  | None => None
  end end end end end end end end end.

(** [FSHImporter.visitFixedValueRule] *)
Definition visitFixedValueRule (ctx : FixedValueRuleContext) : SdRule :=
  FixedValueRule (fixedPath ctx) (visitValue (fixedValueContext ctx))
    (locatedAt (fixedSpan ctx)).

(** The types that one target type adds to an [OnlyRule]. *)
Definition visitTargetType (t : TargetTypeContext) : list OnlyRuleType :=
  match t with
  | TargetReference text =>
      let from :=
        match indexOf "(" text with
        | Some i => (Z.of_nat i + 1)%Z
        | None => 0%Z
        end in
      let references :=
        splitOnBar Outside
          (Js.slice from (Z.of_nat (Js.length text) - 1) text) in
      map (fun r => mkOnlyRuleType (aliasAware r) true) references
  | TargetSequence text => [mkOnlyRuleType (aliasAware text) false]
  end.

(** [FSHImporter.visitOnlyRule] *)
Definition visitOnlyRule (ctx : OnlyRuleContext) : SdRule :=
  OnlyRule (onlyPath ctx)
    (fold_left (fun types t => types ++ visitTargetType t)
       (onlyTargetTypes ctx) [])
    (locatedAt (onlySpan ctx)).

(** The body of the loop of [FSHImporter.visitContainsRule]: the items of
    the rule and the rules after the item [i]. *)
Definition visitItem (path : string)
    (acc : list string * list SdRule) (i : ItemContext)
  : list string * list SdRule :=
  let item := aliasAware (itemSEQUENCE i) in
  let itemPath := path +:+ "[" +:+ item +:+ "]" in
  let rules := acc.2 ++ [cardRuleAt itemPath (itemSpan i) (itemCARD i)] in
  (acc.1 ++ [item],
   if 0 <? length (itemFlags i)
   then rules ++ [flagRuleAt itemPath (itemSpan i) (itemFlags i)]
   else rules).

(** [FSHImporter.visitContainsRule]: the [ContainsRule], which stands first
    in the array, with the items it has in the end, and the rules of the
    items. *)
Definition visitContainsRule (ctx : ContainsRuleContext) : list SdRule :=
  let visited :=
    fold_left (visitItem (containsPath ctx)) (containsItems ctx) ([], []) in
  ContainsRule (containsPath ctx) visited.1 (locatedAt (containsSpan ctx))
  :: visited.2.

(** [FSHImporter.visitSdRule]: the rules, and what is logged. *)
Definition visitSdRule (ctx : SdRuleContext) : list SdRule * list LogRecord :=
  match ctxCardRule ctx with
  | Some c => (visitCardRule c, [])
  | None =>
  match ctxFlagRule ctx with
  | Some c => (visitFlagRule c, [])
  | None =>
  match ctxValueSetRule ctx with
  | Some c => ([visitValueSetRule c], [])
  | None =>
  match ctxFixedValueRule ctx with
  | Some c => ([visitFixedValueRule c], [])
  | None =>
  match ctxOnlyRule ctx with
  | Some c => ([visitOnlyRule c], [])
  | None =>
  match ctxContainsRule ctx with
  | Some c => (visitContainsRule c, [])
  | None =>
      ([], [mkLogRecord LWarn (UnsupportedRule (ruleText ctx))
              (Some (locatedAt (ruleSpan ctx)))])
  end end end end end end.

End Visiting.

End ImporterRules.

(** ** Documents as the importer reads them *)

Module ImporterDocuments.
Import Model Importer ImporterRules.

(** The aliases that the entities of a document declare, in their order. *)
Definition declaredAliases {R} (ctx : list (EntityContext R))
  : list (string * string) :=
  omap (fun e => (fun a => (aliasName a, aliasValue a)) <$> ctxAlias e) ctx.

Section Resolving.
Context {R U : Type}.
Variable visitSdRule :
  list (string * string) -> string -> R -> list U * list LogRecord.

(** An importer of [file] that holds the aliases [table] and nothing
    else. *)
Definition withAliases (table : list (string * string)) (file : string)
  : FSHImporter U :=
  mkFSHImporter true file (mkFSHDocument file table [] []) [].

(** The Profile or Extension that the context [ctx] is read as when the
    aliases are [table]; [make] is the constructor. *)
Definition structureWith (table : list (string * string)) (file : string)
    (make : string -> FshStructure U) (ctx : StructureContext R)
  : FshStructure U :=
  let i := withAliases table file in
  (parseProfileOrExtension visitSdRule
     (located ctx i (make (ctxSequence ctx))) ctx i).1.

(** The map of the structures that the contexts are read as, each set
    under its name, in their order. *)
Definition recordStructures (table : list (string * string)) (file : string)
    (make : string -> FshStructure U) (contexts : list (StructureContext R))
    (structures : list (string * FshStructure U))
  : list (string * FshStructure U) :=
  fold_left
    (fun m c =>
       let d := structureWith table file make c in Js.mapSet (sdName d) d m)
    contexts structures.

End Resolving.

(** A rule that [visitSdRule] supports: its context holds one of the six
    kinds of rule. *)
Definition isSupported (ctx : SdRuleContext) : bool :=
  match ctxCardRule ctx, ctxFlagRule ctx, ctxValueSetRule ctx,
        ctxFixedValueRule ctx, ctxOnlyRule ctx, ctxContainsRule ctx with
  | None, None, None, None, None, None => false
  | _, _, _, _, _, _ => true
  end.

(** The contexts of the rules of an entity, in the order they are visited
    in: those of its Profile, then those of its Extension. *)
Definition ruleContexts (e : EntityContext SdRuleContext)
  : list SdRuleContext :=
  from_option ctxSdRule [] (ctxProfile e)
  ++ from_option ctxSdRule [] (ctxExtension e).

(** The warning that [visitSdRule] logs for a rule it does not support. *)
Definition unsupportedWarning (file : string) (ctx : SdRuleContext)
  : LogRecord :=
  mkLogRecord LWarn (UnsupportedRule (ruleText ctx))
    (Some (locatedAt file (ruleSpan ctx))).

(** The code units of a name in a list of references: neither whitespace
    nor a bar. *)
Definition isReferenceChar (c : ascii) : bool :=
  Js.isNonWhitespace c && negb (Ascii.eqb c "|").

(** The lines of a multi-line string that are kept: all but a last line
    of whitespace only. *)
Definition keptLines (lines : list string) : list string :=
  match Js.lastElement lines with
  | Some l =>
      if bool_decide (Js.searchNonWhitespace l = None) then Js.pop lines
      else lines
  | None => lines
  end.

(** A Profile or an Extension as its constructor leaves it, as far as the
    importer goes on from there: its name, and no rules. *)
Definition namedStructure (n : string) : FshStructure SdRule :=
  mkFshStructure n None None None None [] (mkSourceInfo None None).

(** A document that has a Profile whose parent is an alias, and the alias
    after it. *)
Definition aliasAfterUse : list (EntityContext SdRuleContext) :=
  [ mkEntityContext None
      (Some (mkStructureContext "ObservationProfile" [ParentContext "OBS"] []
               (mkToken 2 6 7 13) (mkToken 3 14 30 32)))
      None;
    mkEntityContext
      (Some (mkAliasContext "OBS"
               "http://hl7.org/fhir/StructureDefinition/Observation"))
      None None ].

End ImporterDocuments.

(** ** What the exporter adds to the Package *)

Module InstanceExporterCoverage.
Import Model InstanceExporter InstanceExporterInvariants.

(** What the exporter leaves of an Instance: everything but its rules and
    its usage. *)
Definition kept (i : Instance)
  : string * string * option string * option string * string * list string
    * SourceInfo :=
  (name i, id i, title i, description i, instanceOf i, mixins i,
   sourceInfo i).

Section Coverage.
Context `{Collaborators}.

(** An Instance whose instanceOf the fisher finds. *)
Definition resolvable (i : Instance) : bool :=
  match
    fisherFishForFHIR (instanceOf i) [TResource; TProfile; TExtension; TType]
  with
  | Some _ => true
  | None => false
  end.

(** A name that is the id of an Instance whose instanceOf is found. *)
Definition sourced (instances : list Instance) (n : string) : Prop :=
  exists i, i ∈ instances /\ id i = n /\ resolvable i = true.

(** [st'] comes after [st] in a run of the exporter: the Instances are as
    they were but for their rules and their usage, a usage was left alone or
    set to Inline, and an instance of the Package has a name that the
    Package had or that is sourced in the Tank. *)
Record Accounted (st st' : State) : Prop := mkAccounted
  { accountedTank : map kept (tank st') = map kept (tank st);
    accountedUsage :
      forall addr i, tank st !! addr = Some i ->
        exists i', tank st' !! addr = Some i'
                   /\ (usage i' = usage i \/ usage i' = Some Inline);
    accountedNames :
      forall n, n ∈ names (pkgInstances st') ->
        n ∈ names (pkgInstances st) \/ sourced (tank st) n }.

(** An action whose every run leads to a state that is accounted for. *)
Definition Accounting {A} (m : M A) : Prop :=
  forall st, Accounted st (m st).2.

End Coverage.

End InstanceExporterCoverage.

(** ** The steps of the exporter *)

Module InstanceExporterSteps.
Import Model InstanceExporter.

(** An index of [n] zeros, between its brackets. *)
Fixpoint zeros (n : nat) : string :=
  match n with
  | 0 => EmptyString
  | S k => String "0" (zeros k)
  end.

Definition zeroIndex (n : nat) : string := "[" +:+ zeros (S n) +:+ "]".

(** What the conversion of the names of instances leaves of a rule: all
    but its value. *)
Definition ruleShape (r : AssignmentRule) : string * bool * bool * SourceInfo :=
  (path r, exactly r, isInstance r, ruleSourceInfo r).

(** The error for a rule that names an instance which is not found. *)
Definition cannotFindRecord (r : AssignmentRule) : LogRecord :=
  mkLogRecord LError (CannotFindInstance (value r)) (Some (ruleSourceInfo r)).

(** Whether the inline path [m] applies to the rule path: the rule path
    lies below it and is not its [resourceType]. *)
Definition appliesTo (m : InlineResourcePath) (rulePath : string) : bool :=
  startsWith (inlinePath m +:+ ".") rulePath
  && negb (String.eqb rulePath (inlinePath m +:+ ".resourceType")).

End InstanceExporterSteps.

(** ** The check of the required elements

    [validateRequiredChildElements] itself, over the data of an instance
    and the tree of the elements of a StructureDefinition; the exporter
    above takes what it finds as [requiredElementErrors]. *)

Module RequiredElements.
Import Model InstanceExporter.

(** An instance, or a part of one, as the check reads it: an object with
    its own properties in order, an array, a string, any other primitive
    by its text, or nothing ([null] and [undefined], which the check does
    not tell apart). *)
#[warnings="-register-all"]
Inductive Json :=
  | JNull
  | JString (s : string)
  | JOther (text : string)
  | JArray (elements : list Json)
  | JObject (fields : list (string * Json)).

(** [value == null] *)
Definition isNull (v : Json) : bool :=
  match v with
  | JNull => true
  | _ => false
  end.

(** [instance[key]], for a key that is the name of an element: the
    property of that name of an object, and [undefined] for an object that
    does not have it and for what is not an object.  The properties that
    JavaScript itself gives to a value (its length, its indices, its
    methods) are not names of elements. *)
Definition getProperty (instance : Json) (key : string) : Json :=
  match instance with
  | JObject fields => default JNull (Js.mapGet key fields)
  | _ => JNull
  end.

(** [a ?? b] *)
Definition orElse (a b : Json) : Json := if isNull a then b else a.

(** An [ElementDefinition] as far as the check reads it: its [id], its
    [path], its [sliceName], its [min], and the elements that
    [children(true)] gives for it, its direct children. *)
#[warnings="-register-all"]
Inductive ElementDefinition :=
  | mkElementDefinition (elementId elementPath : string)
      (sliceName : option string) (min : nat)
      (children : list ElementDefinition).

Definition elementId (e : ElementDefinition) : string :=
  match e with mkElementDefinition i _ _ _ _ => i end.
Definition elementPath (e : ElementDefinition) : string :=
  match e with mkElementDefinition _ p _ _ _ => p end.
Definition sliceName (e : ElementDefinition) : option string :=
  match e with mkElementDefinition _ _ s _ _ => s end.
Definition elementMin (e : ElementDefinition) : nat :=
  match e with mkElementDefinition _ _ _ m _ => m end.
Definition elementChildren (e : ElementDefinition) : list ElementDefinition :=
  match e with mkElementDefinition _ _ _ _ c => c end.

(** [child.path.split('.').slice(-1)[0]] *)
Definition pathEnd (path : string) : string :=
  default "" (last (Js.splitOn "." path)).

(** The loop over the slices of a choice: the property of the first slice
    that the instance has. *)
Definition choiceChild (instance : Json) (children : list ElementDefinition)
    (child : ElementDefinition) : Json :=
  let choiceSlices :=
    List.filter
      (fun c => String.eqb (elementPath c) (elementPath child)
                && bool_decide (is_Some (truthy (sliceName c))))
      children in
  default JNull
    (find (fun v => negb (isNull v))
       (map (fun c => getProperty instance (default "" (sliceName c)))
          choiceSlices)).

(** [instance[`_${childPathEnd}`] ?? instance[childPathEnd]], and for a
    choice that is not found, the slice of it that is. *)
Definition findChild (instance : Json) (children : list ElementDefinition)
    (child : ElementDefinition) : Json :=
  let childPathEnd := pathEnd (elementPath child) in
  let instanceChild :=
    orElse (getProperty instance ("_" +:+ childPathEnd))
      (getProperty instance childPathEnd) in
  if isNull instanceChild && endsWith "[x]" childPathEnd
  then choiceChild instance children child
  else instanceChild.

(** The filter of an array: when the child is a slice, only the elements of
    that slice count. *)
Definition inSlice (child : ElementDefinition) (arrayEl : Json) : bool :=
  match truthy (sliceName child) with
  | None => true
  | Some slice =>
      match getProperty arrayEl "_sliceName" with
      | JString s => String.eqb s slice
      | _ => false
      end
  end.

(** The error for a child that occurs less often than its minimum. *)
Definition cardinalityError (child : ElementDefinition) (occurs : nat)
    (s : SourceInfo) : LogRecord :=
  mkLogRecord LError
    (RequiredElementMissing (elementId child) (elementMin child) occurs)
    (Some s).

(** What the check logs for a child once its children have been checked:
    an error if the child is [1..] and not on the instance, or [n..] and on
    it fewer than [n] times. *)
Definition ownError (child : ElementDefinition) (instanceChild : Json)
    (s : SourceInfo) : list LogRecord :=
  match instanceChild with
  | JNull =>
      if 0 <? elementMin child then [cardinalityError child 0 s] else []
  | JArray elements =>
      if length elements <? elementMin child
      then [cardinalityError child (length elements) s]
      else []
  | _ => []
  end.

(** [InstanceExporter.validateRequiredChildElements]: what it logs for the
    instance, or the part of an instance, and the element, with the source
    of the Instance. *)
Fixpoint validateRequiredChildElements (instance : Json)
    (element : ElementDefinition) (s : SourceInfo) : list LogRecord :=
  match element with
  | mkElementDefinition _ _ _ _ children =>
      flat_map
        (fun child =>
           match findChild instance children child with
           | JArray elements =>
               let elements := List.filter (inSlice child) elements in
               flat_map
                 (fun arrayEl =>
                    if isNull arrayEl then []
                    else validateRequiredChildElements arrayEl child s)
                 elements
               ++ ownError child (JArray elements) s
           | JNull => ownError child JNull s
           | instanceChild =>
               validateRequiredChildElements instanceChild child s
               ++ ownError child instanceChild s
           end)
        children
  end.

(** [InstanceExporter.validateRequiredElements]: the check from the first
    of [elements]; without one, reading its children throws. *)
Definition validateRequiredElements (instanceDef : Json)
    (elements : list ElementDefinition) (s : SourceInfo)
  : Exception + list LogRecord :=
  match elements with
  | root :: _ => inr (validateRequiredChildElements instanceDef root s)
  | [] => inl TypeError
  end.

(** An element with no minimum anywhere below it. *)
Fixpoint nothingRequired (element : ElementDefinition) : bool :=
  match element with
  | mkElementDefinition _ _ _ _ children =>
      forallb (fun child => (elementMin child =? 0) && nothingRequired child)
        children
  end.

End RequiredElements.

(** * Properties *)

(** ** The importer *)

Module ImporterFacts.
Import Model Importer Examples.

Lemma splitOn_nonempty sep s : Js.splitOn sep s <> [].
Proof.
  destruct s as [|c s]; simpl; [discriminate|].
  destruct (Ascii.eqb c sep); [discriminate|].
  destruct (Js.splitOn sep s); discriminate.
Qed.

(** C7.  On the block
    [abc / __def] (the second line indented by two spaces, the first not at
    all) the common indentation is none, yet [extractMultilineString] takes
    two characters off every line: the line that is not indented loses
    [ab].  The minimum is taken over the indented lines only. *)
Theorem multiline_unindented_line_truncated :
  extractMultilineString unindentedThenIndented
  = "c" +:+ newline +:+ "def"
  /\ findMinSpaces ["abc"; "  def"] = 2
  /\ Js.searchNonWhitespaceOrEnd "abc" = 0.
Proof. repeat split; vm_compute; reflexivity. Qed.

(** A block whose lines are all indented loses the indentation they share,
    the line after the opening quotes and the line of spaces before the
    closing ones. *)
Lemma multiline_indented_block :
  extractMultilineString indentedBlock = "abc" +:+ newline +:+ "  def".
Proof. vm_compute. reflexivity. Qed.

Section Visiting.
Context {R U : Type}.
Variable visitSdRule :
  list (string * string) -> string -> R -> list U * list LogRecord.
Variable newProfile : string -> FshStructure U.
Variable newExtension : string -> FshStructure U.

Local Abbreviation visitDoc := (visitDoc visitSdRule newProfile newExtension).
Local Abbreviation visitEntity :=
  (visitEntity visitSdRule newProfile newExtension).

Lemma used_whenPresent {C} (c : option C) visit (i : FSHImporter U) :
  (forall ctx j, used (visit ctx j) = used j) ->
  used (whenPresent c visit i) = used i.
Proof. intros Hv. destruct c; simpl; auto. Qed.

Lemma used_visitAlias ctx (i : FSHImporter U) :
  used (visitAlias ctx i) = used i.
Proof. reflexivity. Qed.

Lemma used_visitSdRules rules def (i : FSHImporter U) :
  used (visitSdRules visitSdRule rules def i).2 = used i.
Proof.
  revert def i. induction rules as [|r rules IH]; intros def i; simpl.
  - reflexivity.
  - rewrite IH. reflexivity.
Qed.

Lemma used_visitEntity ctx (i : FSHImporter U) :
  used (visitEntity ctx i) = used i.
Proof.
  unfold Importer.visitEntity.
  rewrite used_whenPresent.
  - rewrite used_whenPresent.
    + apply used_whenPresent. apply used_visitAlias.
    + intros c j. unfold visitProfile, parseProfileOrExtension. simpl.
      apply used_visitSdRules.
  - intros c j. unfold visitExtension, parseProfileOrExtension. simpl.
    apply used_visitSdRules.
Qed.

Lemma used_fold {C} (f : FSHImporter U -> C -> FSHImporter U) l i :
  (forall j c, used (f j c) = used j) ->
  used (fold_left f l i) = used i.
Proof.
  intros Hf. revert i. induction l as [|c l IH]; intros i; simpl.
  - reflexivity.
  - rewrite IH. apply Hf.
Qed.

Lemma used_after_visitDoc ctx (i : FSHImporter U) :
  used (visitDoc ctx i).1 = true.
Proof.
  unfold Importer.visitDoc. destruct (used i) eqn:Hu; simpl.
  - exact Hu.
  - rewrite used_fold by (intros; apply used_visitEntity).
    rewrite used_fold
      by (intros; apply used_whenPresent; apply used_visitAlias).
    reflexivity.
Qed.

(** C6.  The importer is single-use: whatever importer a document was
    visited with, a further call to [visitDoc] logs the error that the
    importer cannot be re-used, returns nothing, and leaves the importer,
    and with it the document produced before, as they were; a fresh
    importer returns its document from the first call. *)
Theorem importer_single_use (i : FSHImporter U)
    (ctx1 ctx2 : list (EntityContext R)) :
  let first := visitDoc ctx1 i in
  let second := visitDoc ctx2 first.1 in
  second.2 = None
  /\ importerLog second.1
     = importerLog first.1 ++ [mkLogRecord LError ImporterCannotBeReused None]
  /\ doc second.1 = doc first.1
  /\ used second.1 = true
  /\ (used i = false -> first.2 = Some (doc first.1)).
Proof.
  intros first second. subst second.
  pose proof (used_after_visitDoc ctx1 i) as Hu. fold first in Hu.
  unfold Importer.visitDoc at 1 2 3 4. rewrite Hu. simpl.
  repeat split; try assumption.
  intros Hfresh. subst first. unfold Importer.visitDoc.
  rewrite Hfresh. reflexivity.
Qed.

End Visiting.

Lemma importer_single_use_witness :
  (visitDoc noRules emptySd emptySd aliasDocument
     (visitDoc noRules emptySd emptySd aliasDocument
        (newImporter "a.fsh")).1).2 = None
  /\ (visitDoc noRules emptySd emptySd aliasDocument (newImporter "a.fsh")).2
     = Some (mkFSHDocument "a.fsh" [("LOINC", "http://loinc.org")] [] []).
Proof.
  destruct (importer_single_use noRules emptySd emptySd
              (newImporter "a.fsh") aliasDocument aliasDocument)
    as (Hnone & _ & _ & _ & Hfresh).
  split; [exact Hnone|]. rewrite (Hfresh eq_refl). reflexivity.
Defined.

End ImporterFacts.

(** ** The emitter of ig.ini *)

Module IGExporterFacts.
Import Model IGExporter Examples.



End IGExporterFacts.

(** ** The instance exporter *)

Module InstanceExporterFacts.
Import Model InstanceExporter InstanceExporterInvariants Examples.

(** *** Running the primitives of the monad *)

Lemma bind_ret {A B} (a : A) (k : A -> M B) st : bind (ret a) k st = k a st.
Proof. reflexivity. Qed.

Lemma bind_assoc {A B C} (m : M A) (f : A -> M B) (g : B -> M C) st :
  bind (bind m f) g st = bind m (fun x => bind (f x) g) st.
Proof. unfold bind. destruct (m st) as [[a| |] st']; reflexivity. Qed.

Lemma bind_getState {B} (k : State -> M B) st : bind getState k st = k st st.
Proof. reflexivity. Qed.

Lemma bind_logRecords {B} rs (k : unit -> M B) st :
  bind (logRecords rs) k st
  = k tt (mkState (tank st) (pkgInstances st) (log st ++ rs)).
Proof. reflexivity. Qed.

Lemma bind_readInstance {B} addr (k : Instance -> M B) st i :
  tank st !! addr = Some i -> bind (readInstance addr) k st = k i st.
Proof. intros Hi. unfold bind, readInstance. rewrite Hi. reflexivity. Qed.

Lemma bind_readDefinition {B} idx (k : InstanceDefinition -> M B) st d :
  pkgInstances st !! idx = Some d -> bind (readDefinition idx) k st = k d st.
Proof. intros Hd. unfold bind, readDefinition. rewrite Hd. reflexivity. Qed.

Lemma bind_modifyInstance {B} addr f (k : unit -> M B) st :
  bind (modifyInstance addr f) k st
  = k tt (mkState (alter f addr (tank st)) (pkgInstances st) (log st)).
Proof. reflexivity. Qed.

Lemma bind_modifyDefinition {B} idx f (k : unit -> M B) st :
  bind (modifyDefinition idx f) k st
  = k tt (mkState (tank st) (alter f idx (pkgInstances st)) (log st)).
Proof. reflexivity. Qed.

Lemma bind_pushDefinition {B} d (k : nat -> M B) st :
  bind (pushDefinition d) k st
  = k (length (pkgInstances st))
      (mkState (tank st) (pkgInstances st ++ [d]) (log st)).
Proof. reflexivity. Qed.

(** *** The check for duplicate ids *)

Lemma someWithIndex_true {A} (p : nat -> A -> bool) (l : list A) :
  Js.someWithIndex p l = true <-> exists j x, l !! j = Some x /\ p j x = true.
Proof.
  unfold Js.someWithIndex. rewrite existsb_exists. split.
  - intros [[j x] [Hin Hp]]. apply list_elem_of_In in Hin.
    apply elem_of_lookup_imap in Hin as (i & y & Heq & Hl).
    inversion Heq; subst. eauto.
  - intros (j & x & Hl & Hp). exists (j, x). split; [|exact Hp].
    apply list_elem_of_In. apply elem_of_lookup_imap. eauto.
Qed.

Lemma hasDuplicate_true instances idx d :
  hasDuplicate instances idx d = true <->
  isInline d = false
  /\ exists j d', j <> idx /\ instances !! j = Some d'
       /\ isInline d' = false
       /\ resourceType d' = resourceType d
       /\ instanceId d' = instanceId d.
Proof.
  unfold hasDuplicate. rewrite andb_true_iff, negb_true_iff.
  rewrite someWithIndex_true. split.
  - intros [Hd (j & d' & Hl & Hp)]. split; [exact Hd|].
    rewrite !andb_true_iff, !negb_true_iff in Hp.
    destruct Hp as [[[Hi Ht] Hid] Hj].
    apply bool_decide_eq_true in Ht, Hid. apply Nat.eqb_neq in Hj.
    exists j, d'. auto.
  - intros [Hd (j & d' & Hj & Hl & Hi & Ht & Hid)]. split; [exact Hd|].
    exists j, d'. split; [exact Hl|].
    rewrite !andb_true_iff, !negb_true_iff.
    repeat split; [exact Hi | | |].
    + apply bool_decide_eq_true. auto.
    + apply bool_decide_eq_true. auto.
    + apply Nat.eqb_neq. exact Hj.
Qed.

Lemma checkDuplicateId_run fshDefinition idx st d :
  pkgInstances st !! idx = Some d ->
  checkDuplicateId fshDefinition idx st
  = (Returned tt,
     mkState (tank st) (pkgInstances st)
       (log st ++ duplicateRecords (pkgInstances st) idx d fshDefinition)).
Proof.
  intros Hd. unfold checkDuplicateId, bind, readDefinition, getState.
  rewrite Hd. unfold duplicateRecords.
  destruct (hasDuplicate (pkgInstances st) idx d); simpl.
  - reflexivity.
  - unfold ret. rewrite app_nil_r. destruct st; reflexivity.
Qed.



(** *** Validation of the id *)

Lemma length_list_ascii s : length (list_ascii_of_string s) = String.length s.
Proof. induction s; simpl; congruence. Qed.

Lemma list_ascii_substring_0 n s :
  list_ascii_of_string (substring 0 n s) = take n (list_ascii_of_string s).
Proof.
  revert n. induction s as [|c s IH]; intros [|n]; simpl; try reflexivity.
  rewrite IH. reflexivity.
Qed.

Lemma slice_0_take n s :
  list_ascii_of_string (Js.slice 0 (Z.of_nat n) s)
  = take n (list_ascii_of_string s).
Proof.
  unfold Js.slice, Js.clampIndex, Js.length. simpl.
  destruct (Z.ltb_spec (Z.of_nat n) 0) as [Hn|Hn]; [lia|].
  rewrite Nat2Z.id, Nat.sub_0_r, list_ascii_substring_0.
  destruct (Nat.min_spec n (String.length s)) as [[Hlt ->]|[Hle ->]].
  - reflexivity.
  - rewrite !firstn_all2; [reflexivity| |]; rewrite length_list_ascii; lia.
Qed.

Lemma forallb_take {A} (p : A -> bool) n l :
  forallb p l = true -> forallb p (take n l) = true.
Proof.
  revert n. induction l as [|x l IH]; intros [|n] Hl; simpl in *; auto.
  apply andb_true_iff in Hl as [Hx Hl]. rewrite Hx. simpl. auto.
Qed.

Lemma isNameChar_replaced c :
  isNameChar c = true ->
  isIdChar (if Ascii.eqb c "_" then "-"%char else c) = true.
Proof.
  unfold isNameChar, isIdChar. intros Hc.
  destruct (Ascii.eqb c "_") eqn:Hu; [reflexivity|].
  rewrite orb_false_r in Hc. rewrite Hc. reflexivity.
Qed.

Lemma list_ascii_replaceUnderscores s :
  list_ascii_of_string (replaceUnderscores s)
  = map (fun c => if Ascii.eqb c "_" then "-"%char else c)
      (list_ascii_of_string s).
Proof. unfold replaceUnderscores. apply list_ascii_of_string_of_list_ascii. Qed.

Lemma length_replaceUnderscores s :
  String.length (replaceUnderscores s) = String.length s.
Proof.
  rewrite <- !length_list_ascii, list_ascii_replaceUnderscores.
  apply length_map.
Qed.

(** The id that a valid name is sanitized to is a valid id. *)
Lemma sanitizeId_valid s : isValidName s = true -> isValidId (sanitizeId s) = true.
Proof.
  intros Hn. destruct s as [|c s]; [discriminate|]. simpl in Hn.
  apply andb_true_iff in Hn as [Hn Hrest].
  apply andb_true_iff in Hn as [Hup _].
  unfold isValidId, sanitizeId, allChars, Js.length.
  rewrite <- length_list_ascii.
  change 64%Z with (Z.of_nat 64). rewrite slice_0_take.
  rewrite list_ascii_replaceUnderscores. simpl map.
  rewrite !andb_true_iff. split; [split|].
  - simpl. reflexivity.
  - apply Nat.leb_le. rewrite length_take. lia.
  - apply forallb_take. simpl. apply andb_true_iff. split.
    + apply isNameChar_replaced. unfold isNameChar. rewrite Hup. reflexivity.
    + unfold allChars in Hrest. clear - Hrest.
      induction (list_ascii_of_string s) as [|x l IH]; simpl in *; auto.
      apply andb_true_iff in Hrest as [Hx Hl].
      rewrite isNameChar_replaced by exact Hx. simpl. auto.
Qed.

Section Validating.
Context `{Collaborators}.

(** The diagnostic of an id that is not valid. *)
Lemma validateId_invalid s d i :
  instanceId d = Some (VString i) -> isValidId i = false ->
  validateId s d
  = if isValidName i then
      (setProperty idKey (VString (sanitizeId i)) d,
       [mkLogRecord LWarn (SanitizedFHIRId i (sanitizeId i)) (Some s)])
    else (d, [mkLogRecord LError (InvalidFHIRId i) (Some s)]).
Proof. intros Hid Hv. unfold validateId. rewrite Hid, Hv. reflexivity. Qed.


End Validating.


(** *** References *)

Section Referring.
Context `{Collaborators}.

Lemma elem_of_containedResources instances d c :
  c ∈ containedResources instances d <->
  exists b rest j,
    properties d !! (("contained", b) :: rest) = Some (VInstance j)
    /\ instances !! j = Some c.
Proof.
  unfold containedResources. rewrite list_elem_of_omap. split.
  - intros ([k v] & Hin & Hf). apply elem_of_map_to_list in Hin.
    destruct k as [|[b bs] rest]; [discriminate|].
    destruct v; try discriminate.
    destruct (String.eqb b "contained") eqn:Hb; [|discriminate].
    apply String.eqb_eq in Hb. subst b. eauto.
  - intros (b & rest & j & Hp & Hj).
    exists (("contained", b) :: rest, VInstance j). split.
    + apply elem_of_map_to_list. exact Hp.
    + simpl. exact Hj.
Qed.

Lemma absoluteReference_Some c reference :
  absoluteReference c = Some reference ->
  exists t i,
    resourceType c = Some (VString t) /\ instanceId c = Some (VString i)
    /\ reference = t +:+ "/" +:+ i
    /\ fragmentReference c = "#" +:+ i.
Proof.
  unfold absoluteReference, fragmentReference.
  destruct (resourceType c) as [[t| | | | |]|]; try discriminate.
  destruct (instanceId c) as [[i| | | | |]|]; try discriminate.
  intros [= <-]. exists t, i. repeat split.
Qed.


End Referring.


(** *** Frames *)

Lemma Extends_refl st : Extends st st.
Proof.
  split; auto.
  - intros addr i Hi Hu. eauto.
  - exists []. rewrite app_nil_r. reflexivity.
  - exists []. rewrite app_nil_r. reflexivity.
Qed.

Lemma Extends_trans st1 st2 st3 :
  Extends st1 st2 -> Extends st2 st3 -> Extends st1 st3.
Proof.
  intros [Ht1 Hi1 [m1 Hm1] [l1 Hl1] Hn1] [Ht2 Hi2 [m2 Hm2] [l2 Hl2] Hn2].
  split.
  - congruence.
  - intros addr i Hi Hu. destruct (Hi1 addr i Hi Hu) as (i' & Hi' & Hu').
    eauto.
  - exists (m1 ++ m2). rewrite Hm2, Hm1, app_assoc. reflexivity.
  - exists (l1 ++ l2). rewrite Hl2, Hl1, app_assoc. reflexivity.
  - auto.
Qed.

Lemma Extends_log st rs :
  Extends st (mkState (tank st) (pkgInstances st) (log st ++ rs)).
Proof.
  split; simpl; auto.
  - eauto.
  - exists []. rewrite app_nil_r. reflexivity.
  - eauto.
Qed.

Lemma map_alter_same {A B} (g : A -> B) (f : A -> A) (l : list A) i :
  (forall x, g (f x) = g x) -> map g (alter f i l) = map g l.
Proof.
  intros Hg. revert i. induction l as [|x l IH]; intros [|i]; simpl;
    try reflexivity.
  - rewrite Hg. reflexivity.
  - f_equal. apply IH.
Qed.

Lemma Extends_modifyInstance st addr f :
  (forall i, frozen (f i) = frozen i) ->
  (forall i, usage i = Some Inline -> usage (f i) = Some Inline) ->
  Extends st (mkState (alter f addr (tank st)) (pkgInstances st) (log st)).
Proof.
  intros Hfrozen Husage. split; simpl; auto.
  - apply map_alter_same. exact Hfrozen.
  - intros a i Hi Hu. destruct (decide (addr = a)) as [->|Hne].
    + exists (f i). rewrite list_lookup_alter_eq, Hi. auto.
    + exists i. rewrite list_lookup_alter_ne by exact Hne. auto.
  - exists []. rewrite app_nil_r. reflexivity.
  - exists []. rewrite app_nil_r. reflexivity.
Qed.

Lemma Extends_modifyDefinition st idx f :
  (forall d, instanceMeta (f d) = instanceMeta d) ->
  Extends st (mkState (tank st) (alter f idx (pkgInstances st)) (log st)).
Proof.
  intros Hmeta.
  assert (Hsame : map instanceMeta (alter f idx (pkgInstances st))
                  = map instanceMeta (pkgInstances st))
    by (apply map_alter_same; exact Hmeta).
  split; simpl; auto.
  - eauto.
  - exists []. rewrite app_nil_r. exact Hsame.
  - exists []. rewrite app_nil_r. reflexivity.
  - unfold names. rewrite Hsame. auto.
Qed.

Lemma alreadyExported_names ident instances :
  alreadyExported ident instances = true <-> ident ∈ names instances.
Proof.
  unfold alreadyExported, names. rewrite existsb_exists. split.
  - intros (d & Hin & Heq). apply String.eqb_eq in Heq. subst ident.
    apply list_elem_of_In. rewrite map_map. apply in_map_iff. eauto.
  - intros Hin. apply list_elem_of_In in Hin. rewrite map_map in Hin.
    apply in_map_iff in Hin as (d & Heq & Hin). exists d. split; [exact Hin|].
    apply String.eqb_eq. exact Heq.
Qed.

Lemma Extends_push st d :
  alreadyExported (metaName (instanceMeta d)) (pkgInstances st) = false ->
  Extends st (mkState (tank st) (pkgInstances st ++ [d]) (log st)).
Proof.
  intros Hnew. split; simpl; auto.
  - eauto.
  - exists [instanceMeta d]. apply map_app.
  - exists []. rewrite app_nil_r. reflexivity.
  - intros Hnd. unfold names. rewrite !map_app. simpl.
    apply NoDup_app. split; [exact Hnd|]. split; [|apply NoDup_singleton].
    intros x Hx Hx'. apply list_elem_of_singleton in Hx'. subst x.
    apply alreadyExported_names in Hx. congruence.
Qed.

Lemma Framed_ret {A} (a : A) : Framed (ret a).
Proof. intros st. apply Extends_refl. Qed.

Lemma Framed_throw {A} e : Framed (@throw A e).
Proof. intros st. apply Extends_refl. Qed.

Lemma Framed_outOfFuel {A} : Framed (@outOfFuel A).
Proof. intros st. apply Extends_refl. Qed.

Lemma Framed_getState : Framed getState.
Proof. intros st. apply Extends_refl. Qed.

Lemma Framed_logRecords rs : Framed (logRecords rs).
Proof. intros st. apply Extends_log. Qed.

Lemma Framed_readInstance addr : Framed (readInstance addr).
Proof.
  intros st. unfold readInstance. destruct (tank st !! addr);
    apply Extends_refl.
Qed.

Lemma Framed_readDefinition idx : Framed (readDefinition idx).
Proof.
  intros st. unfold readDefinition. destruct (pkgInstances st !! idx);
    apply Extends_refl.
Qed.

Lemma Framed_modifyInstance addr f :
  (forall i, frozen (f i) = frozen i) ->
  (forall i, usage i = Some Inline -> usage (f i) = Some Inline) ->
  Framed (modifyInstance addr f).
Proof. intros Hf Hu st. apply Extends_modifyInstance; assumption. Qed.

Lemma Framed_modifyDefinition idx f :
  (forall d, instanceMeta (f d) = instanceMeta d) ->
  Framed (modifyDefinition idx f).
Proof. intros Hf st. apply Extends_modifyDefinition; assumption. Qed.

Lemma Framed_bind {A B} (m : M A) (k : A -> M B) :
  Framed m -> (forall a, Framed (k a)) -> Framed (bind m k).
Proof.
  intros Hm Hk st. unfold bind. specialize (Hm st).
  destruct (m st) as [[a| |] st']; simpl in *; try exact Hm.
  eapply Extends_trans; [exact Hm|]. apply Hk.
Qed.

Lemma Framed_tryCatch {A} (m : M A) handler :
  Framed m -> (forall e, Framed (handler e)) -> Framed (tryCatch m handler).
Proof.
  intros Hm Hh st. unfold tryCatch. specialize (Hm st).
  destruct (m st) as [[a| |] st']; simpl in *; try exact Hm.
  eapply Extends_trans; [exact Hm|]. apply Hh.
Qed.

Lemma Framed_updateDefinition idx f :
  (forall instances d, instanceMeta (f instances d) = instanceMeta d) ->
  Framed (updateDefinition idx f).
Proof.
  intros Hf. apply Framed_bind; [apply Framed_getState|].
  intros st. apply Framed_modifyDefinition. apply Hf.
Qed.

Create HintDb framed.

#[local] Hint Resolve Framed_ret Framed_throw Framed_outOfFuel
  Framed_getState Framed_logRecords Framed_readInstance
  Framed_readDefinition : framed.

Ltac framed :=
  repeat first
    [ simple apply Framed_bind; [|intro]
    | solve [auto with framed]
    | apply Framed_modifyInstance; [reflexivity | intros ? ?; assumption]
    | progress unfold loggerError, loggerWarn, loggerInfo ].

Section Frames.
Context `{Collaborators}.

Lemma instanceMeta_setProperties instances assignments d :
  instanceMeta (setProperties instances assignments d) = instanceMeta d.
Proof.
  unfold setProperties. revert d.
  induction assignments as [|pv l IH]; intros d; simpl; [reflexivity|].
  rewrite IH. reflexivity.
Qed.

Lemma instanceMeta_validateId s d :
  instanceMeta (validateId s d).1 = instanceMeta d.
Proof.
  unfold validateId. destruct (instanceId d) as [[i| | | | |]|];
    try reflexivity.
  destruct (isValidId i); [reflexivity|].
  destruct (isValidName i); reflexivity.
Qed.

Lemma Framed_fishForFHIRWith rec item :
  (forall a, Framed (rec a)) -> Framed (fishForFHIRWith rec item).
Proof.
  intros Hrec. unfold fishForFHIRWith. apply Framed_bind; [framed|].
  intros st. destruct (packageFishInstance _ _); [framed|].
  destruct (tankFishInstance _ _); framed.
Qed.

Lemma Framed_convertInstanceRules fish rs :
  (forall item, Framed (fish item)) -> Framed (convertInstanceRules fish rs).
Proof.
  intros Hfish. induction rs as [|r rs IH]; simpl; [framed|].
  destruct (isInstance r); [|framed].
  apply Framed_bind.
  - destruct (value r); framed.
  - intros [i|]; framed.
Qed.

Lemma Framed_prepareRules fish addr :
  (forall item, Framed (fish item)) -> Framed (prepareRules fish addr).
Proof.
  intros Hfish. unfold prepareRules. framed.
  apply Framed_convertInstanceRules. exact Hfish.
Qed.

Lemma Framed_validateRules irp rs sd ruleMap :
  Framed (validateRules irp rs sd ruleMap).
Proof.
  revert sd ruleMap. induction rs as [|r rs IH]; intros sd ruleMap; simpl;
    [framed|].
  apply Framed_bind; [framed|]. intros st.
  destruct (validateValueAtPath _ _ _ _ _) as [sd' [msg|v]]; framed;
    apply IH.
Qed.

Lemma Framed_assignValidated idx rules sd :
  Framed (assignValidated idx rules sd).
Proof.
  unfold assignValidated. framed.
  - apply Framed_validateRules.
  - apply Framed_updateDefinition. intros.
    apply instanceMeta_setProperties.
  - apply Framed_updateDefinition. intros.
    apply instanceMeta_setProperties.
Qed.

Lemma Framed_setAssignedValues fish addr idx sd :
  (forall item, Framed (fish item)) ->
  Framed (setAssignedValues fish addr idx sd).
Proof.
  intros Hfish. unfold setAssignedValues. framed.
  - apply Framed_prepareRules. exact Hfish.
  - apply Framed_assignValidated.
Qed.

Lemma Framed_checkDuplicateId fshDefinition idx :
  Framed (checkDuplicateId fshDefinition idx).
Proof.
  unfold checkDuplicateId. framed.
  destruct (hasDuplicate _ _ _); framed.
Qed.

Lemma Framed_validateAndCheck fshDefinition idx sd :
  Framed (validateAndCheck fshDefinition idx sd).
Proof.
  unfold validateAndCheck, validateRequiredElements. framed.
  - apply Framed_modifyDefinition. intros. apply instanceMeta_validateId.
  - apply Framed_modifyDefinition. reflexivity.
  - apply Framed_checkDuplicateId.
Qed.

Lemma Framed_exportPushed rec addr fshDefinition idx sd :
  (forall a, Framed (rec a)) ->
  Framed (exportPushed rec addr fshDefinition idx sd).
Proof.
  intros Hrec. unfold exportPushed. framed.
  - apply Framed_setAssignedValues. intros item.
    apply Framed_fishForFHIRWith. exact Hrec.
  - apply Framed_validateAndCheck.
Qed.

Lemma Framed_resolveInstanceOf addr : Framed (resolveInstanceOf addr).
Proof.
  unfold resolveInstanceOf. framed.
  destruct (fisherFishForFHIR _ _) as [json|]; [|framed].
  destruct (negb (String.eqb (kind json) "resource")); [|framed].
  destruct (negb (bool_decide _)); framed.
  apply Framed_modifyInstance; [reflexivity|reflexivity].
Qed.

End Frames.

Section Frames2.
Context `{Collaborators}.

Lemma resolveInstanceOf_run addr st fsh :
  tank st !! addr = Some fsh ->
  resolveInstanceOf addr st
  = match fisherFishForFHIR (instanceOf fsh)
            [TResource; TProfile; TExtension; TType] with
    | None =>
        (Thrown (InstanceOfNotDefinedError (name fsh) (instanceOf fsh)
                   (sourceInfo fsh)), st)
    | Some json =>
        if String.eqb (kind json) "resource" then (Returned (json, true), st)
        else if bool_decide (usage fsh = Some Inline)
        then (Returned (json, false), st)
        else (Returned (json, false),
              mkState (alter (setUsage (Some Inline)) addr (tank st))
                (pkgInstances st)
                (log st ++ [mkLogRecord LWarn
                              (NotAnInstanceOfAResource (name fsh))
                              (Some (sourceInfo fsh))]))
    end.
Proof.
  intros Hfsh. unfold resolveInstanceOf.
  rewrite (bind_readInstance _ _ _ _ Hfsh).
  destruct (fisherFishForFHIR _ _) as [json|]; [|reflexivity].
  destruct (String.eqb (kind json) "resource"); simpl; [reflexivity|].
  destruct (bool_decide (usage fsh = Some Inline)); reflexivity.
Qed.

Lemma pkgInstances_resolveInstanceOf addr st :
  pkgInstances (resolveInstanceOf addr st).2 = pkgInstances st.
Proof.
  destruct (tank st !! addr) as [fsh|] eqn:Hfsh.
  - rewrite (resolveInstanceOf_run _ _ _ Hfsh).
    destruct (fisherFishForFHIR _ _) as [json|]; [|reflexivity].
    destruct (String.eqb (kind json) "resource"); [reflexivity|].
    destruct (bool_decide _); reflexivity.
  - unfold resolveInstanceOf, bind, readInstance. rewrite Hfsh. reflexivity.
Qed.

Lemma Extends_lookup_tank st st' addr fsh :
  Extends st st' -> tank st !! addr = Some fsh ->
  exists fsh', tank st' !! addr = Some fsh' /\ frozen fsh' = frozen fsh.
Proof.
  intros [Ht _ _ _ _] Hfsh.
  assert (Hl : map frozen (tank st') !! addr = Some (frozen fsh)).
  { rewrite Ht. change map with (@fmap list _) in *.
    rewrite list_lookup_fmap, Hfsh. reflexivity. }
  change map with (@fmap list _) in Hl. rewrite list_lookup_fmap in Hl.
  destruct (tank st' !! addr) as [fsh'|]; [|discriminate].
  exists fsh'. split; [reflexivity|]. simpl in Hl. congruence.
Qed.

Lemma metaName_newInstanceDefinition fsh sd isResource :
  metaName (instanceMeta (newInstanceDefinition fsh sd isResource)) = id fsh.
Proof.
  unfold newInstanceDefinition.
  destruct isResource; simpl; [|reflexivity].
  destruct (bool_decide _); reflexivity.
Qed.

Lemma Extends_exportResolved rec addr sd isResource st fsh :
  (forall a, Framed (rec a)) ->
  tank st !! addr = Some fsh ->
  alreadyExported (id fsh) (pkgInstances st) = false ->
  Extends st (exportResolved rec addr sd isResource st).2.
Proof.
  intros Hrec Hfsh Hnew. unfold exportResolved.
  rewrite (bind_readInstance _ _ _ _ Hfsh), bind_pushDefinition.
  eapply Extends_trans; [|apply Framed_exportPushed; exact Hrec].
  apply Extends_push. rewrite metaName_newInstanceDefinition. exact Hnew.
Qed.

Lemma Framed_exportInstanceBody rec addr :
  (forall a, Framed (rec a)) -> Framed (exportInstanceBody rec addr).
Proof.
  intros Hrec st. unfold exportInstanceBody.
  destruct (tank st !! addr) as [fsh|] eqn:Hfsh.
  - rewrite (bind_readInstance _ _ _ _ Hfsh), bind_getState.
    destruct (alreadyExported _ _) eqn:Hguard; [apply Extends_refl|].
    unfold bind.
    pose proof (Framed_resolveInstanceOf addr st) as Hres.
    pose proof (pkgInstances_resolveInstanceOf addr st) as Hpkg.
    destruct (resolveInstanceOf addr st) as [[[sd isResource]| |] st1];
      simpl in *; try exact Hres.
    eapply Extends_trans; [exact Hres|].
    destruct (Extends_lookup_tank _ _ _ _ Hres Hfsh) as (fsh1 & Hfsh1 & Hfz).
    apply (Extends_exportResolved _ _ _ _ _ fsh1 Hrec Hfsh1).
    rewrite Hpkg. unfold frozen in Hfz. congruence.
  - unfold bind, readInstance. rewrite Hfsh. apply Extends_refl.
Qed.

Lemma Framed_exportInstance fuel addr : Framed (exportInstance fuel addr).
Proof.
  revert addr. induction fuel as [|fuel IH]; intros addr; simpl.
  - apply Framed_outOfFuel.
  - apply Framed_exportInstanceBody. exact IH.
Qed.

Lemma Framed_exportEach fuel addrs : Framed (exportEach fuel addrs).
Proof.
  induction addrs as [|addr rest IH]; simpl; [framed|].
  apply Framed_bind; [|intros; exact IH].
  apply Framed_tryCatch; [|intros; framed].
  apply Framed_bind; [apply Framed_exportInstance|intros; framed].
Qed.

Lemma Framed_export fuel : Framed (export fuel).
Proof.
  unfold export. framed.
  - apply Framed_exportEach.
  - destruct (0 <? _); framed.
Qed.

End Frames2.

(** *** Fuel *)

Lemma filter_length_le {A} (p q : A -> bool) l :
  (forall x, q x = true -> p x = true) ->
  length (List.filter q l) <= length (List.filter p l).
Proof.
  intros Hqp. induction l as [|x l IH]; simpl; [lia|].
  destruct (q x) eqn:Hq.
  - rewrite (Hqp x Hq). simpl. lia.
  - destruct (p x); simpl; lia.
Qed.

Lemma filter_length_lt {A} (p q : A -> bool) l x :
  (forall y, q y = true -> p y = true) ->
  In x l -> p x = true -> q x = false ->
  length (List.filter q l) < length (List.filter p l).
Proof.
  intros Hqp Hin Hp Hq. induction l as [|y l IH]; simpl; [destruct Hin|].
  destruct Hin as [->|Hin].
  - rewrite Hp, Hq. simpl.
    pose proof (filter_length_le p q l Hqp). lia.
  - specialize (IH Hin). destruct (q y) eqn:Hqy.
    + rewrite (Hqp y Hqy). simpl. lia.
    + destruct (p y); simpl; lia.
Qed.

Lemma map_id_frozen l l' :
  map frozen l' = map frozen l -> map id l' = map id l.
Proof.
  intros Hf.
  assert (Hid : forall k : list Instance,
             map id k = map (fun f => f.1.1.2) (map frozen k)).
  { intros k. rewrite map_map. reflexivity. }
  rewrite !Hid, Hf. reflexivity.
Qed.

Lemma alreadyExported_Extends st st' ident :
  Extends st st' ->
  alreadyExported ident (pkgInstances st) = true ->
  alreadyExported ident (pkgInstances st') = true.
Proof.
  intros [_ _ [more Hm] _ _] He. apply alreadyExported_names.
  apply alreadyExported_names in He. unfold names in *.
  rewrite Hm, map_app. apply elem_of_app. auto.
Qed.

Lemma remaining_Extends st st' :
  Extends st st' -> remaining st' <= remaining st.
Proof.
  intros Hext. unfold remaining.
  rewrite (map_id_frozen _ _ (extendsTank _ _ Hext)).
  apply filter_length_le. intros x Hx.
  apply negb_true_iff in Hx. apply negb_true_iff.
  destruct (alreadyExported x (pkgInstances st)) eqn:He; [|reflexivity].
  rewrite (alreadyExported_Extends _ _ _ Hext He) in Hx. discriminate.
Qed.

Lemma remaining_push st addr fsh d :
  tank st !! addr = Some fsh ->
  alreadyExported (id fsh) (pkgInstances st) = false ->
  metaName (instanceMeta d) = id fsh ->
  remaining (mkState (tank st) (pkgInstances st ++ [d]) (log st))
  < remaining st.
Proof.
  intros Hfsh Hnew Hname. unfold remaining. simpl.
  apply (filter_length_lt _ _ _ (id fsh)).
  - intros y Hy. apply negb_true_iff in Hy. apply negb_true_iff.
    destruct (alreadyExported y (pkgInstances st)) eqn:He; [|reflexivity].
    unfold alreadyExported in *. rewrite existsb_app, He in Hy. discriminate.
  - apply in_map. apply list_elem_of_In. eapply list_elem_of_lookup_2.
    exact Hfsh.
  - rewrite Hnew. reflexivity.
  - apply negb_false_iff. unfold alreadyExported. rewrite existsb_app.
    simpl. rewrite Hname, String.eqb_refl, orb_true_r. reflexivity.
Qed.

Lemma Fueled_le {A} n n' (m : M A) : n' <= n -> Fueled n m -> Fueled n' m.
Proof. intros Hle Hm st Hst. apply Hm. lia. Qed.

Lemma Fueled_ret {A} n (a : A) : Fueled n (ret a).
Proof. intros st _. discriminate. Qed.

Lemma Fueled_throw {A} n e : Fueled n (@throw A e).
Proof. intros st _. discriminate. Qed.

Lemma Fueled_getState n : Fueled n getState.
Proof. intros st _. discriminate. Qed.

Lemma Fueled_logRecords n rs : Fueled n (logRecords rs).
Proof. intros st _. discriminate. Qed.

Lemma Fueled_readInstance n addr : Fueled n (readInstance addr).
Proof.
  intros st _. unfold readInstance. destruct (tank st !! addr); discriminate.
Qed.

Lemma Fueled_readDefinition n idx : Fueled n (readDefinition idx).
Proof.
  intros st _. unfold readDefinition.
  destruct (pkgInstances st !! idx); discriminate.
Qed.

Lemma Fueled_modifyInstance n addr f : Fueled n (modifyInstance addr f).
Proof. intros st _. discriminate. Qed.

Lemma Fueled_modifyDefinition n idx f : Fueled n (modifyDefinition idx f).
Proof. intros st _. discriminate. Qed.

Lemma Fueled_bind {A B} n (m : M A) (k : A -> M B) :
  Fueled n m -> Framed m -> (forall a, Fueled n (k a)) ->
  Fueled n (bind m k).
Proof.
  intros Hm Hframe Hk st Hst. unfold bind.
  specialize (Hm st Hst). specialize (Hframe st).
  destruct (m st) as [[a| |] st']; simpl in *; try discriminate;
    try congruence.
  apply Hk. pose proof (remaining_Extends _ _ Hframe). lia.
Qed.

Lemma Fueled_tryCatch {A} n (m : M A) handler :
  Fueled n m -> Framed m -> (forall e, Fueled n (handler e)) ->
  Fueled n (tryCatch m handler).
Proof.
  intros Hm Hframe Hh st Hst. unfold tryCatch.
  specialize (Hm st Hst). specialize (Hframe st).
  destruct (m st) as [[a| |] st']; simpl in *; try discriminate;
    try congruence.
  apply Hh. pose proof (remaining_Extends _ _ Hframe). lia.
Qed.

Create HintDb fueled.

#[local] Hint Resolve Fueled_ret Fueled_throw Fueled_getState
  Fueled_logRecords Fueled_readInstance Fueled_readDefinition
  Fueled_modifyInstance Fueled_modifyDefinition : fueled.

Ltac fueled :=
  repeat first
    [ simple apply Fueled_bind; [| |intro]
    | solve [auto with fueled]
    | solve [framed]
    | progress unfold loggerError, loggerWarn, loggerInfo ].

Section Fuel.
Context `{Collaborators}.

Lemma Fueled_fishForFHIRWith n rec item :
  (forall a, Framed (rec a)) -> (forall a, Fueled n (rec a)) ->
  Fueled n (fishForFHIRWith rec item).
Proof.
  intros Hframe Hrec. unfold fishForFHIRWith.
  apply Fueled_bind; [fueled|framed|]. intros st.
  destruct (packageFishInstance _ _); [fueled|].
  destruct (tankFishInstance _ _); fueled.
Qed.

Lemma Fueled_convertInstanceRules n fish rs :
  (forall item, Framed (fish item)) -> (forall item, Fueled n (fish item)) ->
  Fueled n (convertInstanceRules fish rs).
Proof.
  intros Hframe Hfish. induction rs as [|r rs IH]; simpl; [fueled|].
  pose proof (Framed_convertInstanceRules fish rs Hframe) as Hrest.
  destruct (isInstance r); [|fueled].
  apply Fueled_bind.
  - destruct (value r); fueled.
  - destruct (value r); framed.
  - intros [i|]; fueled.
Qed.

Lemma Fueled_validateRules n irp rs sd ruleMap :
  Fueled n (validateRules irp rs sd ruleMap).
Proof.
  revert sd ruleMap. induction rs as [|r rs IH]; intros sd ruleMap; simpl;
    [fueled|].
  apply Fueled_bind; [fueled|framed|]. intros st.
  destruct (validateValueAtPath _ _ _ _ _) as [sd' [msg|v]]; fueled;
    apply IH.
Qed.

Lemma Fueled_updateDefinition n idx f : Fueled n (updateDefinition idx f).
Proof. unfold updateDefinition. fueled. Qed.

Lemma Fueled_setAssignedValues n fish addr idx sd :
  (forall item, Framed (fish item)) -> (forall item, Fueled n (fish item)) ->
  Fueled n (setAssignedValues fish addr idx sd).
Proof.
  intros Hframe Hfish. unfold setAssignedValues.
  apply Fueled_bind.
  - unfold prepareRules. fueled.
    apply Fueled_convertInstanceRules; assumption.
  - apply Framed_prepareRules. exact Hframe.
  - intros rules. unfold assignValidated. fueled.
    + apply Fueled_validateRules.
    + apply Framed_validateRules.
    + apply Fueled_updateDefinition.
    + apply Framed_updateDefinition. intros.
      apply instanceMeta_setProperties.
    + apply Fueled_updateDefinition.
    + apply Framed_updateDefinition. intros.
      apply instanceMeta_setProperties.
Qed.

Lemma Fueled_validateAndCheck n fshDefinition idx sd :
  Fueled n (validateAndCheck fshDefinition idx sd).
Proof.
  unfold validateAndCheck, validateRequiredElements. fueled.
  - apply Framed_modifyDefinition. intros. apply instanceMeta_validateId.
  - apply Framed_modifyDefinition. reflexivity.
  - unfold checkDuplicateId. fueled. destruct (hasDuplicate _ _ _); fueled.
  - apply Framed_checkDuplicateId.
Qed.

Lemma Fueled_exportPushed n rec addr fshDefinition idx sd :
  (forall a, Framed (rec a)) -> (forall a, Fueled n (rec a)) ->
  Fueled n (exportPushed rec addr fshDefinition idx sd).
Proof.
  intros Hframe Hrec. unfold exportPushed. fueled.
  - apply Fueled_setAssignedValues; intros item.
    + apply Framed_fishForFHIRWith. exact Hframe.
    + apply Fueled_fishForFHIRWith; assumption.
  - apply Framed_setAssignedValues. intros item.
    apply Framed_fishForFHIRWith. exact Hframe.
  - apply Fueled_validateAndCheck.
Qed.

(** With more fuel than there are Instances still to be exported, an export
    does not run out of fuel. *)
Lemma Fueled_exportInstance fuel n addr :
  n < fuel -> Fueled n (exportInstance fuel addr).
Proof.
  revert n addr. induction fuel as [|fuel IH]; intros n addr Hn; [lia|].
  intros st Hst. simpl. unfold exportInstanceBody.
  destruct (tank st !! addr) as [fsh|] eqn:Hfsh.
  - rewrite (bind_readInstance _ _ _ _ Hfsh), bind_getState.
    destruct (alreadyExported _ _) eqn:Hguard; [discriminate|].
    unfold bind.
    pose proof (Framed_resolveInstanceOf addr st) as Hres.
    pose proof (pkgInstances_resolveInstanceOf addr st) as Hpkg.
    rewrite (resolveInstanceOf_run _ _ _ Hfsh) in *.
    assert (Hrun : forall sd isResource st1,
               Extends st st1 -> pkgInstances st1 = pkgInstances st ->
               (exportResolved (exportInstance fuel) addr sd isResource st1).1
               <> OutOfFuel).
    { intros sd isResource st1 Hext Hpkg1.
      destruct (Extends_lookup_tank _ _ _ _ Hext Hfsh)
        as (fsh1 & Hfsh1 & Hfz).
      assert (Hid : id fsh1 = id fsh) by (unfold frozen in Hfz; congruence).
      unfold exportResolved.
      rewrite (bind_readInstance _ _ _ _ Hfsh1), bind_pushDefinition.
      assert (Hlt : remaining
                      (mkState (tank st1)
                         (pkgInstances st1
                          ++ [newInstanceDefinition fsh1 sd isResource])
                         (log st1)) < remaining st1).
      { apply (remaining_push _ addr fsh1); [exact Hfsh1| |].
        - rewrite Hpkg1, Hid. exact Hguard.
        - apply metaName_newInstanceDefinition. }
      pose proof (remaining_Extends _ _ Hext) as Hle.
      apply (Fueled_exportPushed (n - 1)).
      - intros a. apply Framed_exportInstance.
      - intros a. apply IH. lia.
      - lia. }
    destruct (fisherFishForFHIR _ _) as [json|]; [|discriminate].
    destruct (String.eqb (kind json) "resource").
    + apply Hrun; [apply Extends_refl|reflexivity].
    + destruct (bool_decide (usage fsh = Some Inline)).
      * apply Hrun; [apply Extends_refl|reflexivity].
      * apply Hrun; [exact Hres|reflexivity].
  - unfold bind, readInstance. rewrite Hfsh. discriminate.
Qed.

Lemma remaining_le_tank st : remaining st <= length (tank st).
Proof.
  unfold remaining. rewrite <- (length_map id (tank st)).
  induction (map id (tank st)) as [|x l IH]; simpl; [lia|].
  destruct (negb _); simpl; lia.
Qed.

Lemma exportEach_cons fuel addr rest st :
  exportEach fuel (addr :: rest) st
  = match exportInstance fuel addr st with
    | (Returned _, st') => exportEach fuel rest st'
    | (Thrown e, st') =>
        exportEach fuel rest
          (mkState (tank st') (pkgInstances st')
             (log st' ++ [mkLogRecord LError (exceptionMessage e)
                            (exceptionSourceInfo e)]))
    | (OutOfFuel, st') => (OutOfFuel, st')
    end.
Proof.
  simpl. unfold bind, tryCatch.
  destruct (exportInstance fuel addr st) as [[r| |] st']; reflexivity.
Qed.

Lemma exportEach_outcome fuel addrs st :
  (exportEach fuel addrs st).1 = Returned tt
  \/ (exportEach fuel addrs st).1 = OutOfFuel.
Proof.
  revert st. induction addrs as [|addr rest IH]; intros st; [simpl; auto|].
  rewrite exportEach_cons.
  destruct (exportInstance fuel addr st) as [[r| |] st']; simpl; auto.
Qed.

Lemma Fueled_exportEach fuel n addrs :
  n < fuel -> Fueled n (exportEach fuel addrs).
Proof.
  intros Hn. induction addrs as [|addr rest IH]; simpl; [fueled|].
  apply Fueled_bind; [| |intros; exact IH].
  - apply Fueled_tryCatch; [| |intros; fueled].
    + apply Fueled_bind; [|apply Framed_exportInstance|intros; fueled].
      apply Fueled_exportInstance. exact Hn.
    + apply Framed_bind; [apply Framed_exportInstance|intros; framed].
  - apply Framed_tryCatch; [|intros; framed].
    apply Framed_bind; [apply Framed_exportInstance|intros; framed].
Qed.

(** [export] does not throw, and returns when it has more fuel than the Tank
    has Instances. *)
Lemma export_returns fuel st :
  length (tank st) < fuel -> (export fuel st).1 = Returned tt.
Proof.
  intros Hfuel. unfold export. rewrite bind_getState. unfold bind.
  pose proof (exportEach_outcome fuel (seq 0 (length (tank st))) st) as Hout.
  pose proof (Fueled_exportEach fuel (length (tank st))
                (seq 0 (length (tank st))) Hfuel st (remaining_le_tank st))
    as Hfueled.
  destruct (exportEach fuel _ st) as [[[]| |] st']; simpl in *.
  - destruct (0 <? _); reflexivity.
  - destruct Hout; discriminate.
  - contradiction.
Qed.

End Fuel.

(** *** Implied and explicit values *)

Lemma mapSet_keys {V} k (v : V) m :
  map fst (Js.mapSet k v m)
  = if bool_decide (k ∈ map fst m) then map fst m else map fst m ++ [k].
Proof.
  induction m as [|[k' v'] m IH].
  - case_bool_decide as Hin; [|reflexivity].
    apply elem_of_nil in Hin. destruct Hin.
  - cbn [Js.mapSet map fst].
    destruct (String.eqb_spec k' k) as [->|Hne]; cbn [map fst].
    + rewrite bool_decide_eq_true_2 by (apply list_elem_of_here).
      reflexivity.
    + rewrite IH. case_bool_decide as Hin.
      * rewrite bool_decide_eq_true_2
          by (apply list_elem_of_further; exact Hin).
        reflexivity.
      * rewrite bool_decide_eq_false_2; [reflexivity|].
        intros Hin'. apply elem_of_cons in Hin' as [->|Hin'];
          contradiction.
Qed.

Lemma mapSet_NoDup {V} k (v : V) m :
  NoDup (map fst m) -> NoDup (map fst (Js.mapSet k v m)).
Proof.
  intros Hnd. rewrite mapSet_keys.
  destruct (bool_decide (k ∈ map fst m)) eqn:Hin; [exact Hnd|].
  apply bool_decide_eq_false in Hin.
  apply NoDup_app. split; [exact Hnd|]. split; [|apply NoDup_singleton].
  intros x Hx Hx'. apply list_elem_of_singleton in Hx'. subst x. contradiction.
Qed.

Lemma mapSet_elem_inv {V} k (v : V) m e :
  e ∈ Js.mapSet k v m -> e = (k, v) \/ e ∈ m.
Proof.
  induction m as [|[k' v'] m IH]; simpl.
  - rewrite list_elem_of_singleton. auto.
  - destruct (String.eqb k' k); rewrite !elem_of_cons.
    + intros [->|Hin]; auto.
    + intros [->|Hin]; auto. destruct (IH Hin); auto.
Qed.

Lemma mapSet_elem_new {V} k (v : V) m : (k, v) ∈ Js.mapSet k v m.
Proof.
  induction m as [|[k' v'] m IH]; simpl.
  - apply list_elem_of_here.
  - destruct (String.eqb k' k).
    + apply list_elem_of_here.
    + apply list_elem_of_further. exact IH.
Qed.

Lemma mapSet_elem_old {V} k (v : V) m e :
  e ∈ m -> e.1 <> k -> e ∈ Js.mapSet k v m.
Proof.
  intros Hin Hne. induction m as [|[k' v'] m IH]; simpl.
  - apply elem_of_nil in Hin. destruct Hin.
  - apply elem_of_cons in Hin as [->|Hin].
    + simpl in Hne. destruct (String.eqb_spec k' k); [contradiction|].
      apply list_elem_of_here.
    + destruct (String.eqb k' k); apply list_elem_of_further; auto.
Qed.

Lemma recordRules_NoDup vs m :
  NoDup (map fst m) -> NoDup (map fst (recordRules vs m)).
Proof.
  revert m. induction vs as [|e vs IH]; intros m Hnd; simpl; [exact Hnd|].
  apply IH. apply mapSet_NoDup. exact Hnd.
Qed.

Lemma recordRules_elem_inv vs m e :
  e ∈ recordRules vs m -> e ∈ vs \/ e ∈ m.
Proof.
  revert m. induction vs as [|[p x] vs IH]; intros m; simpl; [auto|].
  intros Hin. destruct (IH _ Hin) as [Hvs|Hm].
  - left. apply list_elem_of_further. exact Hvs.
  - apply mapSet_elem_inv in Hm as [->|Hm]; [|auto].
    left. apply list_elem_of_here.
Qed.

Lemma recordRules_elem_old vs m e :
  e ∈ m -> e.1 ∉ map fst vs -> e ∈ recordRules vs m.
Proof.
  revert m. induction vs as [|[p x] vs IH]; intros m Hin Hfresh; simpl;
    [exact Hin|].
  simpl in Hfresh. apply not_elem_of_cons in Hfresh as [Hne Hfresh].
  apply IH; [|exact Hfresh]. apply mapSet_elem_old; assumption.
Qed.

(** The last rule on a path is the one that [ruleMap] holds. *)
Lemma recordRules_last vs m before p x after :
  vs = before ++ (p, x) :: after -> p ∉ map fst after ->
  (p, x) ∈ recordRules vs m.
Proof.
  intros -> Hlast. revert m.
  induction before as [|e before IH]; intros m; simpl.
  - apply recordRules_elem_old; [apply mapSet_elem_new|exact Hlast].
  - apply IH.
Qed.

Section Assigning.
Context `{Collaborators}.

Lemma setProperties_cons instances pv l d :
  setProperties instances (pv :: l) d
  = setProperties instances l (setPropertyOnInstance instances d pv.1 pv.2).
Proof. reflexivity. Qed.

Lemma setProperties_app instances l1 l2 d :
  setProperties instances (l1 ++ l2) d
  = setProperties instances l2 (setProperties instances l1 d).
Proof. unfold setProperties. apply fold_left_app. Qed.

(** A path that no assignment names keeps its value. *)
Lemma setProperties_untouched instances l d k :
  (forall pv, pv ∈ l -> pathKey pv.1 <> k) ->
  properties (setProperties instances l d) !! k = properties d !! k.
Proof.
  revert d. induction l as [|pv l IH]; intros d Hl; [reflexivity|].
  rewrite setProperties_cons, IH.
  - unfold setPropertyOnInstance, setProperty. simpl.
    apply lookup_insert_ne. apply Hl. apply list_elem_of_here.
  - intros pv' Hin. apply Hl. apply list_elem_of_further. exact Hin.
Qed.

(** A path holds the value of the last assignment that names it. *)
Lemma setProperties_last instances l d k before parts v after :
  l = before ++ (parts, v) :: after ->
  pathKey parts = k ->
  (forall pv, pv ∈ after -> pathKey pv.1 <> k) ->
  properties (setProperties instances l d) !! k
  = Some (storedValue instances (setProperties instances before d) v).
Proof.
  intros -> Hk Hafter.
  rewrite setProperties_app, setProperties_cons.
  rewrite (setProperties_untouched _ _ _ _ Hafter).
  unfold setPropertyOnInstance, setProperty. simpl. rewrite Hk.
  apply lookup_insert_eq.
Qed.

Lemma validateRules_run irp rs sd ruleMap st :
  validateRules irp rs sd ruleMap st
  = (Returned ((validRules (pkgInstances st) irp rs sd).1,
               recordRules (validRules (pkgInstances st) irp rs sd).2
                 ruleMap),
     mkState (tank st) (pkgInstances st)
       (log st ++ validationErrors (pkgInstances st) irp rs sd)).
Proof.
  revert sd ruleMap st.
  induction rs as [|r rs IH]; intros sd ruleMap st; simpl.
  - unfold ret. rewrite app_nil_r. destruct st; reflexivity.
  - rewrite bind_getState.
    destruct (validateValueAtPath _ _ _ _ _) as [sd' [msg|v]]; simpl.
    + unfold loggerError. rewrite bind_logRecords, IH. simpl.
      rewrite <- app_assoc. reflexivity.
    + rewrite IH. reflexivity.
Qed.

End Assigning.

Section Assigned.
Context `{Collaborators}.

Lemma alter_insert {A} (f : A -> A) (l : list A) i x :
  l !! i = Some x -> alter f i l = <[i := f x]> l.
Proof.
  revert i. induction l as [|y l IH]; intros [|i] Hi; simpl in *;
    try discriminate.
  - congruence.
  - f_equal. apply IH. exact Hi.
Qed.

Lemma assignValidated_run idx rules sd st d0 :
  pkgInstances st !! idx = Some d0 ->
  let instances := pkgInstances st in
  let valid :=
    validRules instances
      (flat_map (inlineResourcePathsOf instances) rules) rules sd in
  let implied :=
    setImpliedPropertiesOnInstance instances d0 valid.1
      ("" :: map path rules) in
  let instances' := <[idx := implied]> instances in
  assignValidated idx rules sd st
  = (Returned valid.1,
     mkState (tank st)
       (<[idx := setProperties instances'
                   (map snd (recordRules valid.2 [])) implied]> instances)
       (log st
        ++ validationErrors instances
             (flat_map (inlineResourcePathsOf instances) rules) rules sd)).
Proof.
  intros Hd0 instances valid implied instances'.
  unfold assignValidated. rewrite bind_getState.
  unfold bind at 1. rewrite validateRules_run. cbn [fst snd].
  fold instances. fold valid.
  unfold updateDefinition.
  rewrite bind_assoc, bind_getState, bind_modifyDefinition.
  cbn [tank pkgInstances log]. fold instances.
  rewrite bind_assoc, bind_getState, bind_modifyDefinition.
  cbn [tank pkgInstances log]. unfold ret.
  rewrite (alter_insert _ _ _ _ Hd0). fold implied. fold instances'.
  assert (Hlen : idx < length instances)
    by (eapply lookup_lt_Some; exact Hd0).
  rewrite (alter_insert _ instances' idx implied)
    by (subst instances'; apply list_lookup_insert_eq; exact Hlen).
  subst instances'. rewrite list_insert_insert_eq. reflexivity.
Qed.

End Assigned.

Section Ordering.
Context `{Collaborators}.

Lemma elem_of_impliedAssignments sd paths pv :
  pv ∈ impliedAssignments sd paths <->
  exists p q, p ∈ paths /\ q ∈ reachedBy p /\ pv ∈ impliedProperties sd q.
Proof.
  unfold impliedAssignments. rewrite !list_elem_of_In, in_flat_map. split.
  - intros (q & Hq & Hpv). apply in_flat_map in Hq as (p & Hp & Hq).
    exists p, q. rewrite !list_elem_of_In. auto.
  - intros (p & q & Hp & Hq & Hpv). rewrite !list_elem_of_In in *.
    exists q. split; [|exact Hpv]. apply in_flat_map. eauto.
Qed.

(** The value that the rules leave at a concrete path, among rules whose
    paths and concrete paths determine each other. *)
Lemma recordRules_lookup instances (vs : list ValidatedRule) d k
    before p parts v after :
  (forall e1 e2, e1 ∈ vs -> e2 ∈ vs ->
     (e1.1 = e2.1 <-> pathKey e1.2.1 = pathKey e2.2.1)) ->
  vs = before ++ (p, (parts, v)) :: after ->
  pathKey parts = k ->
  (forall e, e ∈ after -> pathKey e.2.1 <> k) ->
  exists d',
    properties (setProperties instances (map snd (recordRules vs [])) d) !! k
    = Some (storedValue instances d' v).
Proof.
  intros Hpaths Hvs Hk Hafter.
  assert (Hin : (p, (parts, v)) ∈ vs).
  { rewrite Hvs. apply elem_of_app. right. apply list_elem_of_here. }
  assert (Hlast : p ∉ map fst after).
  { intros Hp. apply list_elem_of_In, in_map_iff in Hp as (e & He & Hein).
    apply list_elem_of_In in Hein.
    assert (Hevs : e ∈ vs).
    { rewrite Hvs. apply elem_of_app. right. apply list_elem_of_further.
      exact Hein. }
    apply (Hafter e Hein). rewrite <- Hk.
    apply (Hpaths e (p, (parts, v)) Hevs Hin). exact He. }
  pose proof (recordRules_last vs [] before p (parts, v) after Hvs Hlast)
    as Hrecorded.
  apply list_elem_of_split in Hrecorded as (m1 & m2 & Hmap).
  pose proof (recordRules_NoDup vs [] (NoDup_nil_2)) as Hnd.
  rewrite Hmap in Hnd. rewrite map_app in Hnd. simpl in Hnd.
  apply NoDup_app in Hnd as (_ & Hm1 & Hnd2).
  apply NoDup_cons in Hnd2 as [Hm2 _].
  exists (setProperties instances (map snd m1) d).
  rewrite Hmap, map_app. simpl map.
  apply (setProperties_last _ _ _ _ _ parts v (map snd m2)); [reflexivity
    |exact Hk|].
  intros pv Hpv. apply list_elem_of_In, in_map_iff in Hpv
    as ([p' x'] & <- & Hein).
  apply list_elem_of_In in Hein. simpl. intros Hkey.
  assert (He' : (p', x') ∈ vs).
  { destruct (recordRules_elem_inv vs [] (p', x')) as [Hvs'|Hnil].
    - rewrite Hmap. apply elem_of_app. right. apply list_elem_of_further.
      exact Hein.
    - exact Hvs'.
    - apply elem_of_nil in Hnil. destruct Hnil. }
  assert (Hp' : p' = p).
  { apply (Hpaths (p', x') (p, (parts, v)) He' Hin). simpl. congruence. }
  subst p'. apply Hm2. apply list_elem_of_In, in_map_iff.
  exists (p, x'). split; [reflexivity|]. apply list_elem_of_In. exact Hein.
Qed.

Lemma recordRules_untouched instances (vs : list ValidatedRule) d k :
  (forall e, e ∈ vs -> pathKey e.2.1 <> k) ->
  properties (setProperties instances (map snd (recordRules vs [])) d) !! k
  = properties d !! k.
Proof.
  intros Hvs. apply setProperties_untouched. intros pv Hpv.
  apply list_elem_of_In, in_map_iff in Hpv as (e & <- & Hein).
  apply list_elem_of_In in Hein.
  destruct (recordRules_elem_inv vs [] e Hein) as [He|Hnil].
  - apply Hvs. exact He.
  - apply elem_of_nil in Hnil. destruct Hnil.
Qed.


End Ordering.

(** *** One export for each instance *)

Section Once.
Context `{Collaborators}.

Lemma Extends_lookup_meta st st' idx d :
  Extends st st' -> pkgInstances st !! idx = Some d ->
  exists d', pkgInstances st' !! idx = Some d'
             /\ instanceMeta d' = instanceMeta d.
Proof.
  intros [_ _ [more Hm] _ _] Hd.
  assert (Hl : map instanceMeta (pkgInstances st') !! idx
               = Some (instanceMeta d)).
  { rewrite Hm. apply lookup_app_l_Some.
    change map with (@fmap list _). rewrite list_lookup_fmap, Hd.
    reflexivity. }
  change map with (@fmap list _) in Hl. rewrite list_lookup_fmap in Hl.
  destruct (pkgInstances st' !! idx) as [d'|]; [|discriminate].
  exists d'. split; [reflexivity|]. simpl in Hl. congruence.
Qed.

Lemma bind_Returned {A B} (m : M A) (k : A -> M B) st r st' :
  bind m k st = (Returned r, st') ->
  exists a st1, m st = (Returned a, st1) /\ k a st1 = (Returned r, st').
Proof.
  unfold bind. destruct (m st) as [[a| |] st1]; try discriminate. eauto.
Qed.

Lemma validateAndCheck_Returned fshDefinition idx sd st r st' :
  validateAndCheck fshDefinition idx sd st = (Returned r, st') ->
  r = Some idx.
Proof.
  unfold validateAndCheck. intros Hrun.
  repeat (apply bind_Returned in Hrun as (? & ? & _ & Hrun)).
  unfold ret in Hrun. congruence.
Qed.

Lemma exportPushed_Returned rec addr fshDefinition idx sd st r st' :
  exportPushed rec addr fshDefinition idx sd st = (Returned r, st') ->
  r = Some idx.
Proof.
  unfold exportPushed. intros Hrun.
  repeat (apply bind_Returned in Hrun as (? & ? & _ & Hrun)).
  unfold ret in Hrun. congruence.
Qed.

(** What an export that passes the guard leaves behind, however it ends:
    the new definition, at the end of what the Package was. *)
Lemma exportResolved_pushed rec addr sd isResource st fsh :
  (forall a, Framed (rec a)) ->
  tank st !! addr = Some fsh ->
  alreadyExported (id fsh) (pkgInstances st) = false ->
  let result := exportResolved rec addr sd isResource st in
  (exists d,
      pkgInstances result.2 !! length (pkgInstances st) = Some d
      /\ instanceMeta d
         = instanceMeta (newInstanceDefinition fsh sd isResource))
  /\ alreadyExported (id fsh) (pkgInstances result.2) = true
  /\ (forall r, result.1 = Returned r -> r = Some (length (pkgInstances st))).
Proof.
  intros Hrec Hfsh Hnew result. subst result. unfold exportResolved.
  rewrite (bind_readInstance _ _ _ _ Hfsh), bind_pushDefinition.
  set (d0 := newInstanceDefinition fsh sd isResource).
  set (st2 := mkState _ _ _).
  pose proof (Framed_exportPushed rec addr fsh (length (pkgInstances st)) sd
                Hrec st2) as Hext.
  assert (Hd0 : pkgInstances st2 !! length (pkgInstances st) = Some d0).
  { subst st2. simpl. rewrite lookup_app_r by lia.
    rewrite Nat.sub_diag. reflexivity. }
  split; [exact (Extends_lookup_meta _ _ _ _ Hext Hd0)|]. split.
  - apply (alreadyExported_Extends _ _ _ Hext). subst st2. simpl.
    unfold alreadyExported. rewrite existsb_app. simpl.
    subst d0. rewrite metaName_newInstanceDefinition, String.eqb_refl.
    apply orb_true_r.
  - intros r Hr.
    destruct (exportPushed _ _ _ _ _ st2) as [out st'] eqn:Hrun.
    simpl in Hr. subst out.
    apply (exportPushed_Returned _ _ _ _ _ _ _ _ Hrun).
Qed.

Lemma exportInstance_guard fuel addr st fsh :
  tank st !! addr = Some fsh ->
  alreadyExported (id fsh) (pkgInstances st) = true ->
  exportInstance (S fuel) addr st = (Returned None, st).
Proof.
  intros Hfsh Hguard. simpl. unfold exportInstanceBody.
  rewrite (bind_readInstance _ _ _ _ Hfsh), bind_getState, Hguard.
  reflexivity.
Qed.

(** The state in which the definition of an Instance has been resolved. *)
Lemma resolved_state addr st fsh out st1 :
  tank st !! addr = Some fsh ->
  resolveInstanceOf addr st = (out, st1) ->
  pkgInstances st1 = pkgInstances st
  /\ exists fsh1, tank st1 !! addr = Some fsh1 /\ id fsh1 = id fsh.
Proof.
  intros Hfsh Hrun.
  pose proof (Framed_resolveInstanceOf addr st) as Hext.
  pose proof (pkgInstances_resolveInstanceOf addr st) as Hpkg.
  rewrite Hrun in Hext, Hpkg. simpl in *. split; [exact Hpkg|].
  destruct (Extends_lookup_tank _ _ _ _ Hext Hfsh) as (fsh1 & Hfsh1 & Hfz).
  exists fsh1. split; [exact Hfsh1|]. unfold frozen in Hfz. congruence.
Qed.

Lemma exportInstance_Returned fuel addr st fsh r st' :
  tank st !! addr = Some fsh ->
  exportInstance fuel addr st = (Returned r, st') ->
  alreadyExported (id fsh) (pkgInstances st') = true.
Proof.
  intros Hfsh Hrun. destruct fuel as [|fuel]; [discriminate|].
  simpl in Hrun. unfold exportInstanceBody in Hrun.
  rewrite (bind_readInstance _ _ _ _ Hfsh), bind_getState in Hrun.
  destruct (alreadyExported _ _) eqn:Hguard.
  - unfold ret in Hrun. congruence.
  - apply bind_Returned in Hrun as ([sd isResource] & st1 & Hres & Hrun).
    destruct (resolved_state _ _ _ _ _ Hfsh Hres)
      as (Hpkg & fsh1 & Hfsh1 & Hid).
    assert (Hnew : alreadyExported (id fsh1) (pkgInstances st1) = false)
      by (rewrite Hpkg, Hid; exact Hguard).
    destruct (exportResolved_pushed (exportInstance fuel) addr sd isResource
                st1 fsh1 (Framed_exportInstance fuel) Hfsh1 Hnew)
      as (_ & Hin & _).
    simpl in Hrun. rewrite Hrun in Hin. rewrite <- Hid. exact Hin.
Qed.

(** C9.  Exporting an instance is idempotent for the Package:
    - a call to [exportInstance] for an Instance whose id already names an
      instance of the Package returns nothing and leaves the Package, the
      Tank and the log as they were;
    - the names of the instances of the Package stay distinct through
      [exportInstance] and through [export];
    - when [exportInstance] returns, the Package, if its names were
      distinct, holds exactly one instance named by the id of the
      Instance. *)
Theorem instance_exported_once :
  (forall fuel addr st fsh,
      tank st !! addr = Some fsh ->
      alreadyExported (id fsh) (pkgInstances st) = true ->
      exportInstance (S fuel) addr st = (Returned None, st))
  /\ (forall fuel addr st,
         NoDup (names (pkgInstances st)) ->
         NoDup (names (pkgInstances (exportInstance fuel addr st).2)))
  /\ (forall fuel st,
         NoDup (names (pkgInstances st)) ->
         NoDup (names (pkgInstances (export fuel st).2)))
  /\ (forall fuel addr st fsh r st',
         tank st !! addr = Some fsh ->
         NoDup (names (pkgInstances st)) ->
         exportInstance fuel addr st = (Returned r, st') ->
         count_occ string_dec (names (pkgInstances st')) (id fsh) = 1).
Proof.
  split; [exact exportInstance_guard|]. split; [|split].
  - intros fuel addr st. apply (Framed_exportInstance fuel addr st).
  - intros fuel st. apply (Framed_export fuel st).
  - intros fuel addr st fsh r st' Hfsh Hnd Hrun.
    pose proof (extendsNoDup _ _ (Framed_exportInstance fuel addr st) Hnd)
      as Hnd'.
    rewrite Hrun in Hnd'. simpl in Hnd'.
    apply NoDup_count_occ'; [apply NoDup_ListNoDup; exact Hnd'|].
    apply list_elem_of_In. apply alreadyExported_names.
    apply (exportInstance_Returned _ _ _ _ _ _ Hfsh Hrun).
Qed.

End Once.

(** *** Resolution of instanceOf, and failures *)

Section Resolving.
Context `{Collaborators}.

Lemma exportInstance_unresolved fuel addr st fsh :
  tank st !! addr = Some fsh ->
  alreadyExported (id fsh) (pkgInstances st) = false ->
  fisherFishForFHIR (instanceOf fsh) [TResource; TProfile; TExtension; TType]
  = None ->
  exportInstance (S fuel) addr st
  = (Thrown (InstanceOfNotDefinedError (name fsh) (instanceOf fsh)
               (sourceInfo fsh)), st).
Proof.
  intros Hfsh Hguard Hfish. simpl. unfold exportInstanceBody.
  rewrite (bind_readInstance _ _ _ _ Hfsh), bind_getState, Hguard.
  unfold bind. rewrite (resolveInstanceOf_run _ _ _ Hfsh), Hfish.
  reflexivity.
Qed.

Lemma exportInstance_resolved fuel addr st fsh sd isResource st1 :
  tank st !! addr = Some fsh ->
  alreadyExported (id fsh) (pkgInstances st) = false ->
  resolveInstanceOf addr st = (Returned (sd, isResource), st1) ->
  exportInstance (S fuel) addr st
  = exportResolved (exportInstance fuel) addr sd isResource st1.
Proof.
  intros Hfsh Hguard Hres. simpl. unfold exportInstanceBody.
  rewrite (bind_readInstance _ _ _ _ Hfsh), bind_getState, Hguard.
  unfold bind. rewrite Hres. reflexivity.
Qed.

(** C2.  For an Instance that is not yet in the Package, [exportInstance]
    fishes for its instanceOf with the kinds Resource, Profile, Extension
    and Type, in this order.
    - If nothing is found, it throws [InstanceOfNotDefinedError] for the
      Instance, and the Package, the Tank and the log are as they were: the
      instance is skipped.
    - If what is found is not of kind [resource], the usage of the Instance
      is set to Inline, and the warning that it is not an instance of a
      resource is logged if and only if its usage was not Inline already;
      the export goes on from there, and when it returns, the definition
      that it added to the Package has the usage Inline, the Instance of the
      Tank has the usage Inline, and the log starts with what it was,
      followed by the warning, if any.
    - If what is found is of kind [resource], the usage is not touched and
      nothing is logged. *)
Theorem instanceOf_resolved (fuel addr : nat) (st : State) (fsh : Instance) :
  tank st !! addr = Some fsh ->
  alreadyExported (id fsh) (pkgInstances st) = false ->
  let found :=
    fisherFishForFHIR (instanceOf fsh)
      [TResource; TProfile; TExtension; TType] in
  (found = None ->
   exportInstance (S fuel) addr st
   = (Thrown (InstanceOfNotDefinedError (name fsh) (instanceOf fsh)
                (sourceInfo fsh)), st))
  /\ (forall json,
         found = Some json -> kind json <> "resource" ->
         let warning :=
           if bool_decide (usage fsh = Some Inline) then []
           else [mkLogRecord LWarn (NotAnInstanceOfAResource (name fsh))
                   (Some (sourceInfo fsh))] in
         let st1 :=
           if bool_decide (usage fsh = Some Inline) then st
           else mkState (alter (setUsage (Some Inline)) addr (tank st))
                  (pkgInstances st) (log st ++ warning) in
         resolveInstanceOf addr st = (Returned (json, false), st1)
         /\ exportInstance (S fuel) addr st
            = exportResolved (exportInstance fuel) addr json false st1
         /\ forall r st',
              exportInstance (S fuel) addr st = (Returned r, st') ->
              r = Some (length (pkgInstances st))
              /\ (exists d,
                     pkgInstances st' !! length (pkgInstances st) = Some d
                     /\ metaName (instanceMeta d) = id fsh
                     /\ metaUsage (instanceMeta d) = Some Inline)
              /\ (exists fsh',
                     tank st' !! addr = Some fsh'
                     /\ usage fsh' = Some Inline)
              /\ exists rest, log st' = log st ++ warning ++ rest)
  /\ (forall json,
         found = Some json -> kind json = "resource" ->
         resolveInstanceOf addr st = (Returned (json, true), st)).
Proof.
  intros Hfsh Hguard found. subst found. split; [|split].
  - apply exportInstance_unresolved; assumption.
  - intros json Hfound Hkind warning st1.
    assert (Hres : resolveInstanceOf addr st = (Returned (json, false), st1)).
    { rewrite (resolveInstanceOf_run _ _ _ Hfsh), Hfound.
      destruct (String.eqb_spec (kind json) "resource") as [Heq|_];
        [contradiction|].
      subst st1 warning. destruct (bool_decide _); reflexivity. }
    split; [exact Hres|].
    pose proof (exportInstance_resolved fuel _ _ _ _ _ _ Hfsh Hguard Hres)
      as Hexport.
    split; [exact Hexport|].
    intros r st' Hrun. rewrite Hexport in Hrun.
    assert (Hst1 : exists fsh1,
               tank st1 !! addr = Some fsh1 /\ id fsh1 = id fsh
               /\ usage fsh1 = Some Inline
               /\ pkgInstances st1 = pkgInstances st
               /\ log st1 = log st ++ warning).
    { subst st1 warning. case_bool_decide as Hinline.
      - exists fsh. rewrite app_nil_r. auto.
      - exists (setUsage (Some Inline) fsh). simpl.
        rewrite list_lookup_alter_eq, Hfsh. auto. }
    destruct Hst1 as (fsh1 & Hfsh1 & Hid & Husage & Hpkg & Hlog).
    assert (Hnew : alreadyExported (id fsh1) (pkgInstances st1) = false)
      by (rewrite Hpkg, Hid; exact Hguard).
    destruct (exportResolved_pushed (exportInstance fuel) addr json false
                st1 fsh1 (Framed_exportInstance fuel) Hfsh1 Hnew)
      as ((d & Hd & Hmeta) & _ & Hr).
    pose proof (Extends_exportResolved (exportInstance fuel) addr json false
                  st1 fsh1 (Framed_exportInstance fuel) Hfsh1 Hnew) as Hext.
    rewrite Hrun in Hd, Hr, Hext. simpl in Hd, Hr, Hext.
    rewrite Hpkg in Hd, Hr. split; [apply Hr; reflexivity|].
    split; [|split].
    + exists d. split; [exact Hd|]. rewrite Hmeta.
      rewrite metaName_newInstanceDefinition. split; [exact Hid|].
      simpl. exact Husage.
    + apply (extendsInline _ _ Hext addr fsh1 Hfsh1 Husage).
    + destruct (extendsLog _ _ Hext) as (rest & Hrest). exists rest.
      rewrite Hrest, Hlog, app_assoc. reflexivity.
  - intros json Hfound Hkind.
    rewrite (resolveInstanceOf_run _ _ _ Hfsh), Hfound, Hkind. reflexivity.
Qed.


End Resolving.

(** *** The examples *)

Lemma instance_exported_once_witness :
  exportInstance (H := exampleCollaborators) 1 0
    (mkState repeatedIdTank [patientDefinition "FirstExample" "repeated-id"]
       [])
  = (Returned None,
     mkState repeatedIdTank [patientDefinition "FirstExample" "repeated-id"]
       [])
  /\ NoDup (names (pkgInstances
              (export (H := exampleCollaborators) 3
                 (mkState repeatedIdTank [] [])).2))
  /\ count_occ string_dec
       (names (pkgInstances
                 (exportInstance (H := exampleCollaborators) 3 1
                    (mkState repeatedIdTank [] [])).2))
       "SecondExample" = 1.
Proof.
  destruct (instance_exported_once (H := exampleCollaborators))
    as (Hguard & _ & Hexport & Hcount).
  split; [|split].
  - apply (Hguard 0 0 _ (exampleInstance "FirstExample" "Patient"
                           [assign "id" (VString "repeated-id")]
                           (sourceAt "Repeat.fsh" 3 11)));
      reflexivity.
  - apply Hexport. apply NoDup_nil_2.
  - apply (Hcount 3 1 (mkState repeatedIdTank [] [])
             (exampleInstance "SecondExample" "Patient"
                [assign "id" (VString "repeated-id")]
                (sourceAt "Repeat.fsh" 13 20))
             (Some 0)
             (exportInstance (H := exampleCollaborators) 3 1
                (mkState repeatedIdTank [] [])).2).
    + reflexivity.
    + apply NoDup_nil_2.
    + vm_compute. reflexivity.
Defined.

Lemma instanceOf_resolved_witness :
  exportInstance (H := exampleCollaborators) 1 0 (mkState [bogusInstance] [] [])
  = (Thrown (InstanceOfNotDefinedError "Bogus" "BogusParent"
               (sourceAt "Bogus.fsh" 2 4)),
     mkState [bogusInstance] [] [])
  /\ resolveInstanceOf (H := exampleCollaborators) 0
       (mkState [quantityInstance] [] [])
     = (Returned (baseDefinition "Quantity" "complex-type", false),
        mkState [setUsage (Some Inline) quantityInstance] []
          [mkLogRecord LWarn (NotAnInstanceOfAResource "SomeQuantity")
             (Some (sourceAt "Quantity.fsh" 1 3))])
  /\ exists d,
       pkgInstances
         (exportInstance (H := exampleCollaborators) 1 0
            (mkState [quantityInstance] [] [])).2 !! 0 = Some d
       /\ metaUsage (instanceMeta d) = Some Inline.
Proof.
  split; [|split].
  - apply (instanceOf_resolved (H := exampleCollaborators) 0 0
             (mkState [bogusInstance] [] []) bogusInstance eq_refl eq_refl).
    reflexivity.
  - destruct (instanceOf_resolved (H := exampleCollaborators) 0 0
                (mkState [quantityInstance] [] []) quantityInstance
                eq_refl eq_refl) as (_ & Hother & _).
    destruct (Hother (baseDefinition "Quantity" "complex-type") eq_refl)
      as (Hres & _); [discriminate|]. exact Hres.
  - destruct (instanceOf_resolved (H := exampleCollaborators) 0 0
                (mkState [quantityInstance] [] []) quantityInstance
                eq_refl eq_refl) as (_ & Hother & _).
    destruct (Hother (baseDefinition "Quantity" "complex-type") eq_refl)
      as (_ & _ & Hfinal); [discriminate|].
    destruct (Hfinal (Some 0)
                (exportInstance (H := exampleCollaborators) 1 0
                   (mkState [quantityInstance] [] [])).2)
      as (_ & (d & Hd & _ & Husage) & _).
    + vm_compute. reflexivity.
    + exists d. split; [exact Hd|exact Husage].
Defined.




(** ** The scenarios of the tests, from the Tank to the Package *)

Section Scenarios.
#[local] Existing Instance exampleCollaborators.

(** Two Patients with the id [repeated-id] that are not inline: both are in
    the Package, and the one error is on the second. *)
Lemma repeated_id_scenario :
  let result := export 3 (mkState repeatedIdTank [] []) in
  result.1 = Returned tt
  /\ pkgInstances result.2 = repeatedIdPackage
  /\ log result.2
     = [ mkLogRecord LError
           (DuplicateInstanceId (Some (VString "Patient"))
              (Some (VString "repeated-id")))
           (Some (sourceAt "Repeat.fsh" 13 20));
         mkLogRecord LInfo (ConvertedInstances 2) None ].
Proof. vm_compute. repeat split. Qed.

(** A Patient that contains the Organization it refers to. *)
Lemma contained_reference_scenario :
  let result := export 3 (mkState organizationTank [] []) in
  result.1 = Returned tt
  /\ (properties <$> pkgInstances result.2 !! 0)
       ≫= (.!! [("managingOrganization", [])]) = Some (VReference "#org-id")
  /\ log result.2 = [mkLogRecord LInfo (ConvertedInstances 2) None].
Proof. vm_compute. repeat split. Qed.

(** The same Patient without the assignment to [contained]. *)
Lemma plain_reference_scenario :
  let result := export 3 (mkState referringTank [] []) in
  result.1 = Returned tt
  /\ (properties <$> pkgInstances result.2 !! 0)
       ≫= (.!! [("managingOrganization", [])])
     = Some (VReference "Organization/org-id")
  /\ log result.2 = [mkLogRecord LInfo (ConvertedInstances 2) None].
Proof. vm_compute. repeat split. Qed.

End Scenarios.

End InstanceExporterFacts.

(** ** The rules of the importer *)

Module ImporterRulesFacts.
Import Model Importer ImporterRules ImporterDocuments.

(** *** Splitting *)

Lemma append_String c s t : String c s +:+ t = String c (s +:+ t).
Proof. reflexivity. Qed.

Lemma append_empty_l s : "" +:+ s = s.
Proof. reflexivity. Qed.

Lemma append_empty_r s : s +:+ "" = s.
Proof.
  induction s as [|c s IH]; [reflexivity|].
  rewrite append_String, IH. reflexivity.
Qed.

Lemma append_assoc s t u : (s +:+ t) +:+ u = s +:+ (t +:+ u).
Proof.
  induction s as [|c s IH]; [reflexivity|].
  rewrite !append_String, IH. reflexivity.
Qed.

Lemma length_append s t :
  String.length (s +:+ t) = String.length s + String.length t.
Proof.
  induction s as [|c s IH]; [reflexivity|].
  rewrite append_String. simpl. rewrite IH. reflexivity.
Qed.

Lemma splitOnStringFrom_nonempty sep skip s :
  splitOnStringFrom sep skip s <> [].
Proof.
  revert skip. induction s as [|c s IH]; intros skip; [discriminate|].
  destruct skip as [|k]; [|apply IH].
  change (splitOnStringFrom sep 0 (String c s))
    with (if String.prefix sep (String c s)
          then "" :: splitOnStringFrom sep (Js.length sep - 1) s
          else match splitOnStringFrom sep 0 s with
               | [] => [String c ""]
               | l :: ls => String c l :: ls
               end).
  destruct (String.prefix sep (String c s)); [discriminate|].
  destruct (splitOnStringFrom sep 0 s); discriminate.
Qed.

(** Passing over what is left of a separator. *)
Lemma splitOnStringFrom_skip sep x s :
  splitOnStringFrom sep (String.length x) (x +:+ s)
  = splitOnStringFrom sep 0 s.
Proof.
  induction x as [|c x IH]; [reflexivity|].
  rewrite append_String. simpl. exact IH.
Qed.

Lemma prefix_append s t : String.prefix s (s +:+ t) = true.
Proof.
  induction s as [|c s IH]; [destruct t; reflexivity|].
  rewrite append_String. simpl.
  destruct (ascii_dec c c); [exact IH|contradiction].
Qed.

(** A separator at the start of the text. *)
Lemma splitOnStringFrom_separator c sep s :
  splitOnStringFrom (String c sep) 0 (String c sep +:+ s)
  = "" :: splitOnStringFrom (String c sep) 0 s.
Proof.
  rewrite append_String.
  change (splitOnStringFrom (String c sep) 0 (String c (sep +:+ s)))
    with (if String.prefix (String c sep) (String c (sep +:+ s))
          then "" :: splitOnStringFrom (String c sep)
                       (Js.length (String c sep) - 1) (sep +:+ s)
          else match splitOnStringFrom (String c sep) 0 (sep +:+ s) with
               | [] => [String c ""]
               | l :: ls => String c l :: ls
               end).
  rewrite <- append_String, prefix_append.
  replace (Js.length (String c sep) - 1) with (String.length sep)
    by (unfold Js.length; simpl; lia).
  rewrite splitOnStringFrom_skip. reflexivity.
Qed.

(** A piece in which the first code unit of the separator does not occur
    is passed over as it is. *)
Lemma splitOnStringFrom_piece c sep a s :
  indexOf c a = None ->
  splitOnStringFrom (String c sep) 0 (a +:+ String c sep +:+ s)
  = a :: splitOnStringFrom (String c sep) 0 s.
Proof.
  induction a as [|x a IH]; intros Ha.
  - apply splitOnStringFrom_separator.
  - simpl in Ha. destruct (Ascii.eqb_spec x c) as [|Hx]; [discriminate|].
    destruct (indexOf c a) eqn:Hi; [discriminate|].
    rewrite append_String.
    change (splitOnStringFrom (String c sep) 0
              (String x (a +:+ String c sep +:+ s)))
      with (if String.prefix (String c sep)
                 (String x (a +:+ String c sep +:+ s))
            then "" :: splitOnStringFrom (String c sep)
                         (Js.length (String c sep) - 1)
                         (a +:+ String c sep +:+ s)
            else match splitOnStringFrom (String c sep) 0
                         (a +:+ String c sep +:+ s) with
                 | [] => [String x ""]
                 | l :: ls => String x l :: ls
                 end).
    simpl String.prefix. destruct (ascii_dec c x) as [->|_]; [contradiction|].
    rewrite IH by reflexivity. reflexivity.
Qed.

(** A text in which the first code unit of the separator does not occur is
    one piece. *)
Lemma splitOnStringFrom_whole c sep a :
  indexOf c a = None -> splitOnStringFrom (String c sep) 0 a = [a].
Proof.
  induction a as [|x a IH]; intros Ha; [reflexivity|].
  simpl in Ha. destruct (Ascii.eqb_spec x c) as [|Hx]; [discriminate|].
  destruct (indexOf c a) eqn:Hi; [discriminate|].
  change (splitOnStringFrom (String c sep) 0 (String x a))
    with (if String.prefix (String c sep) (String x a)
          then "" :: splitOnStringFrom (String c sep)
                       (Js.length (String c sep) - 1) a
          else match splitOnStringFrom (String c sep) 0 a with
               | [] => [String x ""]
               | l :: ls => String x l :: ls
               end).
  simpl String.prefix. destruct (ascii_dec c x) as [->|_]; [contradiction|].
  rewrite IH by reflexivity. reflexivity.
Qed.

(** *** Numerals *)

Lemma digit_facts c :
  InstanceExporter.isDigit c = true ->
  Js.isWhitespace c = false
  /\ Ascii.eqb c "-" = false /\ Ascii.eqb c "+" = false
  /\ Ascii.eqb c "x" = false /\ Ascii.eqb c "X" = false
  /\ Ascii.eqb c "." = false
  /\ digitValue 10 c = Some (nat_of_ascii c - 48).
Proof.
  destruct c as [[] [] [] [] [] [] [] []]; vm_compute; intros Hd;
    try discriminate Hd; repeat split.
Qed.

Lemma allChars_String p c s :
  InstanceExporter.allChars p (String c s)
  = p c && InstanceExporter.allChars p s.
Proof. reflexivity. Qed.

Lemma indexOf_None_allChars c s :
  InstanceExporter.allChars (fun x => negb (Ascii.eqb x c)) s = true ->
  indexOf c s = None.
Proof.
  induction s as [|x s IH]; [reflexivity|].
  rewrite allChars_String. intros [Hx Hs]%andb_prop. simpl.
  destruct (Ascii.eqb x c); [discriminate|]. rewrite (IH Hs). reflexivity.
Qed.

Lemma allChars_impl (p q : ascii -> bool) s :
  (forall c, p c = true -> q c = true) ->
  InstanceExporter.allChars p s = true ->
  InstanceExporter.allChars q s = true.
Proof.
  intros Hpq. induction s as [|x s IH]; [reflexivity|].
  rewrite !allChars_String. intros [Hx Hs]%andb_prop.
  rewrite (Hpq _ Hx), (IH Hs). reflexivity.
Qed.

Lemma decimal_digits d :
  InstanceExporter.allChars InstanceExporter.isDigit
    (DecimalString.NilEmpty.string_of_uint d) = true.
Proof. induction d; simpl; try rewrite allChars_String; auto. Qed.

Lemma decimal_no_dot n : indexOf "." (decimal n) = None.
Proof.
  apply indexOf_None_allChars.
  apply (allChars_impl InstanceExporter.isDigit); [|apply decimal_digits].
  intros c Hc. destruct (digit_facts c Hc) as (_ & _ & _ & _ & _ & Hdot & _).
  rewrite Hdot. reflexivity.
Qed.

Lemma readDigits_uint d a :
  readDigits 10 (Some (Z.of_nat a)) (DecimalString.NilEmpty.string_of_uint d)
  = Some (Z.of_nat (Nat.of_uint_acc d a)).
Proof.
  revert a. induction d; intros a; simpl; [reflexivity|..];
    rewrite Nat.tail_mul_spec;
    match goal with
    | |- readDigits 10 (Some ?z) _ = Some (Z.of_nat (Nat.of_uint_acc _ ?k)) =>
        replace z with (Z.of_nat k) by (simpl default; lia)
    end; apply IHd.
Qed.

Lemma readDigits_start d :
  d <> Decimal.Nil ->
  readDigits 10 None (DecimalString.NilEmpty.string_of_uint d)
  = readDigits 10 (Some 0%Z) (DecimalString.NilEmpty.string_of_uint d).
Proof. destruct d; [contradiction|..]; reflexivity. Qed.

Lemma to_uint_not_Nil n : Nat.to_uint n <> Decimal.Nil.
Proof.
  intros Hn. pose proof (DecimalNat.Unsigned.of_to n) as Hof.
  rewrite Hn in Hof. simpl in Hof. subst n. discriminate Hn.
Qed.

(** [parseInt] reads a numeral that consists of digits in radix 10. *)
Lemma parseInt_digits s :
  InstanceExporter.allChars InstanceExporter.isDigit s = true ->
  parseInt s = Z.mul 1 <$> readDigits 10 None s.
Proof.
  intros Hs. unfold parseInt. destruct s as [|c s]; [reflexivity|].
  rewrite allChars_String in Hs. apply andb_prop in Hs as [Hc Hs].
  destruct (digit_facts c Hc) as (Hws & Hminus & Hplus & _).
  simpl trimStart. rewrite Hws. unfold stripSign. rewrite Hminus, Hplus.
  simpl snd. simpl fst. unfold stripRadix.
  destruct s as [|x s]; [reflexivity|].
  rewrite allChars_String in Hs. apply andb_prop in Hs as [Hx Hs].
  destruct (digit_facts x Hx) as (_ & _ & _ & Hx1 & Hx2 & _).
  rewrite Hx1, Hx2, andb_false_r. reflexivity.
Qed.

Lemma parseInt_decimal n : parseInt (decimal n) = Some (Z.of_nat n).
Proof.
  rewrite parseInt_digits by apply decimal_digits. unfold decimal.
  rewrite readDigits_start by apply to_uint_not_Nil.
  rewrite (readDigits_uint _ 0). simpl fmap.
  change (Nat.of_uint_acc (Nat.to_uint n) 0) with (Nat.of_uint (Nat.to_uint n)).
  rewrite DecimalNat.Unsigned.of_to. f_equal. lia.
Qed.



(** *** Codes *)

(** [visitCode] takes the system of a code from before the first [#] and
    the code from after it.  An empty system is left out, any other is
    resolved as an alias; a code with a further [#] is cut there. *)
Theorem visitCode_reads (aliases : list (string * string)) (file : string)
    (text : option string) (span : Span) :
  (forall sys c,
      indexOf "#" sys = None -> indexOf "#" c = None ->
      visitCode aliases file (mkCodeContext (sys +:+ "#" +:+ c) text span)
      = mkFshCode (Some c)
          (if 0 <? Js.length sys then Some (aliasAware aliases sys) else None)
          (extractString <$> text) (locatedAt file span))
  /\ (forall sys c more,
         indexOf "#" sys = None -> indexOf "#" c = None ->
         code (visitCode aliases file
                 (mkCodeContext (sys +:+ "#" +:+ c +:+ "#" +:+ more) text
                    span))
         = Some c).
Proof.
  split.
  - intros sys c Hsys Hc. unfold visitCode, splitLimit. simpl codeCODE.
    rewrite (splitOnStringFrom_piece "#" "" sys c Hsys).
    rewrite (splitOnStringFrom_whole "#" "" c Hc). reflexivity.
  - intros sys c more Hsys Hc. unfold visitCode, splitLimit. simpl codeCODE.
    rewrite (splitOnStringFrom_piece "#" "" sys _ Hsys).
    rewrite (splitOnStringFrom_piece "#" "" c more Hc). reflexivity.
Qed.

Lemma visitCode_reads_witness :
  visitCode [("LOINC", "http://loinc.org")] "a.fsh"
    (mkCodeContext ("LOINC" +:+ "#" +:+ "1234-5") None
       (mkSpan (mkToken 1 0 0 3) (mkToken 1 0 0 3)))
  = mkFshCode (Some "1234-5") (Some "http://loinc.org") None
      (locatedAt "a.fsh" (mkSpan (mkToken 1 0 0 3) (mkToken 1 0 0 3))).
Proof.
  destruct (visitCode_reads [("LOINC", "http://loinc.org")] "a.fsh" None
              (mkSpan (mkToken 1 0 0 3) (mkToken 1 0 0 3))) as (Hread & _).
  rewrite (Hread "LOINC" "1234-5"); reflexivity.
Defined.

(** *** Flags *)

Lemma includes_app flag fs1 fs2 :
  includes flag (fs1 ++ fs2) = includes flag fs1 || includes flag fs2.
Proof. apply existsb_app. Qed.

Lemma includes_Permutation flag fs fs' :
  fs ≡ₚ fs' -> includes flag fs = includes flag fs'.
Proof.
  unfold includes. induction 1 as [|x l l' _ IH|x y l|l l' l'' _ IH1 _ IH2];
    simpl.
  - reflexivity.
  - rewrite IH. reflexivity.
  - rewrite !orb_assoc, (orb_comm (bool_decide (y = flag))). reflexivity.
  - congruence.
Qed.

Lemma parseFlags_or (flagRule : bool * bool * bool) fs :
  parseFlags flagRule fs
  = (flagRule.1.1 || includes MustSupport (map visitFlag fs),
     flagRule.1.2 || includes Summary (map visitFlag fs),
     flagRule.2 || includes Modifier (map visitFlag fs)).
Proof.
  destruct flagRule as [[ms su] md]. unfold parseFlags. simpl.
  destruct (includes MustSupport _), (includes Summary _),
    (includes Modifier _); rewrite ?orb_true_r, ?orb_false_r; reflexivity.
Qed.

(** [parseFlags] sets the flags that the contexts hold and clears none:
    each flag of the rule is the one it had or one that is given.  Giving
    flags in two calls is giving them in one, and the order they are given
    in does not matter. *)
Theorem parseFlags_accumulates (flagRule : bool * bool * bool) :
  (forall fs,
      parseFlags flagRule fs
      = (flagRule.1.1 || includes MustSupport (map visitFlag fs),
         flagRule.1.2 || includes Summary (map visitFlag fs),
         flagRule.2 || includes Modifier (map visitFlag fs)))
  /\ (forall fs1 fs2,
         parseFlags flagRule (fs1 ++ fs2)
         = parseFlags (parseFlags flagRule fs1) fs2)
  /\ (forall fs fs', fs ≡ₚ fs' -> parseFlags flagRule fs = parseFlags flagRule fs').
Proof.
  split; [apply parseFlags_or|]. split.
  - intros fs1 fs2. rewrite !parseFlags_or. simpl.
    rewrite map_app, !includes_app, !orb_assoc. reflexivity.
  - intros fs fs' Hp. rewrite !parseFlags_or.
    assert (Hm : map visitFlag fs ≡ₚ map visitFlag fs')
      by (apply Permutation_map; exact Hp).
    rewrite !(includes_Permutation _ _ _ Hm). reflexivity.
Qed.

Lemma parseFlags_accumulates_witness :
  parseFlags (false, true, false)
    [mkFlagContext false false true; mkFlagContext true false false]
  = parseFlags (false, true, false)
      [mkFlagContext true false false; mkFlagContext false false true].
Proof.
  destruct (parseFlags_accumulates (false, true, false)) as (_ & _ & Hp).
  apply Hp. apply perm_swap.
Defined.

(** *** Rules that contain *)

(** The rules that [visitContainsRule] makes for one item. *)
Lemma fold_visitItem aliases file path items acc :
  fold_left (visitItem aliases file path) items acc
  = (acc.1 ++ map (fun i => aliasAware aliases (itemSEQUENCE i)) items,
     acc.2
     ++ flat_map
          (fun i =>
             let itemPath :=
               path +:+ "[" +:+ aliasAware aliases (itemSEQUENCE i) +:+ "]" in
             cardRuleAt file itemPath (itemSpan i) (itemCARD i)
             :: match itemFlags i with
                | [] => []
                | _ => [flagRuleAt file itemPath (itemSpan i) (itemFlags i)]
                end) items).
Proof.
  revert acc. induction items as [|i items IH]; intros [names rs]; simpl.
  - rewrite !app_nil_r. reflexivity.
  - rewrite IH. unfold visitItem at 1 2. simpl.
    destruct (itemFlags i) as [|f fs] eqn:Hf; simpl;
      rewrite <- !app_assoc; reflexivity.
Qed.

(** [visitContainsRule] gives the [ContainsRule] first, with the items in
    the order of the rule, each resolved as an alias; then, for each item
    in turn, the [CardRule] of the slice [path[item]] and, when the item has
    flags, its [FlagRule].  So the rules are at least one more than the
    items and at most one more than twice the items. *)
Theorem visitContainsRule_rules (aliases : list (string * string))
    (file : string) (ctx : ContainsRuleContext) :
  let slice i :=
    containsPath ctx +:+ "[" +:+ aliasAware aliases (itemSEQUENCE i)
    +:+ "]" in
  let rules := visitContainsRule aliases file ctx in
  rules
  = ContainsRule (containsPath ctx)
      (map (fun i => aliasAware aliases (itemSEQUENCE i)) (containsItems ctx))
      (locatedAt file (containsSpan ctx))
    :: flat_map
         (fun i =>
            cardRuleAt file (slice i) (itemSpan i) (itemCARD i)
            :: match itemFlags i with
               | [] => []
               | _ => [flagRuleAt file (slice i) (itemSpan i) (itemFlags i)]
               end) (containsItems ctx)
  /\ 1 + length (containsItems ctx) <= length rules
     <= 1 + 2 * length (containsItems ctx).
Proof.
  intros slice rules. subst rules. unfold visitContainsRule.
  rewrite fold_visitItem. simpl. split; [reflexivity|].
  induction (containsItems ctx) as [|i items IH]; simpl; [lia|].
  destruct (itemFlags i); simpl; lia.
Qed.

(** *** Lists of paths and of references *)

Lemma concat_cons2 sep a b l :
  String.concat sep (a :: b :: l) = a +:+ sep +:+ String.concat sep (b :: l).
Proof. reflexivity. Qed.

Lemma startsWithWhitespace_name n t :
  InstanceExporter.allChars Js.isNonWhitespace n = true ->
  startsWithWhitespace (n +:+ "," +:+ t) = false.
Proof.
  destruct n as [|c n]; [reflexivity|].
  rewrite allChars_String. intros [Hc _]%andb_prop.
  rewrite append_String. simpl. unfold Js.isNonWhitespace in Hc.
  destruct (Js.isWhitespace c); [discriminate|reflexivity].
Qed.

(** A name without whitespace that ends the text is one piece. *)
Lemma splitOnCommaSpace_last b n :
  InstanceExporter.allChars Js.isNonWhitespace n = true ->
  splitOnCommaSpace b n = [n].
Proof.
  revert b. induction n as [|c n IH]; intros b Hn; [reflexivity|].
  rewrite allChars_String in Hn. apply andb_prop in Hn as [Hc Hn].
  unfold Js.isNonWhitespace in Hc. simpl.
  destruct (Js.isWhitespace c) eqn:Hws; [discriminate|].
  rewrite andb_false_r.
  assert (Hnext : startsWithWhitespace n = false).
  { destruct n as [|x n]; [reflexivity|]. rewrite allChars_String in Hn.
    apply andb_prop in Hn as [Hx _]. unfold Js.isNonWhitespace in Hx. simpl.
    destruct (Js.isWhitespace x); [discriminate|reflexivity]. }
  rewrite Hnext, andb_false_r, (IH false Hn). reflexivity.
Qed.

(** A name without whitespace that a comma and a space follow is a piece,
    and the scan goes on after the space. *)
Lemma splitOnCommaSpace_name b n t :
  InstanceExporter.allChars Js.isNonWhitespace n = true ->
  splitOnCommaSpace b (n +:+ ", " +:+ t) = n :: splitOnCommaSpace true t.
Proof.
  revert b. induction n as [|c n IH]; intros b Hn.
  - rewrite append_empty_l.
    change (", " +:+ t) with (String "," (String " " t)).
    simpl. rewrite andb_false_r. reflexivity.
  - rewrite allChars_String in Hn. apply andb_prop in Hn as [Hc Hn].
    unfold Js.isNonWhitespace in Hc. rewrite append_String. simpl.
    destruct (Js.isWhitespace c) eqn:Hws; [discriminate|].
    rewrite andb_false_r.
    change (n +:+ ", " +:+ t) with (n +:+ "," +:+ (" " +:+ t)).
    rewrite (startsWithWhitespace_name n _ Hn), andb_false_r.
    change (n +:+ "," +:+ " " +:+ t) with (n +:+ ", " +:+ t).
    rewrite (IH false Hn). reflexivity.
Qed.

Lemma splitOnCommaSpace_concat b names :
  Forall (fun n => InstanceExporter.allChars Js.isNonWhitespace n = true)
    names ->
  names <> [] ->
  splitOnCommaSpace b (String.concat ", " names) = names.
Proof.
  intros Hnames. revert b.
  induction Hnames as [|n names Hn Hnames IH]; intros b Hne; [contradiction|].
  destruct names as [|m names].
  - simpl. apply splitOnCommaSpace_last. exact Hn.
  - rewrite concat_cons2, (splitOnCommaSpace_name _ _ _ Hn).
    rewrite IH by discriminate. reflexivity.
Qed.

(** A flag rule on paths gives one [FlagRule] for each path, in their
    order, all with the flags and the location of the rule: paths without
    whitespace that are written with a comma and a space between them are
    read back as they are. *)
Theorem visitFlagRule_paths (file : string) (names : list string)
    (flags : list FlagContext) (span : Span) :
  Forall (fun n => InstanceExporter.allChars Js.isNonWhitespace n = true)
    names ->
  names <> [] ->
  visitPaths (String.concat ", " names) = names
  /\ visitFlagRule file
       (mkFlagRuleContext (Paths (String.concat ", " names)) flags span)
     = map (fun path => flagRuleAt file path span flags) names.
Proof.
  intros Hnames Hne.
  assert (Hpaths : visitPaths (String.concat ", " names) = names)
    by (apply splitOnCommaSpace_concat; assumption).
  split; [exact Hpaths|]. unfold visitFlagRule. simpl. rewrite Hpaths.
  reflexivity.
Qed.

Lemma visitFlagRule_paths_witness :
  visitPaths (String.concat ", " ["name"; "birthDate"])
  = ["name"; "birthDate"].
Proof.
  apply (visitFlagRule_paths "a.fsh" ["name"; "birthDate"] []
           (mkSpan (mkToken 1 0 0 3) (mkToken 1 0 0 3))).
  - repeat constructor.
  - discriminate.
Defined.

Lemma referenceChar_facts c :
  isReferenceChar c = true ->
  Js.isWhitespace c = false /\ Ascii.eqb c "|" = false.
Proof.
  unfold isReferenceChar, Js.isNonWhitespace.
  destruct (Js.isWhitespace c), (Ascii.eqb c "|"); try discriminate; auto.
Qed.

Lemma splitOnBar_last scan n :
  scan <> BeforeBar ->
  InstanceExporter.allChars isReferenceChar n = true ->
  splitOnBar scan n = [n].
Proof.
  revert scan. induction n as [|c n IH]; intros scan Hscan Hn;
    [destruct scan; reflexivity|].
  rewrite allChars_String in Hn. apply andb_prop in Hn as [Hc Hn].
  destruct (referenceChar_facts c Hc) as [Hws Hbar].
  destruct scan; [|contradiction|]; simpl; rewrite Hws, Hbar; simpl;
    rewrite (IH Outside) by (discriminate || assumption); reflexivity.
Qed.

Lemma splitOnBar_name scan n t :
  scan <> BeforeBar ->
  InstanceExporter.allChars isReferenceChar n = true ->
  splitOnBar scan (n +:+ " | " +:+ t) = n :: splitOnBar AfterBar t.
Proof.
  revert scan. induction n as [|c n IH]; intros scan Hscan Hn.
  - rewrite append_empty_l.
    change (" | " +:+ t) with (String " " (String "|" (String " " t))).
    destruct scan; [|contradiction|]; reflexivity.
  - rewrite allChars_String in Hn. apply andb_prop in Hn as [Hc Hn].
    destruct (referenceChar_facts c Hc) as [Hws Hbar].
    rewrite append_String.
    destruct scan; [|contradiction|]; simpl; rewrite Hws, Hbar; simpl;
      rewrite (IH Outside) by (discriminate || assumption); reflexivity.
Qed.

Lemma splitOnBar_concat scan names :
  scan <> BeforeBar ->
  Forall (fun n => InstanceExporter.allChars isReferenceChar n = true)
    names ->
  names <> [] ->
  splitOnBar scan (String.concat " | " names) = names.
Proof.
  intros Hscan Hnames. revert scan Hscan.
  induction Hnames as [|n names Hn Hnames IH]; intros scan Hscan Hne;
    [contradiction|].
  destruct names as [|m names].
  - simpl. apply splitOnBar_last; assumption.
  - rewrite concat_cons2, (splitOnBar_name _ _ _ Hscan Hn).
    rewrite IH by discriminate. reflexivity.
Qed.

(** What lies between a prefix and a suffix. *)
Lemma substring_middle a inner b :
  substring (String.length a) (String.length inner) (a +:+ inner +:+ b)
  = inner.
Proof.
  induction a as [|c a IH].
  - rewrite append_empty_l. simpl String.length.
    induction inner as [|x inner IH]; [destruct b; reflexivity|].
    rewrite append_String. simpl. rewrite IH. reflexivity.
  - rewrite append_String. simpl. exact IH.
Qed.

Lemma slice_middle a inner b :
  Js.slice (Z.of_nat (String.length a))
    (Z.of_nat (String.length (a +:+ inner +:+ b))
     - Z.of_nat (String.length b)) (a +:+ inner +:+ b)
  = inner.
Proof.
  unfold Js.slice, Js.clampIndex, Js.length.
  rewrite !length_append.
  destruct (Z.ltb_spec (Z.of_nat (String.length a)) 0); [lia|].
  destruct (Z.ltb_spec
              (Z.of_nat (String.length a
                         + (String.length inner + String.length b))
               - Z.of_nat (String.length b)) 0); [lia|].
  replace (Nat.min (Z.to_nat (Z.of_nat (String.length a))) _)
    with (String.length a) by lia.
  replace (Nat.min _ _ - String.length a) with (String.length inner) by lia.
  apply substring_middle.
Qed.

Lemma fold_app_flat_map {A B} (f : A -> list B) l acc :
  fold_left (fun bs a => bs ++ f a) l acc = acc ++ flat_map f l.
Proof.
  revert acc. induction l as [|a l IH]; intros acc; simpl.
  - rewrite app_nil_r. reflexivity.
  - rewrite IH, app_assoc. reflexivity.
Qed.

(** [visitOnlyRule] gives the types of the target types in their order.  A
    target [Reference(A | B)] gives a reference type for each of the names
    between the brackets, in their order (names without whitespace and
    without a bar, written with a bar between spaces); any other target
    gives one type that is not a reference.  Every name is resolved as an
    alias. *)
Theorem visitOnlyRule_types (aliases : list (string * string))
    (file : string) :
  (forall ctx,
      visitOnlyRule aliases file ctx
      = OnlyRule (onlyPath ctx)
          (flat_map (visitTargetType aliases) (onlyTargetTypes ctx))
          (locatedAt file (onlySpan ctx)))
  /\ (forall text,
         visitTargetType aliases (TargetSequence text)
         = [mkOnlyRuleType (aliasAware aliases text) false])
  /\ (forall names,
         Forall (fun n => InstanceExporter.allChars isReferenceChar n = true)
           names ->
         names <> [] ->
         visitTargetType aliases
           (TargetReference
              ("Reference(" +:+ String.concat " | " names +:+ ")"))
         = map (fun n => mkOnlyRuleType (aliasAware aliases n) true) names).
Proof.
  split; [|split].
  - intros ctx. unfold visitOnlyRule. rewrite fold_app_flat_map. reflexivity.
  - reflexivity.
  - intros names Hnames Hne. unfold visitTargetType.
    change (indexOf "(" ("Reference(" +:+ String.concat " | " names +:+ ")"))
      with (Some 9).
    replace (Js.slice _ _ _) with (String.concat " | " names)
      by (symmetry;
          exact (slice_middle "Reference(" (String.concat " | " names) ")")).
    rewrite splitOnBar_concat by (discriminate || assumption).
    reflexivity.
Qed.

Lemma visitOnlyRule_types_witness :
  visitTargetType [("Pat", "http://example.org/Patient")]
    (TargetReference
       ("Reference(" +:+ String.concat " | " ["Pat"; "Group"] +:+ ")"))
  = [mkOnlyRuleType "http://example.org/Patient" true;
     mkOnlyRuleType "Group" true].
Proof.
  destruct (visitOnlyRule_types [("Pat", "http://example.org/Patient")]
              "a.fsh") as (_ & _ & Href).
  rewrite (Href ["Pat"; "Group"]).
  - reflexivity.
  - repeat constructor.
  - discriminate.
Defined.

(** *** Where the rules come from *)

Lemma flagRuleAt_source file path span flags :
  ruleSource (flagRuleAt file path span flags) = locatedAt file span.
Proof.
  unfold flagRuleAt. destruct (parseFlags _ _) as [[ms su] md]. reflexivity.
Qed.

Lemma visitItem_located aliases file path items acc :
  Forall (fun r => Model.file (ruleSource r) = Some file
                   /\ is_Some (location (ruleSource r))) acc.2 ->
  Forall (fun r => Model.file (ruleSource r) = Some file
                   /\ is_Some (location (ruleSource r)))
    (fold_left (visitItem aliases file path) items acc).2.
Proof.
  revert acc. induction items as [|i items IH]; intros acc Hacc; simpl;
    [exact Hacc|].
  apply IH. unfold visitItem. simpl.
  destruct (0 <? length (itemFlags i)); simpl;
    repeat (apply Forall_app; split); try exact Hacc;
    repeat constructor; rewrite ?flagRuleAt_source; simpl; eauto.
Qed.

(** Every rule that the importer makes knows where it comes from: it
    carries the file of the importer and a location. *)
Theorem rules_are_located (aliases : list (string * string)) (file : string)
    (ctx : SdRuleContext) :
  Forall (fun r => Model.file (ruleSource r) = Some file
                   /\ is_Some (location (ruleSource r)))
    (visitSdRule aliases file ctx).1.
Proof.
  unfold visitSdRule.
  destruct (ctxCardRule ctx) as [c|].
  { simpl. unfold visitCardRule.
    destruct (0 <? length (cardFlags c)); repeat constructor;
      rewrite ?flagRuleAt_source; simpl; eauto. }
  destruct (ctxFlagRule ctx) as [c|].
  { simpl. unfold visitFlagRule. apply Forall_forall. intros r Hr.
    apply list_elem_of_In, in_map_iff in Hr as (p & <- & _).
    rewrite flagRuleAt_source. simpl. eauto. }
  destruct (ctxValueSetRule ctx) as [c|]; [repeat constructor; simpl; eauto|].
  destruct (ctxFixedValueRule ctx) as [c|];
    [repeat constructor; simpl; eauto|].
  destruct (ctxOnlyRule ctx) as [c|]; [repeat constructor; simpl; eauto|].
  destruct (ctxContainsRule ctx) as [c|]; [|constructor].
  simpl. unfold visitContainsRule. constructor; [simpl; eauto|].
  apply visitItem_located. constructor.
Qed.

End ImporterRulesFacts.

(** ** Documents *)

Module ImporterDocumentsFacts.
Import Model Importer ImporterRules ImporterDocuments.

(** *** The map of aliases *)

Lemma mapSet_fresh {V} k (v : V) m :
  k ∉ map fst m -> Js.mapSet k v m = m ++ [(k, v)].
Proof.
  induction m as [|[k' v'] m IH]; intros Hk; [reflexivity|].
  simpl in Hk. apply not_elem_of_cons in Hk as [Hne Hk]. simpl.
  destruct (String.eqb_spec k' k) as [->|_]; [contradiction|].
  rewrite (IH Hk). reflexivity.
Qed.

Lemma mapSet_same {V} k (v : V) m :
  NoDup (map fst m) -> (k, v) ∈ m -> Js.mapSet k v m = m.
Proof.
  induction m as [|[k' v'] m IH]; intros Hnd Hin.
  - apply elem_of_nil in Hin. destruct Hin.
  - simpl in Hnd. apply NoDup_cons in Hnd as [Hk' Hnd]. simpl.
    apply elem_of_cons in Hin as [Heq|Hin].
    + inversion Heq; subst. rewrite String.eqb_refl. reflexivity.
    + destruct (String.eqb_spec k' k) as [->|_].
      * exfalso. apply Hk'.
        apply (list_elem_of_fmap_2 fst) in Hin. exact Hin.
      * rewrite (IH Hnd Hin). reflexivity.
Qed.

Lemma fold_mapSet_fresh {V} (l m : list (string * V)) :
  NoDup (map fst (m ++ l)) ->
  fold_left (fun m e => Js.mapSet e.1 e.2 m) l m = m ++ l.
Proof.
  revert m. induction l as [|[k v] l IH]; intros m Hnd; simpl.
  - rewrite app_nil_r. reflexivity.
  - assert (Hk : k ∉ map fst m).
    { rewrite map_app in Hnd. apply NoDup_app in Hnd as (_ & Hd & _).
      intros Hin. apply (Hd _ Hin). simpl. apply list_elem_of_here. }
    rewrite (mapSet_fresh _ _ _ Hk).
    rewrite IH by (rewrite <- app_assoc; exact Hnd).
    rewrite <- app_assoc. reflexivity.
Qed.

Section Resolving.
Context {R U : Type}.
Variable visitSdRule :
  list (string * string) -> string -> R -> list U * list LogRecord.
Variable newProfile : string -> FshStructure U.
Variable newExtension : string -> FshStructure U.

Local Abbreviation visitDoc := (visitDoc visitSdRule newProfile newExtension).
Local Abbreviation visitEntity :=
  (visitEntity visitSdRule newProfile newExtension).
Local Abbreviation visitProfile := (visitProfile visitSdRule newProfile).
Local Abbreviation visitExtension :=
  (visitExtension visitSdRule newExtension).

(** What the importer reads of itself when it visits a Profile or an
    Extension is the aliases and the file. *)
Lemma applySdMetadata_view (i j : FSHImporter U) def c :
  aliases (doc i) = aliases (doc j) /\ importerFile i = importerFile j ->
  applySdMetadata i def c = applySdMetadata j def c.
Proof.
  intros [Ha _]. destruct c as [| | |[]|]; simpl; try reflexivity.
  unfold aliasAwareValue. rewrite Ha. reflexivity.
Qed.

Lemma fold_applySdMetadata_view (i j : FSHImporter U) cs def :
  aliases (doc i) = aliases (doc j) /\ importerFile i = importerFile j ->
  fold_left (applySdMetadata i) cs def = fold_left (applySdMetadata j) cs def.
Proof.
  intros Hv. revert def. induction cs as [|c cs IH]; intros def; simpl;
    [reflexivity|].
  rewrite (applySdMetadata_view i j def c Hv). apply IH.
Qed.

Lemma visitSdRules_view rules def (i j : FSHImporter U) :
  aliases (doc i) = aliases (doc j) /\ importerFile i = importerFile j ->
  (visitSdRules visitSdRule rules def i).1
  = (visitSdRules visitSdRule rules def j).1.
Proof.
  revert def i j. induction rules as [|r rules IH]; intros def i j Hv; simpl;
    [reflexivity|].
  destruct Hv as [Ha Hf]. rewrite Ha, Hf. apply IH. split; simpl; assumption.
Qed.

(** The loop over the rules leaves the document, the file and the flag of
    the importer alone. *)
Lemma visitSdRules_importer rules def i :
  let result := visitSdRules visitSdRule rules def i in
  doc result.2 = doc i /\ importerFile result.2 = importerFile i
  /\ used result.2 = used i.
Proof.
  revert def i. induction rules as [|r rules IH]; intros def i; simpl;
    [auto|].
  destruct (IH
              (mkFshStructure (sdName def) (sdId def) (sdParent def)
                 (sdTitle def) (sdDescription def)
                 (sdRules def
                  ++ (visitSdRule (aliases (doc i)) (importerFile i) r).1)
                 (sdSourceInfo def))
              (addLog (visitSdRule (aliases (doc i)) (importerFile i) r).2 i))
    as (Hd & Hf & Hu).
  simpl in Hd, Hf, Hu. auto.
Qed.

(** A structure is read the same by any importer that holds the aliases
    [table] and reads [file]. *)
Lemma parse_structureWith table file make c i :
  aliases (doc i) = table -> importerFile i = file ->
  (parseProfileOrExtension visitSdRule (located c i (make (ctxSequence c)))
     c i).1
  = structureWith visitSdRule table file make c.
Proof.
  intros Ha Hf. unfold structureWith, parseProfileOrExtension.
  assert (Hv : aliases (doc i) = aliases (doc (withAliases (U:=U) table file))
               /\ importerFile i = importerFile (withAliases (U:=U) table file))
    by (split; assumption).
  rewrite (visitSdRules_view _ _ i (withAliases table file) Hv).
  rewrite (fold_applySdMetadata_view i (withAliases table file) _ _ Hv).
  unfold located. rewrite Hf. reflexivity.
Qed.

Lemma visitProfile_document table file c i :
  aliases (doc i) = table -> importerFile i = file ->
  let i' := visitProfile c i in
  let d := structureWith visitSdRule table file newProfile c in
  aliases (doc i') = table /\ importerFile i' = file
  /\ profiles (doc i') = Js.mapSet (sdName d) d (profiles (doc i))
  /\ extensions (doc i') = extensions (doc i).
Proof.
  intros Ha Hf i' d. subst i' d. unfold Importer.visitProfile.
  rewrite (parse_structureWith table file newProfile c i Ha Hf).
  unfold parseProfileOrExtension.
  destruct (visitSdRules_importer (ctxSdRule c)
              (fold_left (applySdMetadata i) (ctxSdMetadata c)
                 (located c i (newProfile (ctxSequence c)))) i)
    as (Hd & Hfile & _).
  simpl. rewrite Hd, Hfile. auto.
Qed.

Lemma visitExtension_document table file c i :
  aliases (doc i) = table -> importerFile i = file ->
  let i' := visitExtension c i in
  let d := structureWith visitSdRule table file newExtension c in
  aliases (doc i') = table /\ importerFile i' = file
  /\ profiles (doc i') = profiles (doc i)
  /\ extensions (doc i') = Js.mapSet (sdName d) d (extensions (doc i)).
Proof.
  intros Ha Hf i' d. subst i' d. unfold Importer.visitExtension.
  rewrite (parse_structureWith table file newExtension c i Ha Hf).
  unfold parseProfileOrExtension.
  destruct (visitSdRules_importer (ctxSdRule c)
              (fold_left (applySdMetadata i) (ctxSdMetadata c)
                 (located c i (newExtension (ctxSequence c)))) i)
    as (Hd & Hfile & _).
  simpl. rewrite Hd, Hfile. auto.
Qed.

(** The first pass collects the aliases and touches nothing else. *)
Lemma collect_aliases (ctx : list (EntityContext R)) (i : FSHImporter U) :
  let i' := fold_left (fun i e => whenPresent (ctxAlias e) visitAlias i)
              ctx i in
  aliases (doc i')
  = fold_left (fun m e => Js.mapSet e.1 e.2 m) (declaredAliases ctx)
      (aliases (doc i))
  /\ importerFile i' = importerFile i
  /\ profiles (doc i') = profiles (doc i)
  /\ extensions (doc i') = extensions (doc i).
Proof.
  revert i. induction ctx as [|e ctx IH]; intros i; simpl; [auto|].
  destruct (IH (whenPresent (ctxAlias e) visitAlias i)) as (Ha & Hf & Hp & He).
  rewrite Ha, Hf, Hp, He.
  unfold declaredAliases. simpl. destruct (ctxAlias e) as [a|]; simpl; auto.
Qed.

(** The second pass, from an importer that holds all the aliases, whose
    names are distinct. *)
Lemma visit_entities table file (ctx : list (EntityContext R))
    (i : FSHImporter U) :
  NoDup (map fst table) ->
  (forall a, a ∈ declaredAliases ctx -> a ∈ table) ->
  aliases (doc i) = table -> importerFile i = file ->
  let i' := fold_left (fun i e => visitEntity e i) ctx i in
  aliases (doc i') = table
  /\ profiles (doc i')
     = recordStructures visitSdRule table file newProfile
         (omap ctxProfile ctx) (profiles (doc i))
  /\ extensions (doc i')
     = recordStructures visitSdRule table file newExtension
         (omap ctxExtension ctx) (extensions (doc i)).
Proof.
  intros Hnd. revert i.
  induction ctx as [|e ctx IH]; intros i Hin Ha Hf; simpl; [auto|].
  set (i1 := whenPresent (ctxAlias e) visitAlias i).
  assert (H1 : aliases (doc i1) = table /\ importerFile i1 = file
               /\ profiles (doc i1) = profiles (doc i)
               /\ extensions (doc i1) = extensions (doc i)).
  { subst i1. destruct (ctxAlias e) as [a|] eqn:Halias; simpl; [|auto].
    rewrite Ha, mapSet_same; auto.
    apply Hin. unfold declaredAliases. simpl. rewrite Halias. simpl.
    apply list_elem_of_here. }
  destruct H1 as (Ha1 & Hf1 & Hp1 & He1).
  set (i2 := whenPresent (ctxProfile e) visitProfile i1).
  assert (H2 : aliases (doc i2) = table /\ importerFile i2 = file
               /\ profiles (doc i2)
                  = recordStructures visitSdRule table file newProfile
                      (from_option (fun c => [c]) [] (ctxProfile e))
                      (profiles (doc i))
               /\ extensions (doc i2) = extensions (doc i)).
  { subst i2. destruct (ctxProfile e) as [c|]; unfold whenPresent;
      [|repeat split; assumption].
    destruct (visitProfile_document table file c i1 Ha1 Hf1)
      as (H21 & H22 & H23 & H24).
    rewrite H21, H22, H23, H24, Hp1, He1. repeat split. }
  destruct H2 as (Ha2 & Hf2 & Hp2 & He2).
  set (i3 := whenPresent (ctxExtension e) visitExtension i2).
  assert (H3 : aliases (doc i3) = table /\ importerFile i3 = file
               /\ profiles (doc i3) = profiles (doc i2)
               /\ extensions (doc i3)
                  = recordStructures visitSdRule table file newExtension
                      (from_option (fun c => [c]) [] (ctxExtension e))
                      (extensions (doc i))).
  { subst i3. destruct (ctxExtension e) as [c|]; unfold whenPresent;
      [|repeat split; assumption || reflexivity].
    destruct (visitExtension_document table file c i2 Ha2 Hf2)
      as (H31 & H32 & H33 & H34).
    rewrite H31, H32, H33, H34, He2. repeat split. }
  destruct H3 as (Ha3 & Hf3 & Hp3 & He3).
  assert (Hin' : forall a, a ∈ declaredAliases ctx -> a ∈ table).
  { intros a Ha'. apply Hin. unfold declaredAliases in *. simpl.
    destruct (ctxAlias e); simpl; [apply list_elem_of_further|]; exact Ha'. }
  change (fold_left (fun i e => visitEntity e i) ctx (visitEntity e i))
    with (fold_left (fun i e => visitEntity e i) ctx i3).
  destruct (IH i3 Hin' Ha3 Hf3) as (Ha4 & Hp4 & He4).
  rewrite Ha4, Hp4, He4, Hp3, Hp2, He3.
  destruct (ctxProfile e), (ctxExtension e); auto.
Qed.

(** In a document whose aliases have distinct names, an alias holds
    wherever it is declared: the document that a fresh importer returns has
    the declared aliases in their order, and its Profiles and Extensions
    are those that their contexts are read as with all of the aliases, set
    under their names in the order of the document. *)
Theorem aliases_hold_wherever_declared (ctx : list (EntityContext R))
    (file : string) :
  NoDup (map fst (declaredAliases ctx)) ->
  let d := doc (visitDoc ctx (newImporter file)).1 in
  aliases d = declaredAliases ctx
  /\ profiles d
     = recordStructures visitSdRule (declaredAliases ctx) file newProfile
         (omap ctxProfile ctx) []
  /\ extensions d
     = recordStructures visitSdRule (declaredAliases ctx) file newExtension
         (omap ctxExtension ctx) [].
Proof.
  intros Hnd d. subst d. unfold Importer.visitDoc. simpl used. simpl fst.
  set (i0 := mkFSHImporter true _ _ _).
  destruct (collect_aliases ctx i0) as (Ha & Hf & Hp & He).
  set (i1 := fold_left _ ctx i0) in *.
  rewrite fold_mapSet_fresh in Ha by exact Hnd. simpl in Ha, Hf, Hp, He.
  destruct (visit_entities (declaredAliases ctx) file ctx i1 Hnd
              (fun a Hin => Hin) Ha Hf) as (Ha' & Hp' & He').
  rewrite Hp, He in *. auto.
Qed.

End Resolving.

Lemma aliases_hold_wherever_declared_witness :
  Js.mapGet "ObservationProfile"
    (profiles
       (doc (visitDoc visitSdRule namedStructure namedStructure aliasAfterUse
               (newImporter "a.fsh")).1))
  ≫= sdParent
  = Some "http://hl7.org/fhir/StructureDefinition/Observation".
Proof.
  destruct (aliases_hold_wherever_declared visitSdRule namedStructure
              namedStructure aliasAfterUse "a.fsh") as (_ & Hprofiles & _).
  - apply NoDup_singleton.
  - rewrite Hprofiles. reflexivity.
Defined.

(** *** What the importer logs *)

Lemma visitSdRule_log aliases file r :
  (visitSdRule aliases file r).2
  = if isSupported r then [] else [unsupportedWarning file r].
Proof.
  unfold visitSdRule, isSupported.
  destruct (ctxCardRule r), (ctxFlagRule r), (ctxValueSetRule r),
    (ctxFixedValueRule r), (ctxOnlyRule r), (ctxContainsRule r); reflexivity.
Qed.

Lemma flat_map_warnings file rules :
  flat_map (fun r => if isSupported r then [] else [unsupportedWarning file r])
    rules
  = map (unsupportedWarning file)
      (List.filter (fun r => negb (isSupported r)) rules).
Proof.
  induction rules as [|r rules IH]; simpl; [reflexivity|].
  destruct (isSupported r); simpl; rewrite IH; reflexivity.
Qed.

Section Logging.
Variable newProfile : string -> FshStructure SdRule.
Variable newExtension : string -> FshStructure SdRule.

Local Abbreviation visitDoc := (visitDoc visitSdRule newProfile newExtension).
Local Abbreviation visitEntity :=
  (visitEntity visitSdRule newProfile newExtension).

Lemma visitSdRules_log rules def (i : FSHImporter SdRule) :
  importerLog (visitSdRules visitSdRule rules def i).2
  = importerLog i
    ++ map (unsupportedWarning (importerFile i))
         (List.filter (fun r => negb (isSupported r)) rules).
Proof.
  revert def i. induction rules as [|r rules IH]; intros def i; simpl.
  - rewrite app_nil_r. reflexivity.
  - rewrite IH. simpl. rewrite visitSdRule_log.
    destruct (isSupported r); simpl.
    + rewrite app_nil_r. reflexivity.
    + rewrite <- app_assoc. reflexivity.
Qed.

Lemma visitStructure_log make c (i : FSHImporter SdRule) :
  let parsed :=
    parseProfileOrExtension visitSdRule (located c i (make (ctxSequence c)))
      c i in
  importerLog parsed.2
  = importerLog i
    ++ map (unsupportedWarning (importerFile i))
         (List.filter (fun r => negb (isSupported r)) (ctxSdRule c))
  /\ importerFile parsed.2 = importerFile i.
Proof.
  unfold parseProfileOrExtension. simpl. rewrite visitSdRules_log.
  split; [reflexivity|]. apply visitSdRules_importer.
Qed.

Lemma visitEntity_log e (i : FSHImporter SdRule) :
  importerLog (visitEntity e i)
  = importerLog i
    ++ map (unsupportedWarning (importerFile i))
         (List.filter (fun r => negb (isSupported r)) (ruleContexts e))
  /\ importerFile (visitEntity e i) = importerFile i.
Proof.
  unfold Importer.visitEntity, ruleContexts.
  set (i1 := whenPresent (ctxAlias e) visitAlias i).
  assert (H1 : importerLog i1 = importerLog i
               /\ importerFile i1 = importerFile i)
    by (subst i1; destruct (ctxAlias e); auto).
  destruct H1 as [Hl1 Hf1].
  set (i2 := whenPresent (ctxProfile e) _ i1).
  assert (H2 : importerLog i2
               = importerLog i
                 ++ map (unsupportedWarning (importerFile i))
                      (List.filter (fun r => negb (isSupported r))
                         (from_option ctxSdRule [] (ctxProfile e)))
               /\ importerFile i2 = importerFile i).
  { subst i2. destruct (ctxProfile e) as [c|]; unfold whenPresent.
    - destruct (visitStructure_log newProfile c i1) as [Hl Hf].
      unfold visitProfile. simpl. rewrite Hl, Hf, Hl1, Hf1. auto.
    - simpl. rewrite app_nil_r. auto. }
  destruct H2 as [Hl2 Hf2].
  destruct (ctxExtension e) as [c|]; unfold whenPresent.
  - destruct (visitStructure_log newExtension c i2) as [Hl Hf].
    unfold visitExtension. simpl. rewrite Hl, Hf, Hl2, Hf2.
    rewrite List.filter_app, map_app, app_assoc. auto.
  - simpl. rewrite app_nil_r. auto.
Qed.

Lemma visitEntities_log ctx (i : FSHImporter SdRule) :
  importerLog (fold_left (fun i e => visitEntity e i) ctx i)
  = importerLog i
    ++ map (unsupportedWarning (importerFile i))
         (List.filter (fun r => negb (isSupported r))
            (flat_map ruleContexts ctx)).
Proof.
  revert i. induction ctx as [|e ctx IH]; intros i; simpl.
  - rewrite app_nil_r. reflexivity.
  - rewrite IH. destruct (visitEntity_log e i) as [Hl Hf].
    rewrite Hl, Hf, List.filter_app, map_app, app_assoc. reflexivity.
Qed.

Lemma collect_aliases_log (ctx : list (EntityContext SdRuleContext))
    (i : FSHImporter SdRule) :
  importerLog
    (fold_left (fun i e => whenPresent (ctxAlias e) visitAlias i) ctx i)
  = importerLog i.
Proof.
  revert i. induction ctx as [|e ctx IH]; intros i; simpl; [reflexivity|].
  rewrite IH. destruct (ctxAlias e); reflexivity.
Qed.

(** What the import of a document logs is one warning for each rule that
    the importer does not support, in the order of the document, with the
    text of the rule, the file and the location of the rule; the import
    logs nothing else. *)
Theorem import_logs_unsupported_rules
    (ctx : list (EntityContext SdRuleContext)) (file : string) :
  importerLog (visitDoc ctx (newImporter file)).1
  = map (unsupportedWarning file)
      (List.filter (fun r => negb (isSupported r))
         (flat_map ruleContexts ctx)).
Proof.
  unfold Importer.visitDoc. simpl used. simpl fst.
  rewrite visitEntities_log.
  destruct (collect_aliases ctx
              (mkFSHImporter true file (mkFSHDocument file [] [] []) []
               : FSHImporter SdRule)) as (_ & Hf & _).
  simpl in Hf. rewrite Hf, collect_aliases_log. reflexivity.
Qed.

End Logging.

(** *** Strings *)

Import ImporterRulesFacts.

(** [extractString] takes the first and the last code unit off a token:
    the text between the quotes is given back as it is, and of a token of
    one code unit or none nothing is left. *)
Theorem extractString_between_quotes :
  (forall q1 q2 s, extractString (String q1 (s +:+ String q2 "")) = s)
  /\ (forall c, extractString (String c "") = "")
  /\ extractString "" = "".
Proof.
  split; [|split; reflexivity].
  intros q1 q2 s. unfold extractString.
  change (String q1 (s +:+ String q2 ""))
    with (String q1 "" +:+ s +:+ String q2 "").
  exact (slice_middle (String q1 "") s (String q2 "")).
Qed.

Lemma splitOn_piece sep a s :
  indexOf sep a = None ->
  Js.splitOn sep (a +:+ String sep s) = a :: Js.splitOn sep s.
Proof.
  induction a as [|x a IH]; intros Ha.
  - rewrite append_empty_l. simpl. rewrite Ascii.eqb_refl. reflexivity.
  - simpl in Ha. destruct (Ascii.eqb_spec x sep) as [|Hx]; [discriminate|].
    destruct (indexOf sep a); [discriminate|].
    rewrite append_String. simpl.
    destruct (Ascii.eqb_spec x sep); [contradiction|].
    rewrite IH by reflexivity. reflexivity.
Qed.

Lemma splitOn_whole sep a :
  indexOf sep a = None -> Js.splitOn sep a = [a].
Proof.
  induction a as [|x a IH]; intros Ha; [reflexivity|].
  simpl in Ha. destruct (Ascii.eqb_spec x sep) as [|Hx]; [discriminate|].
  destruct (indexOf sep a); [discriminate|]. simpl.
  destruct (Ascii.eqb_spec x sep); [contradiction|].
  rewrite IH by reflexivity. reflexivity.
Qed.

(** Lines that are joined are split into what they were. *)
Lemma splitOn_join sep lines :
  lines <> [] ->
  Forall (fun l => indexOf sep l = None) lines ->
  Js.splitOn sep (Js.join sep lines) = lines.
Proof.
  intros Hne Hlines. induction Hlines as [|l lines Hl Hlines IH];
    [contradiction|].
  destruct lines as [|m lines].
  - simpl. apply splitOn_whole. exact Hl.
  - change (Js.join sep (l :: m :: lines))
      with (l +:+ String sep (Js.join sep (m :: lines))).
    rewrite (splitOn_piece _ _ _ Hl), IH by discriminate. reflexivity.
Qed.

Lemma slice_from_end a inner b :
  0 < String.length b ->
  Js.slice (Z.of_nat (String.length a)) (- Z.of_nat (String.length b))
    (a +:+ inner +:+ b)
  = inner.
Proof.
  intros Hb. unfold Js.slice, Js.clampIndex, Js.length.
  rewrite !length_append.
  destruct (Z.ltb_spec (Z.of_nat (String.length a)) 0); [lia|].
  destruct (Z.ltb_spec (- Z.of_nat (String.length b)) 0); [|lia].
  replace (Nat.min (Z.to_nat (Z.of_nat (String.length a))) _)
    with (String.length a) by lia.
  replace (Z.to_nat _ - String.length a) with (String.length inner) by lia.
  apply substring_middle.
Qed.

(** [visitQuantity] gives a quantity the number of its context and, as
    its unit, the code that stands between the quotes of the unit, in the
    system of UCUM and with no display, located at the unit. *)
Theorem visitQuantity_unit (file number unit : string) (q1 q2 : ascii)
    (token : Token) (span : Span) :
  visitQuantity file
    (mkQuantityContext number
       (mkTerminal (String q1 (unit +:+ String q2 "")) token) span)
  = mkFshQuantity number
      (Some (mkFshCode (Some unit) (Some "http://unitsofmeasure.org") None
               (locatedAtTerminal file
                  (mkTerminal (String q1 (unit +:+ String q2 "")) token))))
      (locatedAt file span).
Proof.
  unfold visitQuantity. simpl.
  replace (Js.slice 1 (-1) (String q1 (unit +:+ String q2 ""))) with unit;
    [reflexivity|].
  symmetry. exact (slice_from_end (String q1 "") unit (String q2 "")
                     ltac:(simpl; lia)).
Qed.

Lemma substring_full s : substring 0 (String.length s) s = s.
Proof. induction s as [|c s IH]; simpl; [|rewrite IH]; reflexivity. Qed.

Lemma sliceFrom_0 s : Js.sliceFrom 0 s = s.
Proof.
  unfold Js.sliceFrom, Js.length. rewrite Nat.sub_0_r. apply substring_full.
Qed.

Lemma sliceFrom_empty k : Js.sliceFrom k "" = "".
Proof. unfold Js.sliceFrom. destruct k; reflexivity. Qed.

Lemma sliceFrom_String k c s :
  Js.sliceFrom (S k) (String c s) = Js.sliceFrom k s.
Proof. reflexivity. Qed.

Lemma searchNonWhitespaceOrEnd_String c s :
  Js.searchNonWhitespaceOrEnd (String c s)
  = if Js.isWhitespace c then S (Js.searchNonWhitespaceOrEnd s) else 0.
Proof.
  unfold Js.searchNonWhitespaceOrEnd, Js.isNonWhitespace. simpl.
  unfold Js.isNonWhitespace.
  destruct (Js.isWhitespace c); simpl; [|reflexivity].
  destruct (Js.searchNonWhitespace s); reflexivity.
Qed.

Lemma searchNonWhitespaceOrEnd_le s :
  Js.searchNonWhitespaceOrEnd s <= String.length s.
Proof.
  induction s as [|c s IH]; [reflexivity|].
  rewrite searchNonWhitespaceOrEnd_String.
  destruct (Js.isWhitespace c); simpl; lia.
Qed.

(** What stands before the first code unit that is not whitespace is
    whitespace. *)
Lemma leading_whitespace k s :
  k <= Js.searchNonWhitespaceOrEnd s ->
  exists ws,
    s = ws +:+ Js.sliceFrom k s /\ String.length ws = k
    /\ InstanceExporter.allChars Js.isWhitespace ws = true.
Proof.
  revert s. induction k as [|k IH]; intros s Hk.
  - exists "". rewrite sliceFrom_0. auto.
  - destruct s as [|c s]; [change (S k <= 0) in Hk; lia|].
    rewrite searchNonWhitespaceOrEnd_String in Hk.
    destruct (Js.isWhitespace c) eqn:Hc; [|lia].
    destruct (IH s) as (ws & Hs & Hlen & Hws); [lia|].
    exists (String c ws). rewrite sliceFrom_String, append_String, <- Hs.
    rewrite allChars_String, Hc, Hws. simpl. auto.
Qed.

(** The number of spaces that [extractMultilineString] removes: none when
    no line starts with whitespace; otherwise the least number of code
    units of whitespace that a line which starts with whitespace starts
    with. *)
Lemma minSpaces_fold lines m0 :
  let k := fold_left minSpacesStep lines m0 in
  (k = 0 <-> m0 = 0 /\ Forall (fun l => Js.searchNonWhitespaceOrEnd l = 0) lines)
  /\ (m0 <> 0 -> k <= m0)
  /\ Forall (fun l => 0 < Js.searchNonWhitespaceOrEnd l ->
                      k <= Js.searchNonWhitespaceOrEnd l) lines
  /\ (k = m0 \/ Exists (fun l => Js.searchNonWhitespaceOrEnd l = k) lines).
Proof.
  revert m0. induction lines as [|l lines IH]; intros m0; simpl.
  - split; [split|split; [|split]].
    + intros Hk. split; [exact Hk|constructor].
    + intros [Hk _]. exact Hk.
    + intros _. lia.
    + constructor.
    + left. reflexivity.
  - destruct (IH (minSpacesStep m0 l)) as (Hzero & Hle & Hall & Hex).
    set (k := fold_left minSpacesStep lines (minSpacesStep m0 l)) in *.
    assert (Hstep :
              let f := Js.searchNonWhitespaceOrEnd l in
              (minSpacesStep m0 l = f /\ 0 < f /\ (m0 = 0 \/ f < m0))
              \/ (minSpacesStep m0 l = m0
                  /\ (f = 0 \/ (m0 <> 0 /\ m0 <= f)))).
    { unfold minSpacesStep. simpl.
      destruct (Nat.ltb_spec 0 (Js.searchNonWhitespaceOrEnd l)); simpl;
        [|right; split; [reflexivity|lia]].
      destruct (Nat.eqb_spec m0 0); simpl; [left; auto|].
      destruct (Nat.ltb_spec (Js.searchNonWhitespaceOrEnd l) m0);
        [left; auto|right; split; [reflexivity|lia]]. }
    simpl in Hstep. split; [|split; [|split]].
    + split.
      * intros Hk. apply Hzero in Hk as [Hm Hlines].
        destruct Hstep as [(Hs & ? & ?)|(Hs & Hf)]; [lia|].
        rewrite Hs in Hm. split; [exact Hm|]. constructor; [lia|exact Hlines].
      * intros [Hm Hlines]. inversion Hlines; subst. apply Hzero.
        split; [|assumption].
        destruct Hstep as [(Hs & ? & ?)|(Hs & Hf)]; lia.
    + intros Hm. destruct Hstep as [(Hs & ? & ?)|(Hs & Hf)];
        specialize (Hle ltac:(lia)); lia.
    + constructor; [|exact Hall]. intros Hf.
      destruct Hstep as [(Hs & ? & ?)|(Hs & Hf')];
        specialize (Hle ltac:(lia)); lia.
    + destruct Hex as [Hk|Hex]; [|right; right; exact Hex].
      destruct Hstep as [(Hs & ? & ?)|(Hs & Hf)].
      * right. left. lia.
      * left. lia.
Qed.

(** [extractMultilineString] on the lines of a block: the token is the
    quotes, a newline, the lines and the quotes. *)
Lemma extractMultilineString_lines lines :
  lines <> [] ->
  Forall (fun l => indexOf Js.LF l = None) lines ->
  let kept := keptLines lines in
  let k := findMinSpaces kept in
  extractMultilineString (Examples.multilineToken (Js.join Js.LF lines))
  = Js.join Js.LF
      (map (fun l => if k <=? Js.length l then Js.sliceFrom k l else l) kept).
Proof.
  intros Hne Hlines kept k. unfold extractMultilineString.
  replace (Js.charAt 3 (Examples.multilineToken (Js.join Js.LF lines)))
    with (Some Js.LF) by reflexivity.
  rewrite bool_decide_eq_true_2 by reflexivity.
  replace (Js.slice 4 (-3) (Examples.multilineToken (Js.join Js.LF lines)))
    with (Js.join Js.LF lines).
  - rewrite (splitOn_join _ _ Hne Hlines). reflexivity.
  - symmetry.
    exact (slice_from_end (Examples.tripleQuote +:+ Examples.newline)
             (Js.join Js.LF lines) Examples.tripleQuote ltac:(simpl; lia)).
Qed.

(** A block of which no kept line starts with whitespace comes out as it
    is: the kept lines, joined. *)
Theorem multiline_unindented_unchanged (lines : list string) :
  lines <> [] ->
  Forall (fun l => indexOf Js.LF l = None) lines ->
  Forall (fun l => Js.searchNonWhitespaceOrEnd l = 0) (keptLines lines) ->
  extractMultilineString (Examples.multilineToken (Js.join Js.LF lines))
  = Js.join Js.LF (keptLines lines).
Proof.
  intros Hne Hlines Hzero.
  rewrite (extractMultilineString_lines lines Hne Hlines).
  destruct (minSpaces_fold (keptLines lines) 0) as (Hk & _).
  simpl in Hk. unfold findMinSpaces.
  rewrite (proj2 Hk (conj eq_refl Hzero)). f_equal.
  rewrite <- (map_id (keptLines lines)) at 2.
  apply map_ext. intros l. simpl. apply sliceFrom_0.
Qed.

Lemma multiline_unindented_unchanged_witness :
  extractMultilineString
    (Examples.multilineToken (Js.join Js.LF ["abc"; ""; "def"; "  "]))
  = Js.join Js.LF ["abc"; ""; "def"].
Proof.
  apply (multiline_unindented_unchanged ["abc"; ""; "def"; "  "]).
  - discriminate.
  - repeat constructor.
  - repeat constructor.
Defined.

(** A block of which every kept line is empty or starts with whitespace
    loses its common indentation and nothing else.  With [k] the least
    number of code units of whitespace that a kept line which is not empty
    starts with, every such line is [k] code units of whitespace followed by
    what is left of it, an empty line stays empty, and some line is left
    with no more indentation than that. *)
Theorem multiline_common_indent_removed (lines : list string) :
  lines <> [] ->
  Forall (fun l => indexOf Js.LF l = None) lines ->
  Forall (fun l => l = "" \/ 0 < Js.searchNonWhitespaceOrEnd l)
    (keptLines lines) ->
  let kept := keptLines lines in
  let k := findMinSpaces kept in
  extractMultilineString (Examples.multilineToken (Js.join Js.LF lines))
  = Js.join Js.LF (map (Js.sliceFrom k) kept)
  /\ Forall (fun l =>
               l <> "" ->
               exists ws,
                 l = ws +:+ Js.sliceFrom k l /\ String.length ws = k
                 /\ InstanceExporter.allChars Js.isWhitespace ws = true)
       kept
  /\ (Exists (fun l => l <> "") kept ->
      0 < k /\ Exists (fun l => Js.searchNonWhitespaceOrEnd l = k) kept).
Proof.
  intros Hne Hlines Hind kept k.
  destruct (minSpaces_fold kept 0) as (Hzero & _ & Hall & Hex).
  fold (findMinSpaces kept) in Hzero, Hall, Hex. fold k in Hzero, Hall, Hex.
  assert (Hle : Forall (fun l => l <> "" ->
                                 k <= Js.searchNonWhitespaceOrEnd l) kept).
  { apply Forall_forall. intros l Hl Hl'.
    rewrite Forall_forall in Hind, Hall.
    destruct (Hind l Hl) as [|Hpos]; [contradiction|]. auto. }
  split; [|split].
  - rewrite (extractMultilineString_lines lines Hne Hlines).
    fold kept. fold k. f_equal. apply Forall_fmap_ext_1.
    apply Forall_forall. intros l Hl. rewrite Forall_forall in Hle.
    destruct l as [|c l].
    + rewrite sliceFrom_empty. destruct (k <=? Js.length ""); reflexivity.
    + specialize (Hle _ Hl ltac:(discriminate)).
      pose proof (searchNonWhitespaceOrEnd_le (String c l)) as Hlen.
      destruct (Nat.leb_spec k (Js.length (String c l))) as [|Hlt];
        [reflexivity|]. unfold Js.length in Hlt. lia.
  - apply Forall_forall. intros l Hl Hl'. rewrite Forall_forall in Hle.
    apply leading_whitespace. auto.
  - intros Hsome. assert (Hk : 0 < k).
    { destruct (Nat.eq_dec k 0) as [Hk0|]; [|lia].
      apply Hzero in Hk0 as [_ Hk0]. rewrite Forall_forall in Hk0, Hind.
      apply Exists_exists in Hsome as (l & Hl & Hl').
      destruct (Hind l Hl) as [|Hpos]; [contradiction|].
      rewrite (Hk0 l Hl) in Hpos. lia. }
    split; [exact Hk|]. destruct Hex as [Hk0|Hex]; [lia|exact Hex].
Qed.

Lemma multiline_common_indent_removed_witness :
  extractMultilineString
    (Examples.multilineToken
       (Js.join Js.LF ["    abc"; ""; "  def"; "  "]))
  = Js.join Js.LF ["  abc"; ""; "def"].
Proof.
  apply (multiline_common_indent_removed ["    abc"; ""; "  def"; "  "]).
  - discriminate.
  - repeat constructor.
  - repeat constructor; (left; reflexivity) || (right; vm_compute; lia).
Defined.

End ImporterDocumentsFacts.

(** ** What the exporter adds to the Package *)

Module InstanceExporterCoverageFacts.
Import Model InstanceExporter InstanceExporterInvariants.
Import InstanceExporterCoverage InstanceExporterFacts.

Section Coverage.
Context `{Collaborators}.

Lemma lookup_kept l l' addr i :
  map kept l' = map kept l -> l !! addr = Some i ->
  exists i', l' !! addr = Some i' /\ kept i' = kept i.
Proof.
  intros Hk Hi.
  assert (Hl : map kept l' !! addr = Some (kept i)).
  { rewrite Hk. change map with (@fmap list _).
    rewrite list_lookup_fmap, Hi. reflexivity. }
  change map with (@fmap list _) in Hl. rewrite list_lookup_fmap in Hl.
  destruct (l' !! addr) as [i'|]; [|discriminate].
  exists i'. split; [reflexivity|]. simpl in Hl. congruence.
Qed.

Lemma resolvable_kept i i' : kept i' = kept i -> resolvable i' = resolvable i.
Proof.
  unfold kept, resolvable. intros Hk. inversion Hk. congruence.
Qed.

Lemma sourced_kept l l' n :
  map kept l' = map kept l -> sourced l n -> sourced l' n.
Proof.
  intros Hk (i & Hin & Hid & Hres).
  apply list_elem_of_lookup in Hin as (addr & Hi).
  destruct (lookup_kept _ _ _ _ Hk Hi) as (i' & Hi' & Hkept).
  exists i'. split; [eapply list_elem_of_lookup_2; exact Hi'|].
  rewrite (resolvable_kept _ _ Hkept). split; [|exact Hres].
  unfold kept in Hkept. inversion Hkept. congruence.
Qed.

Lemma Accounted_refl st : Accounted st st.
Proof. split; eauto. Qed.

Lemma Accounted_trans st1 st2 st3 :
  Accounted st1 st2 -> Accounted st2 st3 -> Accounted st1 st3.
Proof.
  intros [Ht1 Hu1 Hn1] [Ht2 Hu2 Hn2]. split.
  - congruence.
  - intros addr i Hi. destruct (Hu1 addr i Hi) as (i' & Hi' & Hu').
    destruct (Hu2 addr i' Hi') as (i'' & Hi'' & Hu'').
    exists i''. split; [exact Hi''|].
    destruct Hu' as [<-|Hu'], Hu'' as [Hu''|Hu'']; auto.
    right. congruence.
  - intros n Hn. destruct (Hn2 n Hn) as [Hn'|Hs].
    + apply Hn1. exact Hn'.
    + right. apply (sourced_kept (tank st2)); [symmetry; exact Ht1|exact Hs].
Qed.

Lemma Accounted_log st rs :
  Accounted st (mkState (tank st) (pkgInstances st) (log st ++ rs)).
Proof. split; simpl; eauto. Qed.

Lemma Accounted_modifyInstance st addr f :
  (forall i, kept (f i) = kept i) ->
  (forall i, usage (f i) = usage i \/ usage (f i) = Some Inline) ->
  Accounted st (mkState (alter f addr (tank st)) (pkgInstances st) (log st)).
Proof.
  intros Hkept Husage. split; simpl; auto.
  - apply map_alter_same. exact Hkept.
  - intros a i Hi. destruct (decide (addr = a)) as [->|Hne].
    + exists (f i). rewrite list_lookup_alter_eq, Hi. auto.
    + exists i. rewrite list_lookup_alter_ne by exact Hne. auto.
Qed.

Lemma Accounted_modifyDefinition st idx f :
  (forall d, instanceMeta (f d) = instanceMeta d) ->
  Accounted st (mkState (tank st) (alter f idx (pkgInstances st)) (log st)).
Proof.
  intros Hmeta. split; simpl; eauto.
  unfold names. rewrite (map_alter_same instanceMeta f _ idx Hmeta). auto.
Qed.

Lemma Accounted_push st d :
  sourced (tank st) (metaName (instanceMeta d)) ->
  Accounted st (mkState (tank st) (pkgInstances st ++ [d]) (log st)).
Proof.
  intros Hs. split; simpl; eauto.
  intros n Hn. unfold names in Hn. rewrite !map_app in Hn.
  apply elem_of_app in Hn as [Hn|Hn]; [left; exact Hn|].
  apply list_elem_of_singleton in Hn. subst n. right. exact Hs.
Qed.

Lemma Accounting_ret {A} (a : A) : Accounting (ret a).
Proof. intros st. apply Accounted_refl. Qed.

Lemma Accounting_throw {A} e : Accounting (@throw A e).
Proof. intros st. apply Accounted_refl. Qed.

Lemma Accounting_outOfFuel {A} : Accounting (@outOfFuel A).
Proof. intros st. apply Accounted_refl. Qed.

Lemma Accounting_getState : Accounting getState.
Proof. intros st. apply Accounted_refl. Qed.

Lemma Accounting_logRecords rs : Accounting (logRecords rs).
Proof. intros st. apply Accounted_log. Qed.

Lemma Accounting_readInstance addr : Accounting (readInstance addr).
Proof.
  intros st. unfold readInstance. destruct (tank st !! addr);
    apply Accounted_refl.
Qed.

Lemma Accounting_readDefinition idx : Accounting (readDefinition idx).
Proof.
  intros st. unfold readDefinition. destruct (pkgInstances st !! idx);
    apply Accounted_refl.
Qed.

Lemma Accounting_modifyInstance addr f :
  (forall i, kept (f i) = kept i) ->
  (forall i, usage (f i) = usage i \/ usage (f i) = Some Inline) ->
  Accounting (modifyInstance addr f).
Proof. intros Hf Hu st. apply Accounted_modifyInstance; assumption. Qed.

Lemma Accounting_modifyDefinition idx f :
  (forall d, instanceMeta (f d) = instanceMeta d) ->
  Accounting (modifyDefinition idx f).
Proof. intros Hf st. apply Accounted_modifyDefinition; assumption. Qed.

Lemma Accounting_bind {A B} (m : M A) (k : A -> M B) :
  Accounting m -> (forall a, Accounting (k a)) -> Accounting (bind m k).
Proof.
  intros Hm Hk st. unfold bind. specialize (Hm st).
  destruct (m st) as [[a| |] st']; simpl in *; try exact Hm.
  eapply Accounted_trans; [exact Hm|]. apply Hk.
Qed.

Lemma Accounting_tryCatch {A} (m : M A) handler :
  Accounting m -> (forall e, Accounting (handler e)) ->
  Accounting (tryCatch m handler).
Proof.
  intros Hm Hh st. unfold tryCatch. specialize (Hm st).
  destruct (m st) as [[a| |] st']; simpl in *; try exact Hm.
  eapply Accounted_trans; [exact Hm|]. apply Hh.
Qed.

Lemma Accounting_updateDefinition idx f :
  (forall instances d, instanceMeta (f instances d) = instanceMeta d) ->
  Accounting (updateDefinition idx f).
Proof.
  intros Hf. apply Accounting_bind; [apply Accounting_getState|].
  intros st. apply Accounting_modifyDefinition. apply Hf.
Qed.

End Coverage.

Create HintDb accounting.

#[local] Hint Resolve Accounting_ret Accounting_throw Accounting_outOfFuel
  Accounting_getState Accounting_logRecords Accounting_readInstance
  Accounting_readDefinition : accounting.

Ltac accounting :=
  repeat first
    [ simple apply Accounting_bind; [|intro]
    | solve [auto with accounting]
    | apply Accounting_modifyInstance; [reflexivity | intros ?; left; reflexivity]
    | progress unfold loggerError, loggerWarn, loggerInfo ].

Section Exporting.
Context `{Collaborators}.

Lemma Accounting_fishForFHIRWith rec item :
  (forall a, Accounting (rec a)) -> Accounting (fishForFHIRWith rec item).
Proof.
  intros Hrec. unfold fishForFHIRWith. apply Accounting_bind; [accounting|].
  intros st. destruct (packageFishInstance _ _); [accounting|].
  destruct (tankFishInstance _ _); accounting.
Qed.

Lemma Accounting_convertInstanceRules fish rs :
  (forall item, Accounting (fish item)) ->
  Accounting (convertInstanceRules fish rs).
Proof.
  intros Hfish. induction rs as [|r rs IH]; simpl; [accounting|].
  destruct (isInstance r); [|accounting].
  apply Accounting_bind.
  - destruct (value r); accounting.
  - intros [i|]; accounting.
Qed.

Lemma Accounting_prepareRules fish addr :
  (forall item, Accounting (fish item)) -> Accounting (prepareRules fish addr).
Proof.
  intros Hfish. unfold prepareRules. accounting.
  apply Accounting_convertInstanceRules. exact Hfish.
Qed.

Lemma Accounting_validateRules irp rs sd ruleMap :
  Accounting (validateRules irp rs sd ruleMap).
Proof.
  revert sd ruleMap. induction rs as [|r rs IH]; intros sd ruleMap; simpl;
    [accounting|].
  apply Accounting_bind; [accounting|]. intros st.
  destruct (validateValueAtPath _ _ _ _ _) as [sd' [msg|v]]; accounting;
    apply IH.
Qed.

Lemma Accounting_assignValidated idx rules sd :
  Accounting (assignValidated idx rules sd).
Proof.
  unfold assignValidated. accounting.
  - apply Accounting_validateRules.
  - apply Accounting_updateDefinition. intros.
    apply instanceMeta_setProperties.
  - apply Accounting_updateDefinition. intros.
    apply instanceMeta_setProperties.
Qed.

Lemma Accounting_setAssignedValues fish addr idx sd :
  (forall item, Accounting (fish item)) ->
  Accounting (setAssignedValues fish addr idx sd).
Proof.
  intros Hfish. unfold setAssignedValues. accounting.
  - apply Accounting_prepareRules. exact Hfish.
  - apply Accounting_assignValidated.
Qed.

Lemma Accounting_checkDuplicateId fshDefinition idx :
  Accounting (checkDuplicateId fshDefinition idx).
Proof.
  unfold checkDuplicateId. accounting.
  destruct (hasDuplicate _ _ _); accounting.
Qed.

Lemma Accounting_validateAndCheck fshDefinition idx sd :
  Accounting (validateAndCheck fshDefinition idx sd).
Proof.
  unfold validateAndCheck, validateRequiredElements. accounting.
  - apply Accounting_modifyDefinition. intros. apply instanceMeta_validateId.
  - apply Accounting_modifyDefinition. reflexivity.
  - apply Accounting_checkDuplicateId.
Qed.

Lemma Accounting_exportPushed rec addr fshDefinition idx sd :
  (forall a, Accounting (rec a)) ->
  Accounting (exportPushed rec addr fshDefinition idx sd).
Proof.
  intros Hrec. unfold exportPushed. accounting.
  - apply Accounting_setAssignedValues. intros item.
    apply Accounting_fishForFHIRWith. exact Hrec.
  - apply Accounting_validateAndCheck.
Qed.

Lemma Accounting_resolveInstanceOf addr : Accounting (resolveInstanceOf addr).
Proof.
  unfold resolveInstanceOf. accounting.
  destruct (fisherFishForFHIR _ _) as [json|]; [|accounting].
  destruct (negb (String.eqb (kind json) "resource")); [|accounting].
  destruct (negb (bool_decide _)); accounting.
  apply Accounting_modifyInstance; [reflexivity|]. intros i. right.
  reflexivity.
Qed.

Lemma Accounted_exportResolved rec addr sd isResource st fsh :
  (forall a, Accounting (rec a)) ->
  tank st !! addr = Some fsh ->
  resolvable fsh = true ->
  Accounted st (exportResolved rec addr sd isResource st).2.
Proof.
  intros Hrec Hfsh Hres. unfold exportResolved.
  rewrite (bind_readInstance _ _ _ _ Hfsh), bind_pushDefinition.
  eapply Accounted_trans; [|apply Accounting_exportPushed; exact Hrec].
  apply Accounted_push. rewrite metaName_newInstanceDefinition.
  exists fsh. split; [eapply list_elem_of_lookup_2; exact Hfsh|]. auto.
Qed.

Lemma Accounting_exportInstanceBody rec addr :
  (forall a, Accounting (rec a)) -> Accounting (exportInstanceBody rec addr).
Proof.
  intros Hrec st. unfold exportInstanceBody.
  destruct (tank st !! addr) as [fsh|] eqn:Hfsh.
  - rewrite (bind_readInstance _ _ _ _ Hfsh), bind_getState.
    destruct (alreadyExported _ _) eqn:Hguard; [apply Accounted_refl|].
    unfold bind.
    pose proof (Accounting_resolveInstanceOf addr st) as Hacc.
    pose proof (resolveInstanceOf_run addr st fsh Hfsh) as Hrun.
    destruct (resolveInstanceOf addr st) as [[[sd isResource]| |] st1];
      simpl in *; try exact Hacc.
    eapply Accounted_trans; [exact Hacc|].
    destruct (lookup_kept _ _ _ _ (accountedTank _ _ Hacc) Hfsh)
      as (fsh1 & Hfsh1 & Hkept).
    apply (Accounted_exportResolved _ _ _ _ _ fsh1 Hrec Hfsh1).
    rewrite (resolvable_kept _ _ Hkept). unfold resolvable.
    destruct (fisherFishForFHIR _ _); [reflexivity|discriminate].
  - unfold bind, readInstance. rewrite Hfsh. apply Accounted_refl.
Qed.

Lemma Accounting_exportInstance fuel addr :
  Accounting (exportInstance fuel addr).
Proof.
  revert addr. induction fuel as [|fuel IH]; intros addr; simpl.
  - apply Accounting_outOfFuel.
  - apply Accounting_exportInstanceBody. exact IH.
Qed.

Lemma Accounting_exportEach fuel addrs : Accounting (exportEach fuel addrs).
Proof.
  induction addrs as [|addr rest IH]; simpl; [accounting|].
  apply Accounting_bind; [|intros; exact IH].
  apply Accounting_tryCatch; [|intros; accounting].
  apply Accounting_bind; [apply Accounting_exportInstance|intros; accounting].
Qed.

Lemma Accounting_export fuel : Accounting (export fuel).
Proof.
  unfold export. accounting.
  - apply Accounting_exportEach.
  - destruct (0 <? _); accounting.
Qed.

Lemma resolvable_frozen i i' :
  frozen i' = frozen i -> resolvable i' = resolvable i.
Proof. unfold frozen, resolvable. intros Hf. inversion Hf. congruence. Qed.

(** An Instance whose instanceOf is found is in the Package after
    [exportInstance], however the call ends. *)
Lemma exportInstance_adds fuel addr st fsh :
  tank st !! addr = Some fsh ->
  resolvable fsh = true ->
  alreadyExported (id fsh) (pkgInstances (exportInstance (S fuel) addr st).2)
  = true.
Proof.
  intros Hfsh Hres.
  destruct (alreadyExported (id fsh) (pkgInstances st)) eqn:Hguard.
  - rewrite (exportInstance_guard fuel _ _ _ Hfsh Hguard). exact Hguard.
  - unfold resolvable in Hres.
    destruct (fisherFishForFHIR (instanceOf fsh) _) as [json|] eqn:Hfish;
      [|discriminate].
    pose proof (resolveInstanceOf_run addr st fsh Hfsh) as Hrun.
    rewrite Hfish in Hrun.
    assert (Hsome : exists isResource st1,
               resolveInstanceOf addr st = (Returned (json, isResource), st1)).
    { rewrite Hrun. destruct (String.eqb _ _); [eauto|].
      destruct (bool_decide _); eauto. }
    destruct Hsome as (isResource & st1 & Hst1).
    rewrite (exportInstance_resolved fuel _ _ _ _ _ _ Hfsh Hguard Hst1).
    destruct (resolved_state _ _ _ _ _ Hfsh Hst1)
      as (Hpkg & fsh1 & Hfsh1 & Hid).
    assert (Hnew : alreadyExported (id fsh1) (pkgInstances st1) = false)
      by (rewrite Hpkg, Hid; exact Hguard).
    destruct (exportResolved_pushed (exportInstance fuel) addr json
                isResource st1 fsh1 (Framed_exportInstance fuel) Hfsh1 Hnew)
      as (_ & Hin & _).
    rewrite <- Hid. exact Hin.
Qed.

Lemma exportEach_step fuel addr rest st :
  (exportInstance fuel addr st).1 <> OutOfFuel ->
  exists st',
    exportEach fuel (addr :: rest) st = exportEach fuel rest st'
    /\ Extends (exportInstance fuel addr st).2 st'
    /\ Extends st st'.
Proof.
  intros Hfuel. rewrite exportEach_cons.
  pose proof (Framed_exportInstance fuel addr st) as Hext.
  destruct (exportInstance fuel addr st) as [[r| |] st1]; simpl in *.
  - exists st1. split; [reflexivity|]. split; [apply Extends_refl|exact Hext].
  - eexists. split; [reflexivity|]. split; [apply Extends_log|].
    eapply Extends_trans; [exact Hext|apply Extends_log].
  - contradiction.
Qed.

(** With fuel for the Instances that are still to be exported, the loop of
    [export] leaves in the Package every Instance that it goes over and
    whose instanceOf is found. *)
Lemma exportEach_covers fuel addrs st addr fsh :
  remaining st < fuel ->
  addr ∈ addrs ->
  tank st !! addr = Some fsh ->
  resolvable fsh = true ->
  alreadyExported (id fsh) (pkgInstances (exportEach fuel addrs st).2) = true.
Proof.
  intros Hfuel Hin. revert st fsh Hfuel.
  induction addrs as [|a rest IH]; intros st fsh Hfuel Hfsh Hres.
  - apply elem_of_nil in Hin. destruct Hin.
  - assert (Hrun : (exportInstance fuel a st).1 <> OutOfFuel)
      by (apply (Fueled_exportInstance fuel (remaining st) a Hfuel st); lia).
    destruct (exportEach_step fuel a rest st Hrun) as (st' & Heach & H1 & H2).
    rewrite Heach.
    destruct (decide (addr = a)) as [->|Hne].
    + apply (alreadyExported_Extends st'); [apply Framed_exportEach|].
      apply (alreadyExported_Extends _ _ _ H1).
      destruct fuel as [|fuel]; [lia|].
      apply exportInstance_adds; assumption.
    + apply elem_of_cons in Hin as [|Hin]; [contradiction|].
      destruct (Extends_lookup_tank _ _ _ _ H2 Hfsh) as (fsh' & Hfsh' & Hfz).
      assert (Hid : id fsh' = id fsh) by (unfold frozen in Hfz; congruence).
      rewrite <- Hid. apply (IH Hin).
      * pose proof (remaining_Extends _ _ H2). lia.
      * exact Hfsh'.
      * rewrite (resolvable_frozen _ _ Hfz). exact Hres.
Qed.

(** What [export] adds to the Package.  With more fuel than the Tank has
    Instances, the names of the instances of the Package after [export] are
    those it had and the ids of the Instances of the Tank whose instanceOf
    the fisher finds, no more and no less. *)
Theorem export_adds_the_resolved (fuel : nat) (st : State) :
  length (tank st) < fuel ->
  forall n,
    n ∈ names (pkgInstances (export fuel st).2)
    <-> n ∈ names (pkgInstances st) \/ sourced (tank st) n.
Proof.
  intros Hfuel n. split.
  - apply (accountedNames _ _ (Accounting_export fuel st)).
  - intros [Hold|(fsh & Hin & Hid & Hres)]; apply alreadyExported_names.
    + apply (alreadyExported_Extends st); [apply Framed_export|].
      apply alreadyExported_names. exact Hold.
    + subst n. apply list_elem_of_lookup in Hin as (addr & Hfsh).
      unfold export. rewrite bind_getState. unfold bind.
      pose proof (exportEach_covers fuel (seq 0 (length (tank st))) st addr
                    fsh) as Hcov.
      destruct (exportEach fuel _ st) as [[[]| |] st'] eqn:Heach;
        simpl in Hcov |- *.
      * assert (Hst' : alreadyExported (id fsh) (pkgInstances st') = true).
        { apply Hcov; [pose proof (remaining_le_tank st); lia| |exact Hfsh
                      |exact Hres].
          apply elem_of_seq. apply lookup_lt_Some in Hfsh. lia. }
        destruct (0 <? _); simpl; exact Hst'.
      * apply Hcov; [pose proof (remaining_le_tank st); lia| |exact Hfsh
                    |exact Hres].
        apply elem_of_seq. apply lookup_lt_Some in Hfsh. lia.
      * apply Hcov; [pose proof (remaining_le_tank st); lia| |exact Hfsh
                    |exact Hres].
        apply elem_of_seq. apply lookup_lt_Some in Hfsh. lia.
Qed.

(** What [export] leaves alone.  Whatever the fuel, after [export]:
    - every Instance of the Tank is as it was but for its rules and its
      usage, and a usage is as it was or has been set to Inline;
    - the instances that the Package had are where they were, with their
      [_instanceMeta], and what the log had is at its start.
    The collaborators are functions of what they are handed: what they
    change of the Tank is the rules of the Instance they expand. *)
Theorem export_leaves_the_rest (fuel : nat) (st : State) :
  let st' := (export fuel st).2 in
  map kept (tank st') = map kept (tank st)
  /\ (forall addr i,
         tank st !! addr = Some i ->
         exists i', tank st' !! addr = Some i'
                    /\ (usage i' = usage i \/ usage i' = Some Inline))
  /\ (exists more,
         map instanceMeta (pkgInstances st')
         = map instanceMeta (pkgInstances st) ++ more)
  /\ (exists more, log st' = log st ++ more).
Proof.
  intros st'. subst st'.
  destruct (Accounting_export fuel st) as [Ht Hu _].
  destruct (Framed_export fuel st) as [_ _ Hm Hl _].
  auto.
Qed.

(** What [export] logs last.  With more fuel than the Tank has Instances,
    [export] returns; for a Tank that has Instances the last record of the
    log is the count of them, and for a Tank without any the state is as
    it was. *)
Theorem export_counts_the_instances (fuel : nat) (st : State) :
  length (tank st) < fuel ->
  (export fuel st).1 = Returned tt
  /\ (tank st <> [] ->
      exists before,
        log (export fuel st).2
        = before ++ [mkLogRecord LInfo (ConvertedInstances (length (tank st)))
                       None])
  /\ (tank st = [] -> (export fuel st).2 = st).
Proof.
  intros Hfuel. split; [apply export_returns; exact Hfuel|]. split.
  - intros Hne. unfold export. rewrite bind_getState. unfold bind.
    pose proof (exportEach_outcome fuel (seq 0 (length (tank st))) st) as Hout.
    pose proof (Fueled_exportEach fuel (length (tank st))
                  (seq 0 (length (tank st))) Hfuel st (remaining_le_tank st))
      as Hfueled.
    destruct (exportEach fuel _ st) as [[[]| |] st'] eqn:Heach; simpl in *.
    + rewrite length_seq.
      destruct (Nat.ltb_spec 0 (length (tank st))) as [_|Hlen].
      * exists (log st'). reflexivity.
      * destruct (tank st); [contradiction|simpl in Hlen; lia].
    + destruct Hout; discriminate.
    + contradiction.
  - intros Hempty. unfold export. rewrite bind_getState, Hempty.
    destruct st; reflexivity.
Qed.

End Exporting.

Lemma export_adds_the_resolved_witness :
  "SecondExample"
  ∈ names
      (pkgInstances
         (export (H := Examples.exampleCollaborators) 3
            (mkState Examples.repeatedIdTank [] [])).2).
Proof.
  apply (export_adds_the_resolved (H := Examples.exampleCollaborators) 3
           (mkState Examples.repeatedIdTank [] [])).
  - simpl. lia.
  - right.
    exists (Examples.exampleInstance "SecondExample" "Patient"
              [Examples.assign "id" (VString "repeated-id")]
              (Examples.sourceAt "Repeat.fsh" 13 20)).
    split; [|split; reflexivity].
    apply list_elem_of_further, list_elem_of_here.
Defined.

Lemma export_counts_the_instances_witness :
  (export (H := Examples.exampleCollaborators) 3
     (mkState Examples.repeatedIdTank [] [])).1 = Returned tt.
Proof.
  apply (export_counts_the_instances (H := Examples.exampleCollaborators) 3
           (mkState Examples.repeatedIdTank [] [])).
  simpl. lia.
Defined.

End InstanceExporterCoverageFacts.

(** ** The steps of the exporter *)

Module InstanceExporterStepsFacts.
Import Model InstanceExporter InstanceExporterInvariants.
Import InstanceExporterSteps InstanceExporterFacts.

(** *** Duplicate ids *)

(** The check for a duplicate id does not depend on which of two instances
    is exported last: when an instance of the Package has a duplicate,
    that duplicate has one too. *)
Theorem duplicates_come_in_pairs (instances : list InstanceDefinition)
    (idx : nat) (d : InstanceDefinition) :
  instances !! idx = Some d ->
  hasDuplicate instances idx d = true ->
  exists j d',
    j <> idx /\ instances !! j = Some d'
    /\ hasDuplicate instances j d' = true.
Proof.
  intros Hd Hdup.
  apply hasDuplicate_true in Hdup
    as (Hinline & j & d' & Hj & Hd' & Hinline' & Htype & Hid).
  exists j, d'. split; [exact Hj|]. split; [exact Hd'|].
  apply hasDuplicate_true. split; [exact Hinline'|].
  exists idx, d. auto.
Qed.

Lemma duplicates_come_in_pairs_witness :
  exists j d',
    j <> 1 /\ Examples.repeatedIdPackage !! j = Some d'
    /\ hasDuplicate Examples.repeatedIdPackage j d' = true.
Proof.
  apply (duplicates_come_in_pairs Examples.repeatedIdPackage 1
           (Examples.patientDefinition "SecondExample" "repeated-id"));
    reflexivity.
Defined.

(** *** Names of instances in rules *)

Lemma bind_Returned_inv {A B} (m : M A) (k : A -> M B) st r st' :
  bind m k st = (Returned r, st') ->
  exists a st1, m st = (Returned a, st1) /\ k a st1 = (Returned r, st').
Proof.
  unfold bind. destruct (m st) as [[a| |] st1]; try discriminate. eauto.
Qed.



(** *** The types of inline resources *)

Lemma arraySet_lookup {A} i (x : option A) a k v :
  arraySet i x a !! k = Some (Some v) ->
  (k = i /\ x = Some v) \/ a !! k = Some (Some v).
Proof.
  unfold arraySet. destruct (Nat.ltb_spec i (length a)) as [Hlt|Hge].
  - destruct (decide (k = i)) as [->|Hne].
    + rewrite list_lookup_insert_eq by exact Hlt. intros Heq.
      left. split; [reflexivity|congruence].
    + rewrite list_lookup_insert_ne by auto. auto.
  - intros Hk. apply lookup_app_Some in Hk as [Hk|[Hka Hk]]; [auto|].
    apply lookup_app_Some in Hk as [Hk|[Hlen Hk]].
    + apply lookup_replicate in Hk as [Hk _]. discriminate.
    + rewrite length_replicate in Hlen, Hk.
      apply list_lookup_singleton_Some in Hk as [Hk Hx].
      left. split; [lia|exact Hx].
Qed.

Section InlineTypes.
Context `{Collaborators}.

Lemma inlineTypes_fold (ms : list InlineResourcePath) types
    (P : nat -> Value -> Prop) :
  (forall k v, types !! k = Some (Some v) -> P k v) ->
  (forall m k v,
      m ∈ ms -> length (splitOnPathPeriods (inlinePath m)) = S k ->
      inlineInstanceOf m = Some v -> P k v) ->
  forall k v,
    fold_left
      (fun types m =>
         match length (splitOnPathPeriods (inlinePath m)) with
         | S k => arraySet k (inlineInstanceOf m) types
         | 0 => types
         end) ms types !! k = Some (Some v) ->
    P k v.
Proof.
  revert types. induction ms as [|m ms IH]; intros types Htypes Hms k v;
    simpl; [apply Htypes|].
  apply IH.
  - intros k' v' Hk'.
    destruct (length (splitOnPathPeriods (inlinePath m))) as [|j] eqn:Hlen;
      [apply Htypes; exact Hk'|].
    apply arraySet_lookup in Hk' as [[-> Hv]|Hk']; [|apply Htypes; exact Hk'].
    apply (Hms m); [apply list_elem_of_here|exact Hlen|exact Hv].
  - intros m' k' v' Hin. apply Hms. apply list_elem_of_further. exact Hin.
Qed.

(** The array of the types of inline resources that a rule is validated
    with holds nothing of its own making: a type at index [k] is the
    instanceOf of an inline path that applies to the path of the rule (the
    rule lies below it and is not its [resourceType]) and that has [k + 1]
    segments.  The one inline path that applies gives an array with its
    type at the index of its last segment and holes before, and with no
    inline path that applies the array is empty. *)
Theorem inlineResourceTypes_from_paths (rulePath : string) :
  (forall inlineResourcePaths k v,
      inlineResourceTypesFor inlineResourcePaths rulePath !! k
      = Some (Some v) ->
      exists m,
        m ∈ inlineResourcePaths /\ appliesTo m rulePath = true
        /\ length (splitOnPathPeriods (inlinePath m)) = S k
        /\ inlineInstanceOf m = Some v)
  /\ (forall m k,
         appliesTo m rulePath = true ->
         length (splitOnPathPeriods (inlinePath m)) = S k ->
         inlineResourceTypesFor [m] rulePath
         = replicate k None ++ [inlineInstanceOf m])
  /\ (forall inlineResourcePaths,
         Forall (fun m => appliesTo m rulePath = false) inlineResourcePaths ->
         inlineResourceTypesFor inlineResourcePaths rulePath = []).
Proof.
  split; [|split].
  - intros inlineResourcePaths k v. unfold inlineResourceTypesFor.
    apply (inlineTypes_fold _ []
             (fun k v =>
                exists m,
                  m ∈ inlineResourcePaths /\ appliesTo m rulePath = true
                  /\ length (splitOnPathPeriods (inlinePath m)) = S k
                  /\ inlineInstanceOf m = Some v)).
    + intros k' v' Hk'. rewrite lookup_nil in Hk'. discriminate.
    + intros m k' v' Hin Hlen Hv. exists m.
      apply list_elem_of_In, filter_In in Hin as [Hin Happ].
      split; [apply list_elem_of_In; exact Hin|]. auto.
  - intros m k Happ Hlen. unfold inlineResourceTypesFor. simpl.
    unfold appliesTo in Happ. rewrite Happ. simpl. rewrite Hlen.
    unfold arraySet. simpl. rewrite Nat.sub_0_r. reflexivity.
  - intros inlineResourcePaths Hnone. unfold inlineResourceTypesFor.
    replace (List.filter _ inlineResourcePaths) with (@nil InlineResourcePath);
      [reflexivity|].
    symmetry. induction Hnone as [|m ms Hm Hms IH]; [reflexivity|].
    simpl. unfold appliesTo in Hm. rewrite Hm. exact IH.
Qed.

End InlineTypes.

Lemma inlineResourceTypes_from_paths_witness :
  inlineResourceTypesFor (H := Examples.exampleCollaborators)
    [mkInlineResourcePath "entry.resource" (Some (VString "Patient"))]
    "entry.resource.gender"
  = [None; Some (VString "Patient")].
Proof.
  destruct (inlineResourceTypes_from_paths (H := Examples.exampleCollaborators)
              "entry.resource.gender") as (_ & Hone & _).
  exact (Hone (mkInlineResourcePath "entry.resource"
                 (Some (VString "Patient"))) 1 eq_refl eq_refl).
Defined.

(** *** Paths without the optional index *)

Lemma append_cons c s t : String c s +:+ t = String c (s +:+ t).
Proof. reflexivity. Qed.

Lemma length_app_string s t :
  String.length (s +:+ t) = String.length s + String.length t.
Proof.
  induction s as [|c s IH]; [reflexivity|].
  rewrite append_cons. simpl. rewrite IH. reflexivity.
Qed.

Lemma dropZeros_String c s :
  dropZeros (String c s)
  = if Ascii.eqb c "0" then ((dropZeros s).1 + 1, (dropZeros s).2)
    else (0, String c s).
Proof.
  destruct c as [[] [] [] [] [] [] [] []]; try reflexivity.
  simpl. destruct (dropZeros s) as [n r]. simpl. rewrite Nat.add_1_r.
  reflexivity.
Qed.

Lemma zeroIndexLength_String c s :
  zeroIndexLength (String c s)
  = if Ascii.eqb c "["
    then match s with
         | String d rest =>
             if Ascii.eqb d "0"
             then match (dropZeros rest).2 with
                  | String e _ =>
                      if Ascii.eqb e "]" then Some ((dropZeros rest).1 + 3)
                      else None
                  | EmptyString => None
                  end
             else None
         | EmptyString => None
         end
    else None.
Proof.
  destruct c as [[] [] [] [] [] [] [] []]; try reflexivity.
  destruct s as [|d rest]; [reflexivity|].
  destruct d as [[] [] [] [] [] [] [] []]; try reflexivity.
  simpl. destruct (dropZeros rest) as [n [|e r]]; [reflexivity|]. simpl.
  destruct e as [[] [] [] [] [] [] [] []]; reflexivity.
Qed.

Lemma removeZeroIndicesFrom_0 c s :
  removeZeroIndicesFrom 0 (String c s)
  = match zeroIndexLength (String c s) with
    | Some n => removeZeroIndicesFrom (n - 1) s
    | None => String c (removeZeroIndicesFrom 0 s)
    end.
Proof. reflexivity. Qed.

(** The zeros of an index, before what does not start with a zero. *)
Lemma dropZeros_zeros n t :
  (forall r, t <> String "0" r) -> dropZeros (zeros n +:+ t) = (n, t).
Proof.
  intros Ht. induction n as [|n IH].
  - simpl zeros. change ("" +:+ t) with t. destruct t as [|c t]; [reflexivity|].
    rewrite dropZeros_String. destruct (Ascii.eqb_spec c "0") as [->|_];
      [exfalso; apply (Ht t); reflexivity|reflexivity].
  - simpl zeros. rewrite append_cons, dropZeros_String, IH. simpl.
    rewrite Nat.add_1_r. reflexivity.
Qed.

Lemma removeZeroIndicesFrom_skip x t :
  removeZeroIndicesFrom (String.length x) (x +:+ t)
  = removeZeroIndicesFrom 0 t.
Proof.
  induction x as [|c x IH]; [destruct t; reflexivity|].
  rewrite append_cons. simpl. exact IH.
Qed.

(** An index of zeros at the start is passed over. *)
Lemma removeZeroIndices_index n b :
  removeZeroIndicesFrom 0 (zeroIndex n +:+ b) = removeZeroIndicesFrom 0 b.
Proof.
  unfold zeroIndex.
  change (("[" +:+ zeros (S n) +:+ "]") +:+ b)
    with (String "[" (String "0" ((zeros n +:+ "]") +:+ b))).
  rewrite removeZeroIndicesFrom_0, zeroIndexLength_String. simpl Ascii.eqb.
  cbv iota.
  assert (Happ : (zeros n +:+ "]") +:+ b = zeros n +:+ String "]" b).
  { induction n as [|n IH]; [reflexivity|].
    simpl zeros. rewrite !append_cons, IH. reflexivity. }
  rewrite Happ, dropZeros_zeros by discriminate. simpl.
  replace (n + 3 - 1) with (String.length (String "0" (zeros n +:+ "]")))
    by (simpl; rewrite length_app_string; simpl;
        clear; induction n; simpl; lia).
  change (String "0" (zeros n +:+ String "]" b))
    with (String "0" (zeros n) +:+ String "]" b).
  rewrite <- Happ.
  change (String "0" ((zeros n +:+ "]") +:+ b))
    with (String "0" (zeros n +:+ "]") +:+ b).
  apply removeZeroIndicesFrom_skip.
Qed.

(** The zeros of an index that a bracket follows. *)
Lemma dropZeros_before_bracket x t :
  dropZeros (x +:+ String "[" t)
  = ((dropZeros x).1, (dropZeros x).2 +:+ String "[" t).
Proof.
  induction x as [|c x IH]; [reflexivity|].
  rewrite append_cons, !dropZeros_String.
  destruct (Ascii.eqb c "0"); [rewrite IH|]; reflexivity.
Qed.

(** An index that a bracket cuts short is none. *)
Lemma zeroIndexLength_before_bracket c a t :
  zeroIndexLength (String c a +:+ String "[" t) = zeroIndexLength (String c a)
  /\ forall n, zeroIndexLength (String c a) = Some n ->
               n <= String.length (String c a).
Proof.
  rewrite append_cons, !zeroIndexLength_String.
  destruct (Ascii.eqb c "["); [|split; [reflexivity|discriminate]].
  destruct a as [|d rest]; [split; [reflexivity|discriminate]|].
  rewrite append_cons. destruct (Ascii.eqb d "0");
    [|split; [reflexivity|discriminate]].
  rewrite dropZeros_before_bracket. simpl.
  assert (Hlen : forall x, (dropZeros x).1 + String.length (dropZeros x).2
                           = String.length x).
  { clear. induction x as [|c x IH]; [reflexivity|].
    rewrite dropZeros_String. destruct (Ascii.eqb c "0"); simpl; lia. }
  specialize (Hlen rest).
  destruct (dropZeros rest) as [n [|e r]]; simpl in *;
    [split; [reflexivity|discriminate]|].
  destruct (Ascii.eqb e "]"); split; try reflexivity; try discriminate.
  intros m Hm. inversion Hm; subst. lia.
Qed.

Lemma removeZeroIndicesFrom_app k a n b :
  k <= String.length a ->
  removeZeroIndicesFrom k (a +:+ zeroIndex n +:+ b)
  = removeZeroIndicesFrom k a +:+ removeZeroIndicesFrom 0 b.
Proof.
  revert k. induction a as [|c a IH]; intros k Hk.
  - simpl in Hk. replace k with 0 by lia.
    change ("" +:+ zeroIndex n +:+ b) with (zeroIndex n +:+ b).
    rewrite removeZeroIndices_index. reflexivity.
  - destruct k as [|k].
    + rewrite append_cons, !removeZeroIndicesFrom_0.
      assert (Hz : zeroIndex n +:+ b
                   = String "[" (zeros (S n) +:+ "]" +:+ b)).
      { unfold zeroIndex.
        change (("[" +:+ zeros (S n) +:+ "]") +:+ b)
          with (String "[" ((zeros (S n) +:+ "]") +:+ b)).
        f_equal. generalize (S n). clear. intros m.
        induction m as [|m IH]; [reflexivity|].
        simpl zeros. rewrite !append_cons, IH. reflexivity. }
      rewrite <- append_cons, Hz.
      destruct (zeroIndexLength_before_bracket c a
                  (zeros (S n) +:+ "]" +:+ b)) as [Heq Hle].
      rewrite Heq, <- Hz.
      destruct (zeroIndexLength (String c a)) as [m|].
      * apply IH. specialize (Hle m eq_refl). simpl in Hle. lia.
      * rewrite IH by lia. reflexivity.
    + rewrite append_cons. simpl. apply IH. simpl in Hk. lia.
Qed.

(** The normalization of the paths of rules takes out the indices that
    are zero: a path without a bracket is left as it is, and an index of
    one or more zeros is taken out wherever it stands, the rest of the path
    being normalized by itself on either side. *)
Theorem removeZeroIndices_removes :
  (forall path,
      InstanceExporter.allChars (fun c => negb (Ascii.eqb c "[")) path = true ->
      removeZeroIndices path = path)
  /\ (forall before n after,
         removeZeroIndices (before +:+ zeroIndex n +:+ after)
         = removeZeroIndices before +:+ removeZeroIndices after).
Proof.
  split.
  - intros path. unfold removeZeroIndices, InstanceExporter.allChars.
    induction path as [|c path IH]; [reflexivity|].
    simpl forallb. intros [Hc Hpath]%andb_prop.
    rewrite removeZeroIndicesFrom_0, zeroIndexLength_String.
    apply negb_true_iff in Hc. rewrite Hc, (IH Hpath). reflexivity.
  - intros before n after. unfold removeZeroIndices.
    apply removeZeroIndicesFrom_app. lia.
Qed.

Lemma removeZeroIndices_removes_witness :
  removeZeroIndices "name.given" = "name.given".
Proof.
  destruct removeZeroIndices_removes as [Hsame _].
  apply Hsame. reflexivity.
Defined.

(** *** The validation of the rules *)

Lemma mapSet_key_in {V} k (v : V) m : k ∈ map fst (Js.mapSet k v m).
Proof.
  rewrite mapSet_keys. case_bool_decide as Hin; [exact Hin|].
  apply elem_of_app. right. apply list_elem_of_here.
Qed.

Lemma mapSet_key_kept {V} k (v : V) m k' :
  k' ∈ map fst m -> k' ∈ map fst (Js.mapSet k v m).
Proof.
  intros Hin. rewrite mapSet_keys. case_bool_decide; [exact Hin|].
  apply elem_of_app. left. exact Hin.
Qed.

Lemma recordRules_keys vs m k :
  k ∈ map fst vs \/ k ∈ map fst m -> k ∈ map fst (recordRules vs m).
Proof.
  revert m. induction vs as [|[p x] vs IH]; intros m; simpl.
  - intros [Hin|Hin]; [apply elem_of_nil in Hin; destruct Hin|exact Hin].
  - intros [Hin|Hin]; apply IH.
    + apply elem_of_cons in Hin as [->|Hin]; [right|left; exact Hin].
      apply mapSet_key_in.
    + right. apply mapSet_key_kept. exact Hin.
Qed.

Section Validation.
Context `{Collaborators}.

Lemma validationErrors_of_rules instances irp rs sd :
  Forall (fun e => level e = LError
                   /\ exists r, r ∈ rs
                                /\ logSourceInfo e = Some (ruleSourceInfo r))
    (validationErrors instances irp rs sd)
  /\ length (validationErrors instances irp rs sd)
     + length (validRules instances irp rs sd).2 = length rs.
Proof.
  revert sd. induction rs as [|r rs IH]; intros sd; simpl;
    [split; [constructor|reflexivity]|].
  destruct (validateValueAtPath _ _ _ _ _) as [sd' [msg|v]];
    destruct (IH sd') as [Hall Hlen]; simpl.
  - split; [|lia]. constructor.
    + split; [reflexivity|]. exists r. split; [apply list_elem_of_here|].
      reflexivity.
    + eapply Forall_impl; [exact Hall|]. intros e (Hl & r' & Hin & Hs).
      split; [exact Hl|]. exists r'. split; [|exact Hs].
      apply list_elem_of_further. exact Hin.
  - split; [|lia]. eapply Forall_impl; [exact Hall|].
    intros e (Hl & r' & Hin & Hs). split; [exact Hl|]. exists r'.
    split; [|exact Hs]. apply list_elem_of_further. exact Hin.
Qed.

Lemma validRules_paths instances irp rs sd :
  (forall p, p ∈ map fst (validRules instances irp rs sd).2 ->
             p ∈ map path rs)
  /\ (forall r, r ∈ rs ->
        path r ∈ map fst (validRules instances irp rs sd).2
        \/ exists e, e ∈ validationErrors instances irp rs sd
                     /\ logSourceInfo e = Some (ruleSourceInfo r)).
Proof.
  revert sd. induction rs as [|r rs IH]; intros sd; simpl.
  - split; intros x Hx; apply elem_of_nil in Hx; destruct Hx.
  - destruct (validateValueAtPath _ _ _ _ _) as [sd' [msg|v]];
      destruct (IH sd') as [Hkeys Hall]; simpl; split.
    + intros p Hp. apply list_elem_of_further. apply Hkeys. exact Hp.
    + intros r' Hr'. apply elem_of_cons in Hr' as [->|Hr'].
      * right. eexists. split; [apply list_elem_of_here|reflexivity].
      * destruct (Hall r' Hr') as [Hin|(e & He & Hs)]; [left; exact Hin|].
        right. exists e. split; [apply list_elem_of_further; exact He|].
        exact Hs.
    + intros p Hp. apply elem_of_cons in Hp as [->|Hp];
        [apply list_elem_of_here|].
      apply list_elem_of_further. apply Hkeys. exact Hp.
    + intros r' Hr'. apply elem_of_cons in Hr' as [->|Hr'].
      * left. apply list_elem_of_here.
      * destruct (Hall r' Hr') as [Hin|(e & He & Hs)].
        -- left. apply list_elem_of_further. exact Hin.
        -- right. exists e. auto.
Qed.

(** The validation of the rules accounts for every rule and touches
    neither the Tank nor the Package.  It returns, whatever the rules: the
    error of a rule that is not valid is caught and logged as an error at
    that rule, and nothing else is logged.  The map of validated rules has
    one entry for each path, all of them paths of rules; and every rule has
    its path in the map or an error in the log. *)
Theorem validateRules_accounts_for_rules
    (inlineResourcePaths : list InlineResourcePath)
    (rules : list AssignmentRule) (sd : SD) (st : State) :
  exists sd' ruleMap errors,
    validateRules inlineResourcePaths rules sd [] st
    = (Returned (sd', ruleMap),
       mkState (tank st) (pkgInstances st) (log st ++ errors))
    /\ Forall (fun e =>
                 level e = LError
                 /\ exists r, r ∈ rules
                              /\ logSourceInfo e = Some (ruleSourceInfo r))
         errors
    /\ length errors <= length rules
    /\ NoDup (map fst ruleMap)
    /\ (forall p, p ∈ map fst ruleMap -> p ∈ map path rules)
    /\ (forall r, r ∈ rules ->
          path r ∈ map fst ruleMap
          \/ exists e, e ∈ errors
                       /\ logSourceInfo e = Some (ruleSourceInfo r)).
Proof.
  eexists _, _, _. split; [apply validateRules_run|].
  destruct (validationErrors_of_rules (pkgInstances st) inlineResourcePaths
              rules sd) as [Herrors Hlen].
  destruct (validRules_paths (pkgInstances st) inlineResourcePaths rules sd)
    as [Hkeys Hall].
  split; [exact Herrors|]. split; [lia|]. split; [|split].
  - apply recordRules_NoDup. constructor.
  - intros p Hp. apply Hkeys.
    apply list_elem_of_fmap in Hp as ([p' x] & -> & Hin).
    apply recordRules_elem_inv in Hin as [Hin|Hin];
      [|apply elem_of_nil in Hin; destruct Hin].
    apply (list_elem_of_fmap_2 fst) in Hin. exact Hin.
  - intros r Hr. destruct (Hall r Hr) as [Hin|He]; [left|right; exact He].
    apply recordRules_keys. left. exact Hin.
Qed.

End Validation.

End InstanceExporterStepsFacts.

(** ** The check of the required elements *)

Module RequiredElementsFacts.
Import Model InstanceExporter RequiredElements.

(** Induction on an element and the elements below it. *)
Lemma element_induction (P : ElementDefinition -> Prop) :
  (forall i p sn m children,
      Forall P children -> P (mkElementDefinition i p sn m children)) ->
  forall e, P e.
Proof.
  intros HP. fix IH 1. intros [i p sn m children]. apply HP.
  induction children as [|c cs IHcs]; constructor; [apply IH|exact IHcs].
Qed.

(** What the check logs for one child: the body of its loop. *)
Lemma validateRequiredChildElements_children instance i p sn m children s :
  validateRequiredChildElements instance
    (mkElementDefinition i p sn m children) s
  = flat_map
      (fun child =>
         match findChild instance children child with
         | JArray elements =>
             flat_map
               (fun arrayEl =>
                  if isNull arrayEl then []
                  else validateRequiredChildElements arrayEl child s)
               (List.filter (inSlice child) elements)
             ++ ownError child (JArray (List.filter (inSlice child) elements))
                  s
         | JNull => ownError child JNull s
         | instanceChild =>
             validateRequiredChildElements instanceChild child s
             ++ ownError child instanceChild s
         end) children.
Proof. reflexivity. Qed.

Lemma flat_map_nil {A B} (f : A -> list B) l :
  Forall (fun x => f x = []) l -> flat_map f l = [].
Proof.
  induction 1 as [|x l Hx _ IH]; simpl; [reflexivity|].
  rewrite Hx, IH. reflexivity.
Qed.

Lemma ownError_optional child v s :
  elementMin child = 0 -> ownError child v s = [].
Proof.
  intros Hmin. unfold ownError. rewrite Hmin.
  destruct v; reflexivity.
Qed.

(** Where no element has a minimum, the check logs nothing, whatever the
    instance is. *)
Theorem nothing_required_nothing_logged (element : ElementDefinition) :
  nothingRequired element = true ->
  forall instance s, validateRequiredChildElements instance element s = [].
Proof.
  induction element as [i p sn m children IH] using element_induction.
  intros Hnone instance s.
  rewrite validateRequiredChildElements_children.
  simpl in Hnone. rewrite forallb_forall in Hnone.
  apply flat_map_nil. rewrite Forall_forall in IH |- *.
  intros child Hchild.
  assert (Hin : In child children) by (apply list_elem_of_In; exact Hchild).
  destruct (andb_prop _ _ (Hnone child Hin)) as [Hmin Hbelow].
  apply Nat.eqb_eq in Hmin. specialize (IH child Hchild Hbelow).
  destruct (findChild instance children child); cbv zeta;
    rewrite (ownError_optional _ _ _ Hmin); rewrite ?app_nil_r;
    try reflexivity; try apply IH.
  apply flat_map_nil. apply Forall_forall.
  intros arrayEl _. destruct (isNull arrayEl); [reflexivity|apply IH].
Qed.

Lemma nothing_required_nothing_logged_witness :
  validateRequiredChildElements (JObject [("gender", JString "male")])
    (mkElementDefinition "Patient" "Patient" None 0
       [mkElementDefinition "Patient.gender" "Patient.gender" None 0 [];
        mkElementDefinition "Patient.name" "Patient.name" None 0
          [mkElementDefinition "Patient.name.given" "Patient.name.given"
             None 0 []]])
    Examples.noSource
  = [].
Proof.
  apply nothing_required_nothing_logged. reflexivity.
Defined.

Lemma ownError_at child v s :
  Forall (fun e => level e = LError /\ logSourceInfo e = Some s)
    (ownError child v s).
Proof.
  unfold ownError. destruct v as [| | |els|]; try constructor.
  - destruct (0 <? elementMin child); repeat constructor.
  - destruct (length els <? elementMin child); repeat constructor.
Qed.

Lemma Forall_flat_map_intro {A B} (P : B -> Prop) (f : A -> list B) l :
  Forall (fun x => Forall P (f x)) l -> Forall P (flat_map f l).
Proof.
  induction 1 as [|x l Hx _ IH]; simpl; [constructor|].
  apply Forall_app. auto.
Qed.

Lemma records_at_instance element :
  forall instance s,
    Forall (fun e => level e = LError /\ logSourceInfo e = Some s)
      (validateRequiredChildElements instance element s).
Proof.
  induction element as [i p sn m children IH] using element_induction.
  intros instance s. rewrite validateRequiredChildElements_children.
  apply Forall_flat_map_intro. rewrite Forall_forall in IH |- *.
  intros child Hchild. specialize (IH child Hchild).
  destruct (findChild instance children child); cbv zeta;
    try (apply Forall_app; split; [apply IH|apply ownError_at]);
    try apply ownError_at.
  apply Forall_app. split; [|apply ownError_at].
  apply Forall_flat_map_intro. apply Forall_forall. intros arrayEl _.
  destruct (isNull arrayEl); [constructor|apply IH].
Qed.

Lemma elem_of_flat_map_intro {A B} (f : A -> list B) l x y :
  x ∈ l -> y ∈ f x -> y ∈ flat_map f l.
Proof.
  intros Hx Hy. apply list_elem_of_In. apply in_flat_map. exists x.
  split; apply list_elem_of_In; assumption.
Qed.

(** What the check reports.  Every record that it logs is an error with
    the source of the Instance.  For a child of the element whose name does
    not end in [[x]]:
    - when the instance has neither the property of that name nor the one
      with an underscore before it, and the child has a minimum, the error
      that the child occurs 0 times is logged;
    - when the property is an array of which fewer elements count (all of
      them, or those of the slice that the child is) than the minimum of
      the child, the error that it occurs that many times is logged. *)
Theorem required_children_reported (instance : Json)
    (element : ElementDefinition) (s : SourceInfo) :
  Forall (fun e => level e = LError /\ logSourceInfo e = Some s)
    (validateRequiredChildElements instance element s)
  /\ (forall child,
        child ∈ elementChildren element ->
        endsWith "[x]" (pathEnd (elementPath child)) = false ->
        getProperty instance ("_" +:+ pathEnd (elementPath child)) = JNull ->
        getProperty instance (pathEnd (elementPath child)) = JNull ->
        0 < elementMin child ->
        cardinalityError child 0 s
        ∈ validateRequiredChildElements instance element s)
  /\ (forall child elements,
        child ∈ elementChildren element ->
        getProperty instance ("_" +:+ pathEnd (elementPath child)) = JNull ->
        getProperty instance (pathEnd (elementPath child))
        = JArray elements ->
        length (List.filter (inSlice child) elements) < elementMin child ->
        cardinalityError child
          (length (List.filter (inSlice child) elements)) s
        ∈ validateRequiredChildElements instance element s).
Proof.
  split; [apply records_at_instance|].
  destruct element as [i p sn m children]. simpl elementChildren.
  rewrite validateRequiredChildElements_children. split.
  - intros child Hchild Hchoice Hunder Hplain Hmin.
    apply (elem_of_flat_map_intro _ _ child); [exact Hchild|].
    unfold findChild. rewrite Hunder, Hplain, Hchoice. simpl.
    destruct (Nat.ltb_spec 0 (elementMin child)); [|lia].
    apply list_elem_of_here.
  - intros child elements Hchild Hunder Hplain Hshort.
    apply (elem_of_flat_map_intro _ _ child); [exact Hchild|].
    unfold findChild. rewrite Hunder, Hplain. simpl.
    apply elem_of_app. right.
    destruct (Nat.ltb_spec (length (List.filter (inSlice child) elements))
                (elementMin child)); [|lia].
    apply list_elem_of_here.
Qed.

Lemma required_children_reported_witness :
  cardinalityError
    (mkElementDefinition "Patient.name" "Patient.name" None 1 []) 0
    Examples.noSource
  ∈ validateRequiredChildElements (JObject [("gender", JString "male")])
      (mkElementDefinition "Patient" "Patient" None 0
         [mkElementDefinition "Patient.name" "Patient.name" None 1 []])
      Examples.noSource.
Proof.
  apply (required_children_reported (JObject [("gender", JString "male")])
           (mkElementDefinition "Patient" "Patient" None 0
              [mkElementDefinition "Patient.name" "Patient.name" None 1 []])
           Examples.noSource).
  - apply list_elem_of_here.
  - reflexivity.
  - reflexivity.
  - reflexivity.
  - simpl. lia.
Defined.

(** A minimum is counted on arrays only.  A child that the instance has as
    one value, not in an array, is never reported itself, whatever its
    minimum: for an element with that one child, what is logged is what is
    logged for what lies below the child. *)
Theorem single_value_meets_any_minimum (instance value : Json)
    (i p : string) (sn : option string) (m : nat)
    (child : ElementDefinition) (s : SourceInfo) :
  findChild instance [child] child = value ->
  (forall elements, value <> JArray elements) ->
  value <> JNull ->
  validateRequiredChildElements instance
    (mkElementDefinition i p sn m [child]) s
  = validateRequiredChildElements value child s.
Proof.
  intros Hfound Harray Hnull.
  rewrite validateRequiredChildElements_children. simpl.
  rewrite Hfound, app_nil_r.
  destruct value as [| | |els|]; cbv zeta; try reflexivity;
    try apply app_nil_r.
  - contradiction.
  - exfalso. apply (Harray els). reflexivity.
Qed.

Lemma single_value_meets_any_minimum_witness :
  validateRequiredChildElements (JObject [("given", JString "Ann")])
    (mkElementDefinition "HumanName" "HumanName" None 0
       [mkElementDefinition "HumanName.given" "HumanName.given" None 2 []])
    Examples.noSource
  = [].
Proof.
  rewrite (single_value_meets_any_minimum
             (JObject [("given", JString "Ann")]) (JString "Ann")).
  - reflexivity.
  - reflexivity.
  - discriminate.
  - discriminate.
Defined.

End RequiredElementsFacts.
